(** * Imperva incident extractor: a shallow embedding of [Imperva_IP.py]

    The development follows the source file function by function.
    Python values that come out of [json] are the inductive [json];
    exceptions are an error monad [result]; the working directory is a
    finite map from paths to files, threaded through the functions that
    read and write it ([io]); HTTP is a function from requests to
    responses, and a fetch returns the requests it sent next to its
    result.  Everything outside the program (environment variables, the
    server, the clock) is gathered in a record [world].

    Modelling conventions.
    - A Python [str] is a Rocq [string]: code points below 256, compared
      and sorted by code point as Python does.
    - JSON numbers are integers ([Z]); floats do not occur.  The limit
      on the number of digits that [int] and [str] convert
      ([sys.set_int_max_str_digits]) is taken to be switched off.
    - Text files are read and written as on a POSIX system (a written
      line feed stays a line feed); reading applies Python's universal
      newline translation.  Encoding errors, operating system errors
      and exceptions raised by the network layer are not modelled.
    - Logging does not influence any value a function returns or any
      other file.  [main] is the run without its log: of the log lines
      it keeps the one whose argument can raise ([log_delta]).
      [entry_point] is the run with the log file that [setup_logging]
      opens; the text of the log records (times, levels, messages) is
      not modelled and is a parameter there.
    - The pagination loop need not end; it is run for a given number of
      turns ([fuel]). *)

From Stdlib Require Import ZArith Ascii String List Lia.
From Stdlib Require Import Decimal DecimalString DecimalPos DecimalZ.
From stdpp Require Import base option list gmap sets strings sorting.

Local Open Scope Z_scope.
Set Warnings "-register-all".

(** ** Exceptions *)

Inductive exn : Type :=
  | TypeError
  | AttributeError
  | KeyError
  | ValueError
  | OSError
  | DateRangeError.  (* what [datetime.fromtimestamp] raises out of range:
                       ValueError, OverflowError or OSError, by value and
                       platform *)

Inductive result (A : Type) : Type :=
  | Ok (a : A)
  | Raise (e : exn).
Arguments Ok {A} a.
Arguments Raise {A} e.

#[global] Instance result_ret : MRet result := λ A, Ok.
#[global] Instance result_bind : MBind result := λ A B f m,
  match m with
  | Ok a => f a
  | Raise e => Raise e
  end.

(** ** Strings: [str.strip], [str.startswith], substring test *)

Definition LF : ascii := "010"%char.
Definition CR : ascii := "013"%char.

(** [str.isspace] on one character, for code points below 256:
    U+0009..U+000D, U+001C..U+0020, U+0085 and U+00A0. *)
Definition py_isspace (c : ascii) : bool :=
  let n := N_of_ascii c in
  ((9 <=? n) && (n <=? 13) || (28 <=? n) && (n <=? 32) || (n =? 133) || (n =? 160))%N.

Definition is_empty (s : string) : bool :=
  match s with
  | EmptyString => true
  | String _ _ => false
  end.

Fixpoint lstrip (s : string) : string :=
  match s with
  | EmptyString => EmptyString
  | String c s' => if py_isspace c then lstrip s' else s
  end.

Fixpoint rstrip (s : string) : string :=
  match s with
  | EmptyString => EmptyString
  | String c s' =>
      let r := rstrip s' in
      if py_isspace c && is_empty r then EmptyString else String c r
  end.

(** [s.strip()] *)
Definition strip (s : string) : string := rstrip (lstrip s).

(** The condition [s.strip()] of an [if]: the stripped string is not empty. *)
Definition nonblank (s : string) : bool := negb (is_empty (strip s)).

(** [s.startswith(p)] *)
Definition startswith (s p : string) : bool := String.prefix p s.

(** [needle in hay] for two strings *)
Fixpoint substring_of (needle hay : string) : bool :=
  String.prefix needle hay ||
  match hay with
  | EmptyString => false
  | String _ hay' => substring_of needle hay'
  end.

(** ** JSON values as Python objects *)

Inductive json : Type :=
  | JNull
  | JBool (b : bool)
  | JNum (n : Z)
  | JStr (s : string)
  | JArr (l : list json)
  | JObj (kvs : list (string * json)).

(** Insertion-ordered dictionaries with [str] keys. *)
Definition pydict (V : Type) : Type := list (string * V).

Fixpoint dict_get {V} (d : pydict V) (k : string) : option V :=
  match d with
  | [] => None
  | (k', v) :: d' => if decide (k' = k) then Some v else dict_get d' k
  end.

(** [d[k] = v]: an existing key keeps its position, a new key goes last. *)
Fixpoint dict_set {V} (d : pydict V) (k : string) (v : V) : pydict V :=
  match d with
  | [] => [(k, v)]
  | (k', v') :: d' =>
      if decide (k' = k) then (k', v) :: d' else (k', v') :: dict_set d' k v
  end.

Definition dict_keys {V} (d : pydict V) : list string := d.*1.

(** [d1.update(d2)] *)
Definition dict_update {V} (d1 d2 : pydict V) : pydict V :=
  fold_left (λ d kv, dict_set d kv.1 kv.2) d2 d1.

(** Truth value of an object. *)
Definition truthy (v : json) : bool :=
  match v with
  | JNull => false
  | JBool b => b
  | JNum n => negb (n =? 0)
  | JStr s => negb (is_empty s)
  | JArr l => match l with [] => false | _ => true end
  | JObj kvs => match kvs with [] => false | _ => true end
  end.

Definition is_str (k : string) (v : json) : bool :=
  match v with
  | JStr s => bool_decide (s = k)
  | _ => false
  end.

(** [k in v] for a [str] [k]: key test on a dict, element test on a list,
    substring test on a str, [TypeError] on anything else. *)
Definition py_contains (k : string) (v : json) : result bool :=
  match v with
  | JObj kvs => Ok (bool_decide (is_Some (dict_get kvs k)))
  | JArr l => Ok (existsb (is_str k) l)
  | JStr s => Ok (substring_of k s)
  | JNull | JBool _ | JNum _ => Raise TypeError
  end.

(** [v[k]] for a [str] [k]: lists and strings want integer indices. *)
Definition py_getitem (v : json) (k : string) : result json :=
  match v with
  | JObj kvs =>
      match dict_get kvs k with
      | Some x => Ok x
      | None => Raise KeyError
      end
  | _ => Raise TypeError
  end.

(** [v.get(k, default)] *)
Definition py_get (v : json) (k : string) (dflt : json) : result json :=
  match v with
  | JObj kvs => Ok (default dflt (dict_get kvs k))
  | _ => Raise AttributeError
  end.

(** ** Extractor ([extract_data_from_incidents]) *)

(** The condition [x and x.strip()]: [Some s] when it holds, and [x] is
    then the str [s].  A true object that is not a str has no [strip]. *)
Definition nonblank_str (x : json) : result (option string) :=
  if truthy x then
    match x with
    | JStr s => Ok (if nonblank s then Some s else None)
    | _ => Raise AttributeError
    end
  else Ok None.

(** The condition [key in incident and field in incident[key]]. *)
Definition has_nested (incident : json) (key field : string) : result bool :=
  b ← py_contains key incident;
  if b : bool then
    nested ← py_getitem incident key;
    py_contains field nested
  else Ok false.

(** First half of the loop body: [ip_data[ip] = reputation]. *)
Definition extract_ip (incident : json) (ip_data : pydict json)
  : result (pydict json) :=
  b ← has_nested incident "dominant_attack_ip" "ip";
  if b : bool then
    nested ← py_getitem incident "dominant_attack_ip";
    ip ← py_getitem nested "ip";
    o ← nonblank_str ip;
    match o with
    | Some ip =>
        nested ← py_getitem incident "dominant_attack_ip";
        reputation ← py_get nested "reputation" (JArr []);
        Ok (dict_set ip_data ip reputation)
    | None => Ok ip_data
    end
  else Ok ip_data.

(** Second half of the loop body: [domains.add(domain)]. *)
Definition extract_domain (incident : json) (domains : gset string)
  : result (gset string) :=
  b ← has_nested incident "dominant_attacked_host" "value";
  if b : bool then
    nested ← py_getitem incident "dominant_attacked_host";
    domain ← py_getitem nested "value";
    o ← nonblank_str domain;
    match o with
    | Some domain => Ok (domains ∪ {[domain]})
    | None => Ok domains
    end
  else Ok domains.

Definition extract_step (acc : pydict json * gset string) (incident : json)
  : result (pydict json * gset string) :=
  ip_data ← extract_ip incident acc.1;
  domains ← extract_domain incident acc.2;
  Ok (ip_data, domains).

(** The [for incident in incidents] loop. *)
Fixpoint extract_loop (incidents : list json) (acc : pydict json * gset string)
  : result (pydict json * gset string) :=
  match incidents with
  | [] => Ok acc
  | incident :: rest => acc' ← extract_step acc incident; extract_loop rest acc'
  end.

Definition chars (s : string) : list json :=
  (λ c, JStr (String c EmptyString)) <$> list_ascii_of_string s.

(** What the loop iterates over: a dict is wrapped in a one-element list,
    a list is taken as it is, a str yields its characters, and anything
    else is not iterable. *)
Definition incident_list (incidents : json) : result (list json) :=
  match incidents with
  | JObj _ => Ok [incidents]
  | JArr l => Ok l
  | JStr s => Ok (chars s)
  | JNull | JBool _ | JNum _ => Raise TypeError
  end.

Definition extract_data_from_incidents (incidents : json)
  : result (pydict json * gset string) :=
  l ← incident_list incidents;
  extract_loop l ([], ∅).


(** ** Files *)

(** The text form of JSON documents is left abstract: [json_dumps] is the
    text [json.dump] writes and [json_loads] is what [json.load] makes of
    a text ([None]: [JSONDecodeError]). *)
Class JsonText : Type := {
  json_dumps : json → string;
  json_loads : string → option json
}.

(** A file holds text written with [f.write], or a document written with
    [json.dump], which [json.load] reads back as it was written. *)
Inductive file : Type :=
  | Text (s : string)
  | Doc (v : json).

(** The working directory: regular files by path.  Directories are not
    modelled ([os.makedirs] always succeeds) and a path is its string. *)
Notation fs := (gmap string file).

(** [f.read()] in text mode, before newline translation. *)
Definition file_text `{JsonText} (f : file) : string :=
  match f with
  | Text s => s
  | Doc v => json_dumps v
  end.

(** [json.load(f)] *)
Definition file_json `{JsonText} (f : file) : option json :=
  match f with
  | Text s => json_loads s
  | Doc v => Some v
  end.

(** Reading in text mode turns CR LF and a lone CR into LF. *)
Fixpoint universal_newlines (s : string) : string :=
  match s with
  | EmptyString => EmptyString
  | String c s' =>
      if decide (c = CR) then
        match s' with
        | EmptyString => String LF EmptyString
        | String c' s'' =>
            if decide (c' = LF) then String LF (universal_newlines s'')
            else String LF (universal_newlines s')
        end
      else String c (universal_newlines s')
  end.

(** Lines of a text, each with its terminating LF (the last may lack it). *)
Fixpoint split_lines (s : string) : list string :=
  match s with
  | EmptyString => []
  | String c s' =>
      if decide (c = LF) then String LF EmptyString :: split_lines s'
      else
        match split_lines s' with
        | [] => [String c EmptyString]
        | l :: ls => String c l :: ls
        end
  end.

(** [f.readlines()] *)
Definition readlines (content : string) : list string :=
  split_lines (universal_newlines content).

(** [set(line.strip() for line in f.readlines() if line.strip())] *)
Definition read_entries (content : string) : gset string :=
  list_to_set (strip <$> filter (λ line, nonblank line) (readlines content)).

(** [sorted(xs)] for a set of strings. *)
Definition sorted (xs : gset string) : list string :=
  merge_sort String.le (elements xs).

Definition newline : string := String LF EmptyString.

(** The text written by [f.write(f"{x}\n")] for each [x] of a list. *)
Definition write_lines (l : list string) : string :=
  fold_right (λ x out, x +:+ newline +:+ out) EmptyString l.

(** The loop [for x in sorted(xs): if x.strip(): f.write(f"{x}\n")]. *)
Definition write_entries (xs : gset string) : string :=
  write_lines (filter (λ x, nonblank x) (sorted xs)).

(** State and exceptions: what a function does to the working directory
    and what it returns or raises. *)
Definition io (A : Type) : Type := fs → fs * result A.

#[global] Instance io_ret : MRet io := λ A a σ, (σ, Ok a).
#[global] Instance io_bind : MBind io := λ A B f m σ,
  match m σ with
  | (σ', Ok a) => f a σ'
  | (σ', Raise e) => (σ', Raise e)
  end.

Definition lift {A} (r : result A) : io A := λ σ, (σ, r).
Definition isfile (path : string) : io bool := λ σ, (σ, Ok (bool_decide (is_Some (σ !! path)))).
Definition read_file (path : string) : io file := λ σ,
  (σ, match σ !! path with Some f => Ok f | None => Raise OSError end).
Definition write_file (path : string) (f : file) : io unit := λ σ,
  (<[path := f]> σ, Ok ()).

(** ** Merge and persistence *)

Definition data_dir : string := "data".

(** The file name a [save_*] function ends up with: a timestamped default
    when none is given, and the [data] directory in front of a given one
    unless it already starts with [data]. *)
Definition resolve_filename (filename : option string) (dflt : string) : string :=
  match filename with
  | Some name =>
      if is_empty name then data_dir +:+ "/" +:+ dflt
      else if startswith name data_dir then name
      else data_dir +:+ "/" +:+ name
  | None => data_dir +:+ "/" +:+ dflt
  end.

(** [save_domains_to_file(domains, logger, filename)]; [now] is
    [datetime.now().strftime("%Y-%m-%d-%H-%M-%S")]. *)
Definition save_domains_to_file `{JsonText} (domains : gset string)
    (filename : option string) (now : string) : io (gset string) :=
  let filename := resolve_filename filename (now +:+ "_domain_data.txt") in
  file_exists ← isfile filename;
  existing_domains ←
    (if file_exists : bool then
       f ← read_file filename; mret (read_entries (file_text f))
     else mret ∅);
  let domains : gset string := filter (λ domain, nonblank domain) domains in
  let all_domains := existing_domains ∪ domains in
  write_file filename (Text (write_entries all_domains));;
  mret all_domains.

(** Hashable objects: what a [set] made from JSON data can hold. *)
Inductive atom : Type :=
  | ANull
  | ABool (b : bool)
  | ANum (n : Z)
  | AStr (s : string).

#[global] Instance atom_eq_dec : EqDecision atom.
Proof. solve_decision. Defined.

#[global] Instance atom_countable : Countable atom.
Proof.
  refine (inj_countable'
    (λ a, match a with
          | ANull => inl (inl ())
          | ABool b => inl (inr b)
          | ANum n => inr (inl n)
          | AStr s => inr (inr s)
          end)
    (λ x, match x with
          | inl (inl _) => ANull
          | inl (inr b) => ABool b
          | inr (inl n) => ANum n
          | inr (inr s) => AStr s
          end) _).
  by intros [].
Defined.

Definition json_of_atom (a : atom) : json :=
  match a with
  | ANull => JNull
  | ABool b => JBool b
  | ANum n => JNum n
  | AStr s => JStr s
  end.

(** [hash(x)]: lists and dicts are unhashable. *)
Definition atom_of_json (x : json) : result atom :=
  match x with
  | JNull => Ok ANull
  | JBool b => Ok (ABool b)
  | JNum n => Ok (ANum n)
  | JStr s => Ok (AStr s)
  | JArr _ | JObj _ => Raise TypeError
  end.

(** [iter(x)]: a dict yields its keys, a str its characters. *)
Definition py_iter (x : json) : result (list json) :=
  match x with
  | JArr l => Ok l
  | JStr s => Ok (chars s)
  | JObj kvs => Ok (JStr <$> dict_keys kvs)
  | JNull | JBool _ | JNum _ => Raise TypeError
  end.

Fixpoint atoms_of (l : list json) : result (list atom) :=
  match l with
  | [] => Ok []
  | x :: l' => a ← atom_of_json x; as' ← atoms_of l'; Ok (a :: as')
  end.

(** A set compares its elements with [==], under which [True] is [1]
    and [False] is [0] (and by [hash], which agrees).  [py_key a] names
    the class of the elements equal to [a]. *)
Definition py_key (a : atom) : atom :=
  match a with
  | ABool true => ANum 1
  | ABool false => ANum 0
  | _ => a
  end.

(** A Python set of hashable objects: for each class, the element the
    set holds. *)
Notation pyset := (gmap atom atom) (only parsing).

(** [s.add(a)]: when an element equal to [a] is in [s] already, it
    stays and [a] is not added. *)
Definition set_add (s : pyset) (a : atom) : pyset :=
  match s !! py_key a with
  | Some _ => s
  | None => <[py_key a := a]> s
  end.

(** The elements of a set, in some order without repetition.  Python
    leaves the order open; the properties below do not depend on it. *)
Definition set_elements (s : pyset) : list atom := (map_to_list s).*2.

(** [set(x)]: the elements of [x] are added one after the other. *)
Definition py_set (x : json) : result pyset :=
  l ← py_iter x;
  atoms ← atoms_of l;
  Ok (foldl set_add ∅ atoms).

(** [s1.union(s2)]: a copy of [s1] to which the elements of [s2] are
    added. *)
Definition py_union (s1 s2 : pyset) : pyset :=
  foldl set_add s1 (set_elements s2).

(** [list(s)] for a set [s]. *)
Definition py_list (s : pyset) : json :=
  JArr (json_of_atom <$> set_elements s).

(** [x[k] = v] *)
Definition py_setitem (x : json) (k : string) (v : json) : result json :=
  match x with
  | JObj kvs => Ok (JObj (dict_set kvs k v))
  | _ => Raise TypeError
  end.

(** Body of [for ip, reputation in ip_data.items()]. *)
Definition merge_reputation (existing_detailed : json) (ip : string)
    (reputation : json) : result json :=
  known ← py_contains ip existing_detailed;
  if known : bool then
    current ← py_getitem existing_detailed ip;
    existing_rep ← py_set current;
    new_rep ← py_set reputation;
    let combined_rep := py_list (py_union existing_rep new_rep) in
    py_setitem existing_detailed ip combined_rep
  else
    py_setitem existing_detailed ip reputation.

Fixpoint merge_detailed (items : pydict json) (existing_detailed : json)
  : result json :=
  match items with
  | [] => Ok existing_detailed
  | (ip, reputation) :: rest =>
      existing_detailed' ← merge_reputation existing_detailed ip reputation;
      merge_detailed rest existing_detailed'
  end.

(** [save_ip_data_to_file(ip_data, logger, filename, detailed_filename)];
    [now] is [datetime.now().strftime("%Y-%m-%d-%H-%M-%S")]. *)
Definition save_ip_data_to_file `{JsonText} (ip_data : pydict json)
    (filename detailed_filename : option string) (now : string)
  : io (gset string) :=
  let filename := resolve_filename filename (now +:+ "_ip_data.txt") in
  let detailed_filename :=
    resolve_filename detailed_filename (now +:+ "_ip_detailed.json") in
  file_exists ← isfile filename;
  existing_ips ←
    (if file_exists : bool then
       f ← read_file filename; mret (read_entries (file_text f))
     else mret ∅);
  let new_ips : gset string := list_to_set (dict_keys ip_data) in
  let new_ips : gset string := filter (λ ip, nonblank ip) new_ips in
  let all_ips := existing_ips ∪ new_ips in
  write_file filename (Text (write_entries all_ips));;
  detailed_exists ← isfile detailed_filename;
  existing_detailed ←
    (if detailed_exists : bool then
       f ← read_file detailed_filename;
       mret (default (JObj []) (file_json f))
     else mret (JObj []));
  existing_detailed ← lift (merge_detailed ip_data existing_detailed);
  write_file detailed_filename (Doc existing_detailed);;
  mret all_ips.

(** ** Watermark store *)

Definition digit_of (c : ascii) : option (Decimal.uint → Decimal.uint) :=
  match N_of_ascii c with
  | 48%N => Some Decimal.D0
  | 49%N => Some Decimal.D1
  | 50%N => Some Decimal.D2
  | 51%N => Some Decimal.D3
  | 52%N => Some Decimal.D4
  | 53%N => Some Decimal.D5
  | 54%N => Some Decimal.D6
  | 55%N => Some Decimal.D7
  | 56%N => Some Decimal.D8
  | 57%N => Some Decimal.D9
  | _ => None
  end.

(** Digits of an integer literal; single underscores may separate them. *)
Fixpoint parse_digits (s : string) : option Decimal.uint :=
  match s with
  | EmptyString => None
  | String c s' =>
      match digit_of c with
      | None => None
      | Some d =>
          match s' with
          | EmptyString => Some (d Decimal.Nil)
          | String c' s'' =>
              if decide (c' = "_"%char) then d <$> parse_digits s''
              else d <$> parse_digits s'
          end
      end
  end.

(** [int(s)] for a str: surrounding whitespace, an optional sign, decimal
    digits; [ValueError] otherwise. *)
Definition py_int (s : string) : result Z :=
  let parsed :=
    match strip s with
    | EmptyString => None
    | String c r =>
        if decide (c = "-"%char) then Z.opp ∘ Z.of_uint <$> parse_digits r
        else if decide (c = "+"%char) then Z.of_uint <$> parse_digits r
        else Z.of_uint <$> parse_digits (String c r)
    end in
  match parsed with
  | Some n => Ok n
  | None => Raise ValueError
  end.

(** [str(n)] for an int. *)
Definition py_str (n : Z) : string :=
  DecimalString.NilZero.string_of_int (Z.to_int n).

(** [save_last_query_timestamp(timestamp, logger, filename)] *)
Definition save_last_query_timestamp (timestamp : Z)
    (filename : option string) (now : string) : io unit :=
  let filename :=
    resolve_filename filename (now +:+ "_last_query_timestamp.txt") in
  write_file filename (Text (py_str timestamp)).

Definition default_timestamp_file : string := "data/last_query_timestamp.txt".

(** [get_last_query_timestamp(logger, filename)] *)
Definition get_last_query_timestamp `{JsonText} (filename : option string)
  : io (option Z) :=
  let filename :=
    match filename with
    | Some name => if is_empty name then default_timestamp_file else name
    | None => default_timestamp_file
    end in
  exists_ ← isfile filename;
  if exists_ : bool then
    f ← read_file filename;
    timestamp ← lift (py_int (strip (universal_newlines (file_text f))));
    mret (Some timestamp)
  else mret None.

(** ** HTTP *)

(** Values of request parameters and headers. *)
Inductive pyval : Type :=
  | VNone
  | VStr (s : string)
  | VInt (n : Z).

Record request : Type := {
  url : string;
  params : pydict pyval;
  headers : pydict pyval
}.

(** [json_body] is what [response.json()] returns; [None] when the body
    is not JSON and [response.json()] raises. *)
Record response : Type := {
  status_code : Z;
  json_body : option json;
  text : string
}.

Definition response_json (r : response) : result json :=
  match json_body r with
  | Some v => Ok v
  | None => Raise ValueError
  end.

(** Everything outside the program that a run depends on. *)
Record world : Type := {
  environ : gmap string string;      (* os.environ, after load_dotenv() *)
  http_get : request → response;     (* requests.get(url, params=, headers=) *)
  fromtimestamp_ok : Z → bool;       (* datetime.fromtimestamp(ms / 1000) succeeds *)
  now_ms : Z;                        (* int(datetime.now().timestamp() * 1000) *)
  now_label : string;                (* strftime("%Y-%m-%d-%H%M%S") in the entry point *)
  now_stamp : string;                (* strftime("%Y-%m-%d-%H-%M-%S") in the save functions *)
  now_text : string                  (* strftime("%Y-%m-%d %H:%M:%S") in the report *)
}.

(** [os.getenv(name)] *)
Definition getenv (w : world) (name : string) : pyval :=
  match environ w !! name with
  | Some s => VStr s
  | None => VNone
  end.

(** [not x] for a value read from the environment. *)
Definition pyval_false (x : pyval) : bool :=
  match x with
  | VNone => true
  | VStr s => is_empty s
  | VInt n => n =? 0
  end.

Definition api_url : string := "https://api.imperva.com/analytics/v1/incidents".

(** [if since_timestamp: params["from"] = since_timestamp] *)
Definition add_from (since_timestamp : option Z) (params : pydict pyval)
  : pydict pyval :=
  match since_timestamp with
  | Some t => if t =? 0 then params else dict_set params "from" (VInt t)
  | None => params
  end.

Definition api_headers (w : world) : pydict pyval :=
  [("x-API-Id", getenv w "IMPERVA_API_ID");
   ("x-API-Key", getenv w "IMPERVA_API_KEY");
   ("Accept", VStr "application/json")].

(** [get_imperva_incidents(caid, since_timestamp, logger)]: the requests
    sent, and the value returned or the exception raised. *)
Definition get_imperva_incidents (w : world) (caid : pyval)
    (since_timestamp : option Z) : list request * result (option json) :=
  let api_id := getenv w "IMPERVA_API_ID" in
  let api_key := getenv w "IMPERVA_API_KEY" in
  if pyval_false api_id || pyval_false api_key then ([], Raise ValueError)
  else
    let params := add_from since_timestamp [("caid", caid)] in
    let req := {| url := api_url; params := params; headers := api_headers w |} in
    let response := http_get w req in
    if status_code response =? 200 then
      ([req], v ← response_json response; Ok (Some v))
    else ([req], Ok None).

(** The request of one turn of the pagination loop. *)
Definition page_request (w : world) (caid : pyval) (since_timestamp : option Z)
    (page_size page : Z) : request :=
  let params :=
    add_from since_timestamp
      [("caid", caid); ("page", VInt page); ("page_size", VInt page_size)] in
  {| url := api_url; params := params; headers := api_headers w |}.

(** A decoded page as a list: a dict is one incident, a false value is
    the empty list; [extend] and [len] then need a list or a str. *)
Definition page_incidents (body : json) : result (list json) :=
  match body with
  | JObj _ => Ok [body]
  | _ =>
      if truthy body then
        match body with
        | JArr l => Ok l
        | JStr s => Ok (chars s)
        | _ => Raise TypeError
        end
      else Ok []
  end.

(** The [while more_incidents] loop, run for at most [fuel] turns: the
    requests sent in these turns, and the value returned or the exception
    raised ([None] when the loop has not ended after [fuel] turns). *)
Fixpoint fetch_loop (w : world) (caid : pyval) (since_timestamp : option Z)
    (page_size : Z) (fuel : nat) (page : Z) (all_incidents : list json)
  : list request * option (result (list json)) :=
  match fuel with
  | O => ([], None)
  | S fuel' =>
      let req := page_request w caid since_timestamp page_size page in
      let response := http_get w req in
      if status_code response =? 200 then
        match response_json response ≫= page_incidents with
        | Raise e => ([req], Some (Raise e))
        | Ok incidents =>
            let all_incidents := all_incidents ++ incidents in
            if Z.of_nat (length incidents) <? page_size then
              ([req], Some (Ok all_incidents))
            else
              let '(reqs, r) :=
                fetch_loop w caid since_timestamp page_size fuel'
                           (page + 1) all_incidents in
              (req :: reqs, r)
        end
      else ([req], Some (Ok all_incidents))
  end.

(** [fetch_all_incidents_with_pagination(caid, logger, since_timestamp,
    page_size)] *)
Definition fetch_all_incidents_with_pagination (w : world) (caid : pyval)
    (since_timestamp : option Z) (page_size : Z) (fuel : nat)
  : list request * option (result (list json)) :=
  fetch_loop w caid since_timestamp page_size fuel 1 [].

(** ** Report and entry point *)

Definition report_content (ip_count domain_count incident_count : Z)
    (timestamp current_time : string) : string :=
  "Imperva Incident Data Extraction Summary" +:+ newline +:+
  "Report Generated: " +:+ current_time +:+ newline +:+
  newline +:+
  "Data Collection Information:" +:+ newline +:+
  "---------------------------" +:+ newline +:+
  "Total Incidents Processed: " +:+ py_str incident_count +:+ newline +:+
  "Unique IP Addresses Found: " +:+ py_str ip_count +:+ newline +:+
  "Unique Domains Found: " +:+ py_str domain_count +:+ newline +:+
  newline +:+
  "File Information:" +:+ newline +:+
  "---------------" +:+ newline +:+
  "IP Address List: data/" +:+ timestamp +:+ "_ip_data.txt" +:+ newline +:+
  "IP Address Details: data/" +:+ timestamp +:+ "_ip_detailed.json" +:+ newline +:+
  "Domain List: data/" +:+ timestamp +:+ "_domain_data.txt" +:+ newline +:+
  "Timestamp File: data/" +:+ timestamp +:+ "_last_query_timestamp.txt" +:+ newline +:+
  newline +:+
  "This report was automatically generated by the Imperva Data Extractor tool." +:+
  newline.

(** [create_summary_report(ip_count, domain_count, incident_count,
    timestamp, logger)] *)
Definition create_summary_report (w : world)
    (ip_count domain_count incident_count : Z) (timestamp : string) : io unit :=
  let report_filename := "reports/" +:+ timestamp +:+ "_summary.txt" in
  write_file report_filename
    (Text (report_content ip_count domain_count incident_count timestamp
                          (now_text w))).

(** The log line [datetime.fromtimestamp(last_timestamp/1000)], evaluated
    when [last_timestamp] is true. *)
Definition log_delta (w : world) (last_timestamp : option Z) : result unit :=
  match last_timestamp with
  | Some t =>
      if t =? 0 then Ok ()
      else if fromtimestamp_ok w t then Ok () else Raise DateRangeError
  | None => Ok ()
  end.

(** The statements under [if incidents:]. *)
Definition process_incidents `{JsonText} (w : world) (incidents : list json)
  : io unit :=
  let current_timestamp := now_ms w in
  '(ip_data, domains) ← lift (extract_data_from_incidents (JArr incidents));
  let timestamp := now_label w in
  let ip_filename := timestamp +:+ "_ip_data.txt" in
  let ip_detailed_filename := timestamp +:+ "_ip_detailed.json" in
  let domain_filename := timestamp +:+ "_domain_data.txt" in
  let timestamp_filename := timestamp +:+ "_last_query_timestamp.txt" in
  all_ips ← save_ip_data_to_file ip_data (Some ip_filename)
                                 (Some ip_detailed_filename) (now_stamp w);
  all_domains ← save_domains_to_file domains (Some domain_filename) (now_stamp w);
  save_last_query_timestamp current_timestamp (Some timestamp_filename)
                            (now_stamp w);;
  create_summary_report w (Z.of_nat (size all_ips)) (Z.of_nat (size all_domains))
                        (Z.of_nat (length incidents)) timestamp.

(** A run: the requests it sent and, when the pagination loop ended
    within [fuel] turns, the working directory the run leaves together
    with [Ok ()] or [Raise e] when [e] reached the [except Exception]
    handler. *)
Record run : Type := {
  run_requests : list request;
  run_end : option (fs * result unit)
}.

(** The [__main__] block without its log file: the statements after
    [logger = setup_logging()].  [entry_point] below adds the log. *)
Definition main `{JsonText} (w : world) (fuel : nat) (σ : fs) : run :=
  let caid := getenv w "CLID" in
  match get_last_query_timestamp None σ with
  | (σ1, Raise e) => {| run_requests := []; run_end := Some (σ1, Raise e) |}
  | (σ1, Ok last_timestamp) =>
      match log_delta w last_timestamp with
      | Raise e => {| run_requests := []; run_end := Some (σ1, Raise e) |}
      | Ok _ =>
          let '(reqs, fetched) :=
            fetch_all_incidents_with_pagination w caid last_timestamp 100 fuel in
          {| run_requests := reqs;
             run_end :=
               match fetched with
               | None => None
               | Some (Raise e) => Some (σ1, Raise e)
               | Some (Ok []) => Some (σ1, Ok ())
               | Some (Ok incidents) => Some (process_incidents w incidents σ1)
               end |}
      end
  end.

(** *** The log file *)

(** The file the log handler of [setup_logging()] opens; [log_stamp] is
    [datetime.now().strftime("%Y-%m-%d-%H-%M-%S")] at that moment. *)
Definition log_file (log_stamp : string) : string :=
  "logs/" +:+ log_stamp +:+ "_imperva_api.log".

(** Writing [text] to a file opened in append mode: the file is created
    when it is absent, and [text] is put after what it holds. *)
Definition append_file `{JsonText} (path text : string) : io unit := λ σ,
  (<[path := Text (from_option file_text EmptyString (σ !! path) +:+ text)]> σ,
   Ok ()).

(** [setup_logging()]: [logging.FileHandler(log_filename)] opens the log
    file in append mode at once. *)
Definition setup_logging `{JsonText} (log_stamp : string) : io unit :=
  append_file (log_file log_stamp) EmptyString.

(** The [__main__] block with its log.  The handler appends every record
    that the run logs to the log file, and nothing else writes there;
    [records] is the text of these records (times, levels, messages),
    which is not modelled.  A run that has ended leaves the log file with
    all its records, so they are appended here in one piece. *)
Definition entry_point `{JsonText} (w : world) (log_stamp records : string)
    (fuel : nat) (σ : fs) : run :=
  let σ0 := (setup_logging log_stamp σ).1 in
  let r := main w fuel σ0 in
  {| run_requests := run_requests r;
     run_end :=
       match run_end r with
       | Some (σ1, outcome) =>
           Some ((append_file (log_file log_stamp) records σ1).1, outcome)
       | None => None
       end |}.

(** ** Notions used to state the properties *)

(** The nested [ip] of an incident, when there is one and it is a str. *)
Definition attack_ip (incident : json) : option string :=
  match incident with
  | JObj kvs =>
      match dict_get kvs "dominant_attack_ip" with
      | Some (JObj nested) =>
          match dict_get nested "ip" with
          | Some (JStr ip) => Some ip
          | _ => None
          end
      | _ => None
      end
  | _ => None
  end.

(** A nested field as the data model has it: absent, or a dict whose
    [field] entry, when present, is a str or a false value. *)
Definition nested_ok (kvs : pydict json) (key field : string) : bool :=
  match dict_get kvs key with
  | None => true
  | Some (JObj nested) =>
      match dict_get nested field with
      | None => true
      | Some (JStr _) => true
      | Some x => negb (truthy x)
      end
  | Some _ => false
  end.

Definition well_formed_incident (incident : json) : bool :=
  match incident with
  | JObj kvs =>
      nested_ok kvs "dominant_attack_ip" "ip" &&
      nested_ok kvs "dominant_attacked_host" "value"
  | _ => false
  end.

(** A value that is neither a dict, nor a list, nor a str. *)
Definition is_scalar (x : json) : bool :=
  match x with
  | JNull | JBool _ | JNum _ => true
  | JStr _ | JArr _ | JObj _ => false
  end.

(** Page [page] answers 200 with [items] and is not the last page. *)
Definition full_page (w : world) (caid : pyval) (since_timestamp : option Z)
    (page_size page : Z) (items : list json) : Prop :=
  let response := http_get w (page_request w caid since_timestamp page_size page) in
  status_code response = 200 ∧
  (∃ body, json_body response = Some body ∧ page_incidents body = Ok items) ∧
  page_size ≤ Z.of_nat (length items).

(** Page [page] answers 200 with fewer than [page_size] items. *)
Definition short_page (w : world) (caid : pyval) (since_timestamp : option Z)
    (page_size page : Z) (items : list json) : Prop :=
  let response := http_get w (page_request w caid since_timestamp page_size page) in
  status_code response = 200 ∧
  (∃ body, json_body response = Some body ∧ page_incidents body = Ok items) ∧
  Z.of_nat (length items) < page_size.

(** Page [page] answers with a status other than 200. *)
Definition failed_page (w : world) (caid : pyval) (since_timestamp : option Z)
    (page_size page : Z) : Prop :=
  status_code (http_get w (page_request w caid since_timestamp page_size page)) ≠ 200.

(** How the pagination ends after the full pages: with a short page, or
    with a failed one. *)
Definition last_page (w : world) (caid : pyval) (since_timestamp : option Z)
    (page_size page : Z) (last : option (list json)) : Prop :=
  match last with
  | Some items => short_page w caid since_timestamp page_size page items
  | None => failed_page w caid since_timestamp page_size page
  end.

(** Every character of [s] satisfies [P]. *)
Fixpoint all_chars (P : ascii → bool) (s : string) : bool :=
  match s with
  | EmptyString => true
  | String c s' => P c && all_chars P s'
  end.

Definition is_line_break (c : ascii) : bool :=
  bool_decide (c = LF) || bool_decide (c = CR).

(** An entry that a line of a text file holds as it is: stripping leaves
    it unchanged and it has no line break inside. *)
Definition clean_entry (x : string) : bool :=
  bool_decide (strip x = x) && all_chars (λ c, negb (is_line_break c)) x.

Definition is_digit (c : ascii) : bool :=
  match digit_of c with
  | Some _ => true
  | None => false
  end.

(** Decimal digits, with single underscores between digits allowed. *)
Inductive digit_string : string → Prop :=
  | digits_one c :
      is_digit c → digit_string (String c EmptyString)
  | digits_more c s :
      is_digit c → digit_string s → digit_string (String c s)
  | digits_sep c s :
      is_digit c → digit_string s → digit_string (String c (String "_"%char s)).

(** The integer literals [int] accepts, once whitespace is stripped. *)
Inductive int_literal : string → Prop :=
  | literal_plain s : digit_string s → int_literal s
  | literal_plus s : digit_string s → int_literal (String "+"%char s)
  | literal_minus s : digit_string s → int_literal (String "-"%char s).

(** The integer a literal denotes, read digit by digit from the left:
    [digits_from acc s n] says that after digits worth [acc], the digit
    string [s] brings the value to [n]. *)
Definition digit_value (c : ascii) : Z := Z.of_N (N_of_ascii c) - 48.

Inductive digits_from : Z → string → Z → Prop :=
  | value_one acc c :
      is_digit c →
      digits_from acc (String c EmptyString) (10 * acc + digit_value c)
  | value_more acc c s n :
      is_digit c → digits_from (10 * acc + digit_value c) s n →
      digits_from acc (String c s) n
  | value_sep acc c s n :
      is_digit c → digits_from (10 * acc + digit_value c) s n →
      digits_from acc (String c (String "_"%char s)) n.

Inductive denotes : string → Z → Prop :=
  | denotes_plain s n : digits_from 0 s n → denotes s n
  | denotes_plus s n : digits_from 0 s n → denotes (String "+"%char s) n
  | denotes_minus s n : digits_from 0 s n → denotes (String "-"%char s) (- n).

(** ** Sample data for evaluating concrete runs *)

(** A text form under which no plain text parses as JSON and documents
    print as the empty text.  The runs evaluated with it never read a
    file of the other kind, so the choice does not influence them. *)
Definition plain_text : JsonText :=
  {| json_dumps := λ _, EmptyString; json_loads := λ _, None |}.

(** The range of [datetime] in milliseconds since the epoch (UTC). *)
Definition datetime_range (t : Z) : bool :=
  (-62135596800000 <=? t) && (t <=? 253402300799999).

Definition sample_incident (ip : string) (tags : list string) (host : string) : json :=
  JObj [("dominant_attack_ip",
         JObj [("ip", JStr ip); ("reputation", JArr (JStr <$> tags))]);
        ("dominant_attacked_host", JObj [("value", JStr host)])].

(** A server with two pages of size two: page 1 is full, page 2 is short,
    any other request is refused. *)
Definition two_pages (req : request) : response :=
  match dict_get (params req) "page" with
  | Some (VInt 1) =>
      {| status_code := 200;
         json_body := Some (JArr [sample_incident "1.2.3.4" ["bot"] "evil.example.com";
                                  sample_incident "9.9.9.9" [] "a.example.com"]);
         text := EmptyString |}
  | Some (VInt 2) =>
      {| status_code := 200;
         json_body := Some (JArr [sample_incident "1.2.3.4" ["tor"] "b.example.com"]);
         text := EmptyString |}
  | _ => {| status_code := 404; json_body := None; text := "Not Found" |}
  end.

(** A server that refuses every request. *)
Definition unauthorized (req : request) : response :=
  {| status_code := 401; json_body := None; text := "Unauthorized" |}.

Definition sample_world (env : gmap string string)
    (server : request → response) : world :=
  {| environ := env;
     http_get := server;
     fromtimestamp_ok := datetime_range;
     now_ms := 1700000000000;
     now_label := "2023-11-14-221320";
     now_stamp := "2023-11-14-22-13-20";
     now_text := "2023-11-14 22:13:20" |}.

Definition credentials : gmap string string :=
  {["IMPERVA_API_ID" := "id"; "IMPERVA_API_KEY" := "key"; "CLID" := "1234"]}.

(** ** Notions used to state the properties of the persistence layer *)

(** [m] leaves the file at [path] as it is, whatever it returns. *)
Definition preserves {A} (path : string) (m : io A) : Prop :=
  ∀ σ, (m σ).1 !! path = σ !! path.

(** [s] ends with [sfx]. *)
Definition ends_with (s sfx : string) : Prop :=
  list_ascii_of_string sfx `suffix_of` list_ascii_of_string s.

(** Every entry of a set that is not blank is clean. *)
Definition clean_set (xs : gset string) : Prop :=
  set_Forall (λ x, nonblank x → clean_entry x) xs.

(** Every element of a set is filed under its own class. *)
Definition set_wf (s : pyset) : Prop :=
  map_Forall (λ k a, py_key a = k) s.

Definition is_list (x : json) : bool :=
  match x with
  | JArr _ => true
  | _ => false
  end.

(** Two reputation values hold the same tags: they are equal, or both
    are lists and [set] makes the same set of both (the same elements
    are kept, so the lists differ by the order of the tags and by tags
    that repeat an earlier one). *)
Definition same_tags (v1 v2 : json) : Prop :=
  v1 = v2 ∨
  ∃ tags, is_list v1 ∧ is_list v2 ∧ py_set v1 = Ok tags ∧ py_set v2 = Ok tags.

(** Two dictionaries list the same keys in the same order, with the same
    tags under each key. *)
Definition same_entries (kvs1 kvs2 : pydict json) : Prop :=
  Forall2 (λ a b, a.1 = b.1 ∧ same_tags a.2 b.2) kvs1 kvs2.

(** Two files are equal, or are JSON documents with the same entries. *)
Definition same_detailed (f1 f2 : option file) : Prop :=
  f1 = f2 ∨
  ∃ kvs1 kvs2,
    f1 = Some (Doc (JObj kvs1)) ∧ f2 = Some (Doc (JObj kvs2)) ∧
    same_entries kvs1 kvs2.

(** A list is stored for [ip], and every tag of [reputation] is equal
    to one of its tags. *)
Definition absorbed (kvs : pydict json) (ip : string) (reputation : json) : Prop :=
  ∃ v, dict_get kvs ip = Some v ∧ is_list v ∧
       ∀ stored new, py_set v = Ok stored → py_set reputation = Ok new →
                     dom new ⊆ dom stored.

(** ** Notions used to state further properties *)

(** The nested [value] of an incident, when there is one and it is a str. *)
Definition attacked_host (incident : json) : option string :=
  match incident with
  | JObj kvs =>
      match dict_get kvs "dominant_attacked_host" with
      | Some (JObj nested) =>
          match dict_get nested "value" with
          | Some (JStr domain) => Some domain
          | _ => None
          end
      | _ => None
      end
  | _ => None
  end.

(** A server that answers every request with an empty page. *)
Definition always_empty (req : request) : response :=
  {| status_code := 200; json_body := Some (JArr []); text := "[]" |}.

(** A server whose first page is full for a page size of two and whose
    second page is not JSON. *)
Definition garbled_second (req : request) : response :=
  match dict_get (params req) "page" with
  | Some (VInt 1) => two_pages req
  | _ => {| status_code := 200; json_body := None; text := "<html>" |}
  end.

(** The files the entry point writes: the four data files named after
    the label of the run, and the report. *)
Definition ip_file (w : world) : string :=
  resolve_filename (Some (now_label w +:+ "_ip_data.txt"))
                   (now_stamp w +:+ "_ip_data.txt").

Definition detailed_file (w : world) : string :=
  resolve_filename (Some (now_label w +:+ "_ip_detailed.json"))
                   (now_stamp w +:+ "_ip_detailed.json").

Definition domain_file (w : world) : string :=
  resolve_filename (Some (now_label w +:+ "_domain_data.txt"))
                   (now_stamp w +:+ "_domain_data.txt").

Definition timestamp_file (w : world) : string :=
  resolve_filename (Some (now_label w +:+ "_last_query_timestamp.txt"))
                   (now_stamp w +:+ "_last_query_timestamp.txt").

Definition report_file (w : world) : string :=
  "reports/" +:+ now_label w +:+ "_summary.txt".

Definition run_files (w : world) : list string :=
  [ip_file w; detailed_file w; domain_file w; timestamp_file w; report_file w].

(** [m] removes no file. *)
Definition keeps_files {A} (m : io A) : Prop :=
  ∀ (σ : fs) path, is_Some (σ !! path) → is_Some ((m σ).1 !! path).
(** * Properties *)

(** ** The error monad *)

Lemma bind_Ok {A B} (m : result A) (f : A → result B) b :
  m ≫= f = Ok b ↔ ∃ a, m = Ok a ∧ f a = Ok b.
Proof. destruct m; simpl; naive_solver. Qed.

Lemma bind_assoc {A B C} (m : result A) (f : A → result B) (g : B → result C) :
  (m ≫= f) ≫= g = m ≫= (λ a, f a ≫= g).
Proof. by destruct m. Qed.


(** ** Extractor *)

Example extract_spec_example :
  extract_data_from_incidents
    (JArr [JObj [("dominant_attack_ip",
                   JObj [("ip", JStr "1.2.3.4"); ("reputation", JArr [JStr "bot"])]);
                 ("dominant_attacked_host", JObj [("value", JStr "evil.example.com")])]])
  = Ok ([("1.2.3.4", JArr [JStr "bot"])], {["evil.example.com"]}).
Proof. vm_compute. reflexivity. Qed.

(** *** Ordered dictionaries *)

Section dict.
Context {V : Type}.
Implicit Types (d m : pydict V) (k : string) (v : V).

Lemma dict_get_set_eq d k v : dict_get (dict_set d k v) k = Some v.
Proof.
  induction d as [|[k' v'] d IH]; simpl; repeat case_decide; simpl;
    repeat case_decide; congruence.
Qed.

Lemma dict_get_set_ne d k k' v :
  k ≠ k' → dict_get (dict_set d k v) k' = dict_get d k'.
Proof.
  intros Hne. induction d as [|[k0 v0] d IH]; simpl; repeat case_decide; simpl;
    repeat case_decide; congruence.
Qed.

Lemma dict_get_Some_keys d k v : dict_get d k = Some v → k ∈ dict_keys d.
Proof.
  induction d as [|[k' v'] d IH]; simpl; [done|].
  case_decide; subst; intros; [left | right; auto].
Qed.

Lemma dict_get_None_keys d k : dict_get d k = None ↔ k ∉ dict_keys d.
Proof.
  induction d as [|[k' v'] d IH]; simpl.
  - split; [intros _; apply not_elem_of_nil | done].
  - rewrite not_elem_of_cons. case_decide; subst; naive_solver.
Qed.

Lemma dict_keys_set_present d k v :
  k ∈ dict_keys d → dict_keys (dict_set d k v) = dict_keys d.
Proof.
  induction d as [|[k' v'] d IH]; simpl.
  - by intros ?%elem_of_nil.
  - intros [->|Hin]%elem_of_cons; case_decide; simpl; try done.
    f_equal. by apply IH.
Qed.

Lemma dict_keys_set_absent d k v :
  k ∉ dict_keys d → dict_keys (dict_set d k v) = dict_keys d ++ [k].
Proof.
  induction d as [|[k' v'] d IH]; simpl; [done|].
  intros [? ?]%not_elem_of_cons. case_decide; [congruence|].
  simpl. f_equal. by apply IH.
Qed.

Lemma dict_keys_set_elem d k v : k ∈ dict_keys (dict_set d k v).
Proof. eapply dict_get_Some_keys, dict_get_set_eq. Qed.

Lemma dict_keys_set_mono d k k' v :
  k' ∈ dict_keys d → k' ∈ dict_keys (dict_set d k v).
Proof.
  destruct (decide (k ∈ dict_keys d)) as [Hin|Hout].
  - by rewrite dict_keys_set_present.
  - rewrite dict_keys_set_absent by done. set_solver.
Qed.

Lemma dict_set_NoDup d k v :
  NoDup (dict_keys d) → NoDup (dict_keys (dict_set d k v)).
Proof.
  intros Hnd. destruct (decide (k ∈ dict_keys d)) as [Hin|Hout].
  - by rewrite dict_keys_set_present.
  - rewrite dict_keys_set_absent by done.
    apply NoDup_app. split_and!; [done| |apply NoDup_singleton].
    intros x Hx ->%list_elem_of_singleton. done.
Qed.

Lemma dict_set_set d k v v' : dict_set (dict_set d k v) k v' = dict_set d k v'.
Proof.
  induction d as [|[k' v0] d IH]; simpl; repeat case_decide; simpl;
    repeat case_decide; congruence.
Qed.

(** Assigning to a key that is already there commutes with assigning
    to another key: no position changes. *)
Lemma dict_set_comm_present d k v k2 v2 :
  k ∈ dict_keys d → k ≠ k2 →
  dict_set (dict_set d k2 v2) k v = dict_set (dict_set d k v) k2 v2.
Proof.
  induction d as [|[k' v'] d IH]; simpl.
  - by intros ?%elem_of_nil.
  - intros Hin Hne. repeat (case_decide; simpl); subst; try congruence.
    f_equal. apply IH; [|done].
    apply elem_of_cons in Hin as [?|?]; congruence.
Qed.

Lemma dict_update_nil d : dict_update d [] = d.
Proof. done. Qed.

Lemma dict_update_cons d k v m :
  dict_update d ((k, v) :: m) = dict_update (dict_set d k v) m.
Proof. done. Qed.

Lemma dict_update_keys_mono d m k :
  k ∈ dict_keys d → k ∈ dict_keys (dict_update d m).
Proof.
  revert d. induction m as [|[k' v'] m IH]; intros d Hin; [done|].
  rewrite dict_update_cons. apply IH. by apply dict_keys_set_mono.
Qed.

Lemma dict_update_set_present d m k v :
  k ∈ dict_keys d → k ∉ dict_keys m →
  dict_set (dict_update d m) k v = dict_update (dict_set d k v) m.
Proof.
  revert d. induction m as [|[k' v'] m IH]; intros d Hin Hout; [done|].
  apply not_elem_of_cons in Hout as [Hne Hout]. simpl in Hne.
  rewrite !dict_update_cons, IH by auto using dict_keys_set_mono.
  f_equal. by apply dict_set_comm_present.
Qed.

(** Updating with [m] after [m[k] = v] is updating with [m] and then
    assigning [k]. *)
Lemma dict_update_set d m k v :
  NoDup (dict_keys m) →
  dict_update d (dict_set m k v) = dict_set (dict_update d m) k v.
Proof.
  revert d. induction m as [|[k' v'] m IH]; intros d Hnd; [done|].
  apply NoDup_cons in Hnd as [Hout Hnd]. simpl.
  case_decide; subst.
  - rewrite !dict_update_cons.
    rewrite dict_update_set_present by auto using dict_keys_set_elem.
    by rewrite dict_set_set.
  - rewrite !dict_update_cons. by apply IH.
Qed.
End dict.

(** *** What one incident contributes *)

(** The outcome of the first half of the loop body does not depend on
    the dictionary built so far. *)
Lemma extract_ip_cases incident :
  (∃ e, ∀ d, extract_ip incident d = Raise e) ∨
  (∀ d, extract_ip incident d = Ok d) ∨
  (∃ ip reputation, ∀ d, extract_ip incident d = Ok (dict_set d ip reputation)).
Proof.
  unfold extract_ip.
  destruct (has_nested incident "dominant_attack_ip" "ip") as [[]|e]; simpl;
    [|by right; left|by left; exists e].
  destruct (py_getitem incident "dominant_attack_ip") as [nested|e]; simpl;
    [|by left; exists e].
  destruct (py_getitem nested "ip") as [ip|e]; simpl; [|by left; exists e].
  destruct (nonblank_str ip) as [[s|]|e]; simpl;
    [|by right; left|by left; exists e].
  destruct (py_get nested "reputation" (JArr [])) as [rep|e]; simpl;
    [|by left; exists e].
  right; right. by exists s, rep.
Qed.

Lemma extract_domain_cases incident :
  (∃ e, ∀ s, extract_domain incident s = Raise e) ∨
  (∀ s, extract_domain incident s = Ok s) ∨
  (∃ domain, ∀ s, extract_domain incident s = Ok (s ∪ {[domain]})).
Proof.
  unfold extract_domain.
  destruct (has_nested incident "dominant_attacked_host" "value") as [[]|e];
    simpl; [|by right; left|by left; exists e].
  destruct (py_getitem incident "dominant_attacked_host") as [nested|e]; simpl;
    [|by left; exists e].
  destruct (py_getitem nested "value") as [x|e]; simpl; [|by left; exists e].
  destruct (nonblank_str x) as [[s|]|e]; simpl;
    [|by right; left|by left; exists e].
  right; right. by exists s.
Qed.

Lemma extract_loop_app l1 l2 acc :
  extract_loop (l1 ++ l2) acc = acc' ← extract_loop l1 acc; extract_loop l2 acc'.
Proof.
  revert acc. induction l1 as [|i l1 IH]; intros acc; simpl; [done|].
  destruct (extract_step acc i) as [acc'|e]; simpl; [apply IH|done].
Qed.

Lemma extract_step_NoDup acc acc' incident :
  NoDup (dict_keys acc.1) → extract_step acc incident = Ok acc' →
  NoDup (dict_keys acc'.1).
Proof.
  intros Hnd. unfold extract_step.
  destruct (extract_ip_cases incident) as [[e He]|[He|(ip & rep & He)]];
    rewrite He; simpl; [done| |];
    (destruct (extract_domain incident acc.2); simpl; [|done]);
    intros [= <-]; simpl; auto using dict_set_NoDup.
Qed.

Lemma extract_loop_NoDup l acc acc' :
  NoDup (dict_keys acc.1) → extract_loop l acc = Ok acc' →
  NoDup (dict_keys acc'.1).
Proof.
  revert acc. induction l as [|i l IH]; intros acc Hnd; simpl.
  - by intros [= <-].
  - destruct (extract_step acc i) as [acc1|e] eqn:Hstep; simpl; [|done].
    eauto using extract_step_NoDup.
Qed.

(** One turn of the loop on an accumulator is the turn on the empty
    accumulator, merged into it. *)
Lemma extract_step_merge acc incident :
  extract_step acc incident =
  '(m, t) ← extract_step ([], ∅) incident;
  Ok (dict_update acc.1 m, acc.2 ∪ t).
Proof.
  unfold extract_step. simpl.
  destruct (extract_ip_cases incident) as [[e He]|[He|(ip & rep & He)]];
    rewrite !He; simpl; [done| |];
    (destruct (extract_domain_cases incident) as [[e Hd]|[Hd|(dom & Hd)]];
     rewrite !Hd; simpl; [done| |]);
    f_equal; f_equal; set_solver.
Qed.

Lemma extract_loop_merge l acc :
  extract_loop l acc =
  '(m, t) ← extract_loop l ([], ∅);
  Ok (dict_update acc.1 m, acc.2 ∪ t).
Proof.
  induction l as [|i l IH] using rev_ind; simpl.
  - destruct acc as [d s]; simpl. f_equal. f_equal. set_solver.
  - rewrite !extract_loop_app, IH. simpl.
    destruct (extract_loop l ([], ∅)) as [[m t]|e] eqn:Hl; simpl; [|done].
    assert (NoDup (dict_keys m)) as Hnd.
    { apply (extract_loop_NoDup l ([], ∅) (m, t)); [constructor|done]. }
    rewrite (extract_step_merge (m, t)), (extract_step_merge (_, _)). simpl.
    unfold extract_step. simpl.
    destruct (extract_ip_cases i) as [[e He]|[He|(ip & rep & He)]];
      rewrite !He; simpl; [done| |];
      (destruct (extract_domain_cases i) as [[e Hd]|[Hd|(dom & Hd)]];
       rewrite !Hd; simpl; [done| |]);
      f_equal; f_equal;
      rewrite ?dict_update_nil, ?dict_update_cons, ?dict_update_nil,
              ?dict_update_set by done; try done; set_solver.
Qed.

(** C3. Extraction is compositional over concatenation: extracting
    [A ++ B] in one pass gives what extracting [A] and [B] separately and
    merging gives, where the IP dictionaries are merged with
    [dict.update] (entries of [B] overwrite entries of [A]) and the
    domain sets by union; an exception raised in either part is the
    exception of the whole. *)
Theorem extract_concat (A B : list json) :
  extract_data_from_incidents (JArr (A ++ B)) =
  '(ip_a, domains_a) ← extract_data_from_incidents (JArr A);
  '(ip_b, domains_b) ← extract_data_from_incidents (JArr B);
  Ok (dict_update ip_a ip_b, domains_a ∪ domains_b).
Proof.
  unfold extract_data_from_incidents. simpl.
  rewrite extract_loop_app.
  destruct (extract_loop A ([], ∅)) as [[ip_a domains_a]|e]; simpl; [|done].
  by rewrite extract_loop_merge.
Qed.

(** *** Well-formed incidents never raise *)

Lemma has_nested_obj kvs key field :
  has_nested (JObj kvs) key field =
  match dict_get kvs key with
  | None => Ok false
  | Some nested => py_contains field nested
  end.
Proof. unfold has_nested. simpl. by destruct (dict_get kvs key). Qed.

Lemma extract_ip_well_formed kvs d :
  nested_ok kvs "dominant_attack_ip" "ip" →
  ∃ d', extract_ip (JObj kvs) d = Ok d'.
Proof.
  unfold nested_ok, extract_ip. rewrite has_nested_obj. simpl.
  destruct (dict_get kvs "dominant_attack_ip") as [[| | | | |nested]|];
    simpl; try done; [|by eauto].
  destruct (dict_get nested "ip") as [x|] eqn:Hip; simpl; [|by eauto].
  destruct x as [|b|n|s|l|o]; simpl; unfold nonblank_str; simpl;
    try (intros ->%negb_prop_elim%Is_true_false_1 || intros _); simpl; eauto.
  all: try (destruct (negb _); simpl; [|by eauto]).
  all: try (destruct (nonblank s); simpl; by eauto).
  all: try (intros H; destruct l; simpl in *; by eauto).
  all: try (intros H; destruct o; simpl in *; by eauto).
Qed.

Lemma extract_domain_well_formed kvs s :
  nested_ok kvs "dominant_attacked_host" "value" →
  ∃ s', extract_domain (JObj kvs) s = Ok s'.
Proof.
  unfold nested_ok, extract_domain. rewrite has_nested_obj. simpl.
  destruct (dict_get kvs "dominant_attacked_host") as [[| | | | |nested]|];
    simpl; try done; [|by eauto].
  destruct (dict_get nested "value") as [x|] eqn:Hip; simpl; [|by eauto].
  destruct x as [|b|n|t|l|o]; simpl; unfold nonblank_str; simpl;
    try (intros ->%negb_prop_elim%Is_true_false_1 || intros _); simpl; eauto.
  all: try (destruct (negb _); simpl; [|by eauto]).
  all: try (destruct (nonblank t); simpl; by eauto).
  all: try (intros H; destruct l; simpl in *; by eauto).
  all: try (intros H; destruct o; simpl in *; by eauto).
Qed.

Lemma extract_step_well_formed incident acc :
  well_formed_incident incident → ∃ acc', extract_step acc incident = Ok acc'.
Proof.
  destruct incident as [| | | | |kvs]; simpl; try done.
  intros [Hip Hdom]%andb_prop_elim. unfold extract_step.
  destruct (extract_ip_well_formed kvs acc.1 Hip) as [d' ->].
  destruct (extract_domain_well_formed kvs acc.2 Hdom) as [s' ->].
  simpl. eauto.
Qed.

Lemma extract_loop_well_formed l acc :
  Forall (λ i, well_formed_incident i) l → ∃ acc', extract_loop l acc = Ok acc'.
Proof.
  intros Hl. revert acc. induction Hl as [|i l Hi Hl IH]; intros acc; simpl.
  - eauto.
  - destruct (extract_step_well_formed i acc Hi) as [acc' ->]. simpl. apply IH.
Qed.

(** *** Which key an incident assigns *)

Lemma nonblank_nonempty s : nonblank s → is_empty s = false.
Proof. by destruct s. Qed.

Lemma extract_ip_inv incident d d' :
  extract_ip incident d = Ok d' →
  d' = d ∨ ∃ ip reputation,
    attack_ip incident = Some ip ∧ d' = dict_set d ip reputation.
Proof.
  unfold extract_ip, has_nested.
  destruct incident as [| | |s|l|kvs]; simpl; try done.
  - destruct (substring_of _ s); simpl; [done|]. intros [= <-]. by left.
  - destruct (existsb _ l); simpl; [done|]. intros [= <-]. by left.
  - destruct (dict_get kvs "dominant_attack_ip") as [nested|] eqn:Hn; simpl;
      [|intros [= <-]; by left].
    rewrite ?bool_decide_true by eauto. simpl.
    destruct nested as [| | |s|l|n]; simpl; try done.
    + destruct (substring_of _ s); simpl; [done|]. intros [= <-]. by left.
    + destruct (existsb _ l); simpl; [done|]. intros [= <-]. by left.
    + destruct (dict_get n "ip") as [x|] eqn:Hx; simpl;
        [|intros [= <-]; by left].
      rewrite ?bool_decide_true by eauto. simpl.
      unfold nonblank_str.
      destruct (truthy x) eqn:Ht; simpl; [|intros [= <-]; by left].
      destruct x as [| | |s| |]; simpl; try done.
      destruct (nonblank s); simpl; intros [= <-]; [|by left].
      right. eauto.
Qed.

Lemma extract_step_other_key acc acc' incident ip :
  extract_step acc incident = Ok acc' → attack_ip incident ≠ Some ip →
  dict_get acc'.1 ip = dict_get acc.1 ip.
Proof.
  unfold extract_step. intros Hstep Hne.
  destruct (extract_ip incident acc.1) as [d'|] eqn:Hip; simpl in *; [|done].
  destruct (extract_domain incident acc.2); simpl in *; [|done].
  injection Hstep as <-. simpl.
  apply extract_ip_inv in Hip as [->|(k & rep & Hk & ->)]; [done|].
  apply dict_get_set_ne. congruence.
Qed.

Lemma extract_loop_other_key l acc acc' ip :
  extract_loop l acc = Ok acc' → Forall (λ j, attack_ip j ≠ Some ip) l →
  dict_get acc'.1 ip = dict_get acc.1 ip.
Proof.
  intros Hloop Hl. revert acc Hloop.
  induction Hl as [|j l Hj Hl IH]; intros acc; simpl.
  - by intros [= <-].
  - destruct (extract_step acc j) as [acc1|] eqn:Hstep; simpl; [|done].
    intros Hloop. rewrite (IH _ Hloop). eauto using extract_step_other_key.
Qed.

Lemma extract_ip_records kvs nested ip d :
  dict_get kvs "dominant_attack_ip" = Some (JObj nested) →
  dict_get nested "ip" = Some (JStr ip) →
  nonblank ip →
  extract_ip (JObj kvs) d =
  Ok (dict_set d ip (default (JArr []) (dict_get nested "reputation"))).
Proof.
  intros Hn Hip Hnb. unfold extract_ip. rewrite has_nested_obj. simpl.
  rewrite !Hn. simpl. rewrite !Hip, bool_decide_true by eauto. simpl.
  unfold nonblank_str.
  assert (truthy (JStr ip) = true) as ->.
  { simpl. by rewrite (nonblank_nonempty _ Hnb). }
  simpl. apply Is_true_true in Hnb. by rewrite Hnb.
Qed.

(** C9. Within one pass the latest incident wins: when two well-formed
    incidents carry the same non-blank nested [ip] and no incident after
    the later one carries it, the extracted dictionary maps that IP to
    the reputation of the later incident, which is the empty list when
    the later incident has no [reputation] field; what the earlier
    incident carried is overwritten. *)
Theorem extract_latest_wins (l1 l2 l3 : list json) (earlier : json)
    (kvs nested : pydict json) (ip : string) :
  Forall (λ i, well_formed_incident i)
         (l1 ++ earlier :: l2 ++ JObj kvs :: l3) →
  attack_ip earlier = Some ip →
  dict_get kvs "dominant_attack_ip" = Some (JObj nested) →
  dict_get nested "ip" = Some (JStr ip) →
  nonblank ip →
  Forall (λ j, attack_ip j ≠ Some ip) l3 →
  ∃ ip_data domains,
    extract_data_from_incidents (JArr (l1 ++ earlier :: l2 ++ JObj kvs :: l3))
      = Ok (ip_data, domains) ∧
    dict_get ip_data ip = Some (default (JArr []) (dict_get nested "reputation")).
Proof.
  intros Hwf _ Hn Hip Hnb Hl3.
  unfold extract_data_from_incidents. simpl.
  replace (l1 ++ earlier :: l2 ++ JObj kvs :: l3)
    with ((l1 ++ earlier :: l2) ++ JObj kvs :: l3) in *
    by (by rewrite <- !app_assoc).
  apply Forall_app in Hwf as [Hpre Hwf].
  apply Forall_cons in Hwf as [Hlater Hpost].
  rewrite (extract_loop_app (l1 ++ earlier :: l2)).
  destruct (extract_loop_well_formed _ ([], ∅) Hpre) as [[d s] ->]. simpl.
  destruct (extract_step_well_formed _ (d, s) Hlater) as [[d1 s1] Hstep].
  rewrite Hstep. simpl.
  destruct (extract_loop_well_formed _ (d1, s1) Hpost) as [[d2 s2] Hloop].
  rewrite Hloop. exists d2, s2. split; [done|].
  pose proof (extract_loop_other_key _ _ _ ip Hloop Hl3) as Hkeep.
  simpl in Hkeep. rewrite Hkeep.
  unfold extract_step in Hstep. simpl in Hstep.
  rewrite (extract_ip_records kvs nested ip d Hn Hip Hnb) in Hstep.
  simpl in Hstep. destruct (extract_domain _ s); simpl in Hstep; [|done].
  injection Hstep as <- _. apply dict_get_set_eq.
Qed.

Lemma extract_latest_wins_witness :
  ∃ ip_data domains,
    extract_data_from_incidents
      (JArr [JObj [("dominant_attack_ip",
                    JObj [("ip", JStr "1.2.3.4"); ("reputation", JArr [JStr "bot"])])];
             JObj [("dominant_attack_ip", JObj [("ip", JStr "1.2.3.4")])]])
      = Ok (ip_data, domains) ∧
    dict_get ip_data "1.2.3.4" = Some (JArr []).
Proof.
  apply (extract_latest_wins [] [] []
           (JObj [("dominant_attack_ip",
                   JObj [("ip", JStr "1.2.3.4"); ("reputation", JArr [JStr "bot"])])])
           [("dominant_attack_ip", JObj [("ip", JStr "1.2.3.4")])]
           [("ip", JStr "1.2.3.4")] "1.2.3.4").
  - repeat constructor.
  - reflexivity.
  - reflexivity.
  - reflexivity.
  - exact I.
  - constructor.
Defined.

(** *** Nested fields that are not dictionaries *)

Lemma py_contains_scalar k x : is_scalar x → py_contains k x = Raise TypeError.
Proof. by destruct x. Qed.

Lemma extract_ip_scalar kvs x d :
  dict_get kvs "dominant_attack_ip" = Some x → is_scalar x →
  extract_ip (JObj kvs) d = Raise TypeError.
Proof.
  intros Hx Hs. unfold extract_ip. rewrite has_nested_obj, Hx.
  by rewrite py_contains_scalar.
Qed.

Lemma extract_domain_scalar kvs x s :
  dict_get kvs "dominant_attacked_host" = Some x → is_scalar x →
  extract_domain (JObj kvs) s = Raise TypeError.
Proof.
  intros Hx Hs. unfold extract_domain. rewrite has_nested_obj, Hx.
  by rewrite py_contains_scalar.
Qed.

(** A nested value that is a str is searched for the field name, and the
    record is skipped when the name does not occur in it: no exception,
    although the nested field is not a dictionary. *)
Lemma extract_str_nested_skipped :
  extract_data_from_incidents
    (JArr [JObj [("dominant_attack_ip", JStr "10.0.0.1");
                 ("dominant_attacked_host", JStr "example.com")]])
  = Ok ([], ∅).
Proof. reflexivity. Qed.

(** C10 (amended). Extraction tolerates absent fields but is not total:
    when [dominant_attack_ip] or [dominant_attacked_host] is present with
    a number, a boolean or null, the membership test on the nested value
    raises [TypeError] and the whole extraction raises with it instead of
    skipping the record.  Extraction returns without raising whenever
    every incident is a dict whose present nested fields are dicts with a
    str or false [ip] / [value]. *)
Theorem extract_totality_limit :
  (∀ (before after : list json) (kvs : pydict json) (x : json),
     Forall (λ i, well_formed_incident i) before →
     dict_get kvs "dominant_attack_ip" = Some x → is_scalar x →
     extract_data_from_incidents (JArr (before ++ JObj kvs :: after))
       = Raise TypeError) ∧
  (∀ (before after : list json) (kvs : pydict json) (x : json),
     Forall (λ i, well_formed_incident i) before →
     nested_ok kvs "dominant_attack_ip" "ip" →
     dict_get kvs "dominant_attacked_host" = Some x → is_scalar x →
     extract_data_from_incidents (JArr (before ++ JObj kvs :: after))
       = Raise TypeError) ∧
  (∀ incidents : list json,
     Forall (λ i, well_formed_incident i) incidents →
     ∃ ip_data domains,
       extract_data_from_incidents (JArr incidents) = Ok (ip_data, domains)).
Proof.
  unfold extract_data_from_incidents. simpl. split_and!.
  - intros before after kvs x Hwf Hx Hs. rewrite extract_loop_app.
    destruct (extract_loop_well_formed _ ([], ∅) Hwf) as [acc ->]. simpl.
    unfold extract_step. by rewrite (extract_ip_scalar kvs x).
  - intros before after kvs x Hwf Hok Hx Hs. rewrite extract_loop_app.
    destruct (extract_loop_well_formed _ ([], ∅) Hwf) as [acc ->]. simpl.
    unfold extract_step.
    destruct (extract_ip_well_formed kvs acc.1 Hok) as [d' ->]. simpl.
    by rewrite (extract_domain_scalar kvs x).
  - intros incidents Hwf.
    destruct (extract_loop_well_formed _ ([], ∅) Hwf) as [[d s] ->]. eauto.
Qed.

Lemma extract_totality_limit_witness :
  extract_data_from_incidents
    (JArr [JObj []; JObj [("dominant_attack_ip", JNum 7)]]) = Raise TypeError ∧
  extract_data_from_incidents
    (JArr [JObj [("dominant_attacked_host", JNull)]]) = Raise TypeError ∧
  ∃ ip_data domains,
    extract_data_from_incidents
      (JArr [JObj [("dominant_attack_ip", JObj [("ip", JStr "  ")])];
             JObj [("dominant_attacked_host", JObj [])]])
    = Ok (ip_data, domains).
Proof.
  destruct extract_totality_limit as (Hip & Hhost & Htotal).
  split_and!.
  - apply (Hip [JObj []] [] [("dominant_attack_ip", JNum 7)] (JNum 7)).
    + repeat constructor.
    + reflexivity.
    + exact I.
  - apply (Hhost [] [] [("dominant_attacked_host", JNull)] JNull).
    + constructor.
    + exact I.
    + reflexivity.
    + exact I.
  - apply Htotal. repeat constructor.
Defined.

(** ** Paginated fetcher *)

Section fetch.
Context (w : world) (caid : pyval) (since_timestamp : option Z) (page_size : Z).

Lemma page_requests_shift (n a : nat) (page : Z) :
  (λ i, page_request w caid since_timestamp page_size (page + 1 + Z.of_nat i))
    <$> seq a n =
  (λ i, page_request w caid since_timestamp page_size (page + Z.of_nat i))
    <$> seq (S a) n.
Proof.
  revert a. induction n as [|n IH]; intros a; [done|].
  rewrite <- !cons_seq, !fmap_cons, IH. f_equal. f_equal. lia.
Qed.

Lemma fetch_loop_pages (full : list (list json)) (last : option (list json)) :
  ∀ (fuel : nat) (page : Z) (acc : list json),
    (∀ i items, full !! i = Some items →
       full_page w caid since_timestamp page_size (page + Z.of_nat i) items) →
    last_page w caid since_timestamp page_size
              (page + Z.of_nat (length full)) last →
    (length full < fuel)%nat →
    fetch_loop w caid since_timestamp page_size fuel page acc =
    ((λ i, page_request w caid since_timestamp page_size (page + Z.of_nat i))
       <$> seq 0 (S (length full)),
     Some (Ok (acc ++ concat full ++ default [] last))).
Proof.
  induction full as [|items full IH]; intros fuel page acc Hfull Hlast Hfuel;
    (destruct fuel as [|fuel]; [simpl in Hfuel; lia|]); simpl.
  - simpl in Hlast. rewrite Z.add_0_r in *.
    destruct last as [items|]; simpl in Hlast.
    + destruct Hlast as (Hst & (body & Hbody & Hitems) & Hlen).
      rewrite Hst. simpl. unfold response_json. rewrite Hbody. simpl.
      rewrite Hitems. apply Z.ltb_lt in Hlen. by rewrite Hlen.
    + unfold failed_page in Hlast. apply Z.eqb_neq in Hlast.
      rewrite Hlast. by rewrite !app_nil_r.
  - destruct (Hfull 0%nat items eq_refl) as (Hst & (body & Hbody & Hitems) & Hlen).
    rewrite Z.add_0_r in *. rewrite Hst. simpl.
    unfold response_json. rewrite Hbody. simpl. rewrite Hitems.
    apply Z.ltb_ge in Hlen. rewrite Hlen.
    rewrite (IH fuel (page + 1) (acc ++ items)).
    + rewrite <- !app_assoc. f_equal. f_equal.
      apply (page_requests_shift (S (length full)) 0).
    + intros i items' Hi.
      replace (page + 1 + Z.of_nat i) with (page + Z.of_nat (S i)) by lia.
      by apply Hfull.
    + replace (page + 1 + Z.of_nat (length full))
        with (page + Z.of_nat (length (items :: full))) by (simpl; lia).
      done.
    + simpl in Hfuel. lia.
Qed.

(** C4. Pagination contract.  When pages [1 .. n] answer 200 with at
    least [page_size] incidents each and page [n + 1] either answers 200
    with fewer than [page_size] incidents (none at all included) or
    answers with another status, then, given more than [n] turns, the
    fetch sends exactly the requests for pages [1 .. n + 1] and returns,
    without raising, the ordered concatenation of the pages received:
    all of them when the last page is short, the accumulated [n] pages
    when the last page failed. *)
Theorem pagination_contract (full : list (list json))
    (last : option (list json)) (fuel : nat) :
  (∀ i items, full !! i = Some items →
     full_page w caid since_timestamp page_size (1 + Z.of_nat i) items) →
  last_page w caid since_timestamp page_size (1 + Z.of_nat (length full)) last →
  (length full < fuel)%nat →
  fetch_all_incidents_with_pagination w caid since_timestamp page_size fuel =
  ((λ i, page_request w caid since_timestamp page_size (1 + Z.of_nat i))
     <$> seq 0 (S (length full)),
   Some (Ok (concat full ++ default [] last))).
Proof.
  intros Hfull Hlast Hfuel. unfold fetch_all_incidents_with_pagination.
  by rewrite (fetch_loop_pages full last fuel 1 []).
Qed.

End fetch.

(** ** Strings *)

Lemma append_nil_l s : EmptyString +:+ s = s.
Proof. reflexivity. Qed.

Lemma append_cons c s t : String c s +:+ t = String c (s +:+ t).
Proof. reflexivity. Qed.

Lemma append_nil_r s : s +:+ EmptyString = s.
Proof. induction s as [|c s IH]; [done|]. by rewrite append_cons, IH. Qed.

Lemma append_assoc s t u : (s +:+ t) +:+ u = s +:+ (t +:+ u).
Proof. induction s as [|c s IH]; [done|]. by rewrite !append_cons, IH. Qed.

Lemma is_empty_true s : is_empty s = true → s = EmptyString.
Proof. by destruct s. Qed.

Lemma lstrip_cases s :
  lstrip s = EmptyString ∨
  ∃ c r, lstrip s = String c r ∧ py_isspace c = false.
Proof.
  induction s as [|c s IH]; simpl; [by left|].
  destruct (py_isspace c) eqn:Hc; [done|]. right. eauto.
Qed.

Lemma rstrip_cons_nonspace c s :
  py_isspace c = false → rstrip (String c s) = String c (rstrip s).
Proof. intros Hc. simpl. by rewrite Hc. Qed.

Lemma rstrip_idemp s : rstrip (rstrip s) = rstrip s.
Proof.
  induction s as [|c s IH]; simpl; [done|].
  destruct (py_isspace c && is_empty (rstrip s)) eqn:Hcond; [done|].
  simpl. by rewrite IH, Hcond.
Qed.

Lemma lstrip_nonspace c s :
  py_isspace c = false → lstrip (String c s) = String c s.
Proof. intros Hc. simpl. by rewrite Hc. Qed.

Lemma strip_idemp s : strip (strip s) = strip s.
Proof.
  unfold strip. destruct (lstrip_cases s) as [->|(c & r & -> & Hc)]; [done|].
  rewrite rstrip_cons_nonspace, lstrip_nonspace, rstrip_cons_nonspace by done.
  by rewrite rstrip_idemp.
Qed.

Lemma all_chars_lstrip P s : all_chars P s → all_chars P (lstrip s).
Proof.
  induction s as [|c s IH]; simpl; [done|].
  intros [Hc Hs]%andb_prop_elim. destruct (py_isspace c); simpl; [auto|].
  apply andb_prop_intro. auto.
Qed.

Lemma all_chars_rstrip P s : all_chars P s → all_chars P (rstrip s).
Proof.
  induction s as [|c s IH]; simpl; [done|].
  intros [Hc Hs]%andb_prop_elim.
  destruct (py_isspace c && is_empty (rstrip s)); simpl; [done|].
  apply andb_prop_intro. auto.
Qed.

Lemma all_chars_strip P s : all_chars P s → all_chars P (strip s).
Proof. intros. by apply all_chars_rstrip, all_chars_lstrip. Qed.

Lemma all_chars_app P s t :
  all_chars P (s +:+ t) = all_chars P s && all_chars P t.
Proof.
  induction s as [|c s IH]; [done|].
  rewrite append_cons. simpl. by rewrite IH, andb_assoc.
Qed.

Lemma all_chars_impl (P Q : ascii → bool) s :
  (∀ c, P c → Q c) → all_chars P s → all_chars Q s.
Proof.
  intros HPQ. induction s as [|c s IH]; simpl; [done|].
  intros [Hc Hs]%andb_prop_elim. apply andb_prop_intro. auto.
Qed.

(** A string without whitespace is left alone by [strip]. *)
Lemma rstrip_no_space s :
  all_chars (λ c, negb (py_isspace c)) s → rstrip s = s.
Proof.
  induction s as [|c s IH]; simpl; [done|].
  intros [Hc Hs]%andb_prop_elim. apply negb_prop_elim, Is_true_false_1 in Hc.
  rewrite Hc. simpl. by rewrite IH.
Qed.

Lemma lstrip_no_space s :
  all_chars (λ c, negb (py_isspace c)) s → lstrip s = s.
Proof.
  destruct s as [|c s]; simpl; [done|].
  intros [Hc Hs]%andb_prop_elim. apply negb_prop_elim, Is_true_false_1 in Hc.
  by rewrite Hc.
Qed.

Lemma strip_no_space s :
  all_chars (λ c, negb (py_isspace c)) s → strip s = s.
Proof.
  intros Hs. unfold strip. rewrite lstrip_no_space by done.
  by apply rstrip_no_space.
Qed.

(** Appending one whitespace character does not change [strip]. *)
Lemma rstrip_app_space s c :
  py_isspace c → rstrip (s +:+ String c EmptyString) = rstrip s.
Proof.
  intros Hc%Is_true_true. induction s as [|a s IH].
  - rewrite append_nil_l. simpl. by rewrite Hc.
  - rewrite append_cons. simpl. by rewrite IH.
Qed.

Lemma lstrip_app_space s c :
  py_isspace c →
  lstrip (s +:+ String c EmptyString) =
  if is_empty (lstrip s) then EmptyString else lstrip s +:+ String c EmptyString.
Proof.
  intros Hc%Is_true_true. induction s as [|a s IH].
  - rewrite append_nil_l. simpl. by rewrite Hc.
  - rewrite append_cons. simpl. destruct (py_isspace a); [done|].
    by rewrite append_cons.
Qed.

Lemma strip_app_space s c :
  py_isspace c → strip (s +:+ String c EmptyString) = strip s.
Proof.
  intros Hc. unfold strip. rewrite lstrip_app_space by done.
  destruct (is_empty (lstrip s)) eqn:He.
  - apply is_empty_true in He. by rewrite He.
  - by apply rstrip_app_space.
Qed.

Lemma strip_app_newline s : strip (s +:+ newline) = strip s.
Proof. by apply strip_app_space. Qed.

(** ** Integer literals: [int] and [str] *)

Lemma is_digit_cases c :
  is_digit c →
  negb (py_isspace c) ∧ negb (is_line_break c) ∧
  c ≠ "_"%char ∧ c ≠ "-"%char ∧ c ≠ "+"%char.
Proof. destruct c as [[] [] [] [] [] [] [] []]; by vm_compute. Qed.

Lemma parse_digits_two c c' s :
  parse_digits (String c (String c' s)) =
  match digit_of c with
  | None => None
  | Some d =>
      if decide (c' = "_"%char) then d <$> parse_digits s
      else d <$> parse_digits (String c' s)
  end.
Proof. reflexivity. Qed.

Lemma string_of_uint_head d :
  d ≠ Nil →
  ∃ c r, NilEmpty.string_of_uint d = String c r ∧ is_digit c.
Proof. destruct d; intros Hd; try done; simpl; eauto. Qed.

Lemma all_chars_string_of_uint d :
  all_chars is_digit (NilEmpty.string_of_uint d).
Proof. induction d; simpl; done. Qed.

Lemma parse_digits_string_of_uint d :
  d ≠ Nil → parse_digits (NilEmpty.string_of_uint d) = Some d.
Proof.
  induction d as [|d IH|d IH|d IH|d IH|d IH|d IH|d IH|d IH|d IH|d IH];
    intros Hnil; [done|..]; clear Hnil;
    (assert (d = Nil ∨ d ≠ Nil) as [->|Hd]
       by (destruct d; [by left|by right..]); [reflexivity|]);
    cbn [NilEmpty.string_of_uint];
    destruct (string_of_uint_head d Hd) as (c & r & Hhead & Hc);
    specialize (IH Hd); rewrite Hhead in *;
    rewrite parse_digits_two;
    match goal with
    | |- context [digit_of ?a] =>
        let v := eval vm_compute in (digit_of a) in change (digit_of a) with v
    end; cbv iota;
    apply is_digit_cases in Hc as (_ & _ & Hc & _);
    rewrite decide_False by done; by rewrite IH.
Qed.

Lemma all_chars_py_str n :
  all_chars (λ c, is_digit c || bool_decide (c = "-"%char)) (py_str n).
Proof.
  assert (∀ d, all_chars (λ c, is_digit c || bool_decide (c = "-"%char))
                 (NilZero.string_of_uint d)) as Hd.
  { intros d. unfold NilZero.string_of_uint.
    destruct d; try done;
      apply (all_chars_impl is_digit), (all_chars_string_of_uint (_ _));
      intros c Hc; apply orb_prop_intro; by left. }
  unfold py_str. destruct n; simpl; [done|apply Hd..].
Qed.

Lemma strip_py_str n : strip (py_str n) = py_str n.
Proof.
  apply strip_no_space. eapply all_chars_impl, all_chars_py_str.
  intros c [Hc| ->%bool_decide_unpack]%orb_prop_elim; [|done].
  by apply is_digit_cases in Hc as (? & _).
Qed.

Lemma py_int_uint d :
  d ≠ Nil → py_int (NilEmpty.string_of_uint d) = Ok (Z.of_uint d).
Proof.
  intros Hd. unfold py_int.
  rewrite strip_no_space.
  2:{ eapply all_chars_impl, all_chars_string_of_uint.
      intros c Hc. by apply is_digit_cases in Hc as (? & _). }
  pose proof (parse_digits_string_of_uint d Hd) as Hparse.
  destruct (string_of_uint_head d Hd) as (c & r & Hhead & Hc).
  rewrite Hhead in *.
  apply is_digit_cases in Hc as (_ & _ & _ & Hminus & Hplus).
  rewrite !decide_False by done. by rewrite Hparse.
Qed.

(** What [str] prints, [int] reads back. *)
Lemma py_int_py_str n : py_int (py_str n) = Ok n.
Proof.
  unfold py_str. destruct n as [|p|p]; simpl; [done| |].
  - pose proof (Unsigned.to_uint_nonnil p) as Hnn.
    unfold NilZero.string_of_uint.
    replace (match Pos.to_uint p with Nil => String "0"%char EmptyString
             | _ => NilEmpty.string_of_uint (Pos.to_uint p) end)
      with (NilEmpty.string_of_uint (Pos.to_uint p))
      by (by destruct (Pos.to_uint p)).
    rewrite py_int_uint by done. f_equal.
    apply (DecimalZ.of_to (Z.pos p)).
  - pose proof (Unsigned.to_uint_nonnil p) as Hnn.
    unfold NilZero.string_of_uint.
    replace (match Pos.to_uint p with Nil => String "0"%char EmptyString
             | _ => NilEmpty.string_of_uint (Pos.to_uint p) end)
      with (NilEmpty.string_of_uint (Pos.to_uint p))
      by (by destruct (Pos.to_uint p)).
    unfold py_int.
    assert (strip (String "-"%char (NilEmpty.string_of_uint (Pos.to_uint p)))
            = String "-"%char (NilEmpty.string_of_uint (Pos.to_uint p))) as ->.
    { apply strip_no_space. simpl.
      eapply all_chars_impl, all_chars_string_of_uint.
      intros c Hc. by apply is_digit_cases in Hc as (? & _). }
    rewrite decide_True by done.
    rewrite parse_digits_string_of_uint by done. simpl. f_equal.
    apply (DecimalZ.of_to (Z.neg p)).
Qed.

Lemma universal_newlines_no_cr s :
  all_chars (λ c, negb (bool_decide (c = CR))) s → universal_newlines s = s.
Proof.
  induction s as [|c s IH]; [done|].
  intros [Hc Hs]%andb_prop_elim.
  apply negb_prop_elim in Hc. rewrite bool_decide_spec in Hc.
  cbn [universal_newlines]. rewrite decide_False by done. by rewrite IH.
Qed.

Lemma read_py_str n : strip (universal_newlines (py_str n)) = py_str n.
Proof.
  rewrite universal_newlines_no_cr; [apply strip_py_str|].
  eapply all_chars_impl, all_chars_py_str.
  intros c [Hc| ->%bool_decide_unpack]%orb_prop_elim; [|done].
  apply is_digit_cases in Hc as (_ & Hc & _).
  apply negb_prop_intro. intros Hcr%bool_decide_unpack.
  apply negb_prop_elim in Hc. apply Hc. unfold is_line_break.
  apply orb_prop_intro. right. by apply bool_decide_pack.
Qed.

Lemma is_digit_Some c : is_digit c ↔ is_Some (digit_of c).
Proof. unfold is_digit. destruct (digit_of c); split; by eauto || intros []. Qed.

Lemma digit_string_nonempty : ¬ digit_string EmptyString.
Proof. inversion 1. Qed.

Lemma parse_digits_sound (n : nat) :
  ∀ s, (String.length s ≤ n)%nat → is_Some (parse_digits s) → digit_string s.
Proof.
  induction n as [|n IH]; intros [|c s] Hlen; simpl in Hlen;
    try (by intros []); try lia.
  destruct s as [|c' s].
  - simpl. destruct (digit_of c) eqn:Hc; [|by intros []].
    intros _. apply digits_one, is_digit_Some. by rewrite Hc.
  - rewrite parse_digits_two.
    destruct (digit_of c) as [d|] eqn:Hc; [|by intros []].
    assert (is_digit c) as Hdig by (apply is_digit_Some; by rewrite Hc).
    simpl in Hlen. destruct (decide (c' = "_"%char)) as [->|Hne].
    + intros Hs%fmap_is_Some. apply digits_sep; [done|]. apply IH; [lia|done].
    + intros Hs%fmap_is_Some. apply digits_more; [done|].
      apply IH; [simpl; lia|done].
Qed.

Lemma parse_digits_complete s : digit_string s → is_Some (parse_digits s).
Proof.
  induction 1 as [c Hc|c s Hc Hs IH|c s Hc Hs IH].
  - apply is_digit_Some in Hc as [d Hd]. simpl. rewrite Hd. eauto.
  - apply is_digit_Some in Hc as [d Hd].
    destruct s as [|c' s]; [by apply digit_string_nonempty in Hs|].
    rewrite parse_digits_two, Hd.
    assert (is_digit c') as Hc' by (by inversion Hs).
    apply is_digit_cases in Hc' as (_ & _ & Hc' & _).
    rewrite decide_False by done. by apply fmap_is_Some.
  - apply is_digit_Some in Hc as [d Hd].
    rewrite parse_digits_two, Hd, decide_True by done. by apply fmap_is_Some.
Qed.

Lemma parse_digits_digit_string s : is_Some (parse_digits s) ↔ digit_string s.
Proof.
  split; [apply (parse_digits_sound (String.length s)); lia|].
  apply parse_digits_complete.
Qed.

Lemma digit_string_head c s : digit_string (String c s) → is_digit c.
Proof. by inversion 1. Qed.

(** [int] succeeds exactly on the integer literals. *)
Lemma py_int_literal s :
  match py_int s with
  | Ok _ => int_literal (strip s)
  | Raise e => e = ValueError ∧ ¬ int_literal (strip s)
  end.
Proof.
  unfold py_int. destruct (strip s) as [|c r].
  { split; [done|]. inversion 1 as [? Hd| |]. by apply digit_string_nonempty in Hd. }
  destruct (decide (c = "-"%char)) as [->|Hminus].
  { destruct (parse_digits r) as [d|] eqn:Hr; simpl.
    - apply literal_minus, parse_digits_digit_string. by rewrite Hr.
    - split; [done|]. inversion 1 as [? Hd| |? Hd]; subst.
      + by apply digit_string_head in Hd.
      + apply parse_digits_digit_string in Hd. rewrite Hr in Hd. by destruct Hd. }
  destruct (decide (c = "+"%char)) as [->|Hplus].
  { destruct (parse_digits r) as [d|] eqn:Hr; simpl.
    - apply literal_plus, parse_digits_digit_string. by rewrite Hr.
    - split; [done|]. inversion 1 as [? Hd|? Hd|]; subst.
      + by apply digit_string_head in Hd.
      + apply parse_digits_digit_string in Hd. rewrite Hr in Hd. by destruct Hd. }
  destruct (parse_digits (String c r)) as [d|] eqn:Hr; simpl.
  - apply literal_plain, parse_digits_digit_string. by rewrite Hr.
  - split; [done|]. inversion 1 as [? Hd| |]; subst; try done.
    apply parse_digits_digit_string in Hd. rewrite Hr in Hd. by destruct Hd.
Qed.

(** ** Watermark store *)

Lemma get_last_query_timestamp_unfold `{JsonText} (filename : option string) (σ : fs) :
  get_last_query_timestamp filename σ =
  let path :=
    match filename with
    | Some name => if is_empty name then default_timestamp_file else name
    | None => default_timestamp_file
    end in
  match σ !! path with
  | Some f =>
      (σ, n ← py_int (strip (universal_newlines (file_text f))); Ok (Some n))
  | None => (σ, Ok None)
  end.
Proof.
  unfold get_last_query_timestamp, mbind, io_bind, isfile, read_file, lift,
    mret, io_ret. simpl.
  set (path := match filename with Some _ => _ | None => _ end).
  destruct (σ !! path) as [f|] eqn:Hf; simpl; rewrite ?Hf; simpl; [|done].
  by destruct (py_int _).
Qed.

Lemma get_last_query_timestamp_absent `{JsonText} (σ : fs) :
  σ !! default_timestamp_file = None →
  get_last_query_timestamp None σ = (σ, Ok None).
Proof. intros Hnone. rewrite get_last_query_timestamp_unfold. cbv zeta. by rewrite Hnone. Qed.

Lemma get_last_query_timestamp_stored `{JsonText} (σ : fs) n :
  σ !! default_timestamp_file = Some (Text (py_str n)) →
  get_last_query_timestamp None σ = (σ, Ok (Some n)).
Proof.
  intros Hfile. rewrite get_last_query_timestamp_unfold. cbv zeta.
  rewrite Hfile. simpl. by rewrite read_py_str, py_int_py_str.
Qed.

(** *** The integer a literal denotes *)

Lemma digit_of_value c d (A : Decimal.uint) :
  digit_of c = Some d →
  Z.of_N (Unsigned.of_lu (d A)) =
  10 * Z.of_N (Unsigned.of_lu A) + digit_value c.
Proof.
  unfold digit_of, digit_value.
  destruct (N_of_ascii c) as [|p]; [done|].
  do 6 (destruct p as [p|p|]; try done);
    intros [= <-]; cbn [Unsigned.of_lu]; lia.
Qed.

Lemma Z_of_uint_of_lu d : Z.of_uint d = Z.of_N (Unsigned.of_lu (Decimal.rev d)).
Proof. unfold Z.of_uint. by rewrite Unsigned.of_uint_alt. Qed.

Lemma parse_digits_value (n : nat) :
  ∀ s, (String.length s ≤ n)%nat →
  ∀ A d, parse_digits s = Some d →
  digits_from (Z.of_N (Unsigned.of_lu A)) s
              (Z.of_N (Unsigned.of_lu (Decimal.revapp d A))).
Proof.
  induction n as [|n IH]; intros [|c s] Hlen A d; simpl in Hlen;
    try done; try lia.
  destruct s as [|c' s].
  - simpl. destruct (digit_of c) as [dc|] eqn:Hc; [|done].
    intros [= <-].
    assert (Decimal.revapp (dc Nil) A = dc A) as ->.
    { unfold digit_of in Hc. destruct (N_of_ascii c) as [|p]; [done|].
      do 6 (destruct p as [p|p|]; try done); by injection Hc as <-. }
    rewrite (digit_of_value c dc A Hc).
    apply value_one, is_digit_Some. by rewrite Hc.
  - rewrite parse_digits_two.
    destruct (digit_of c) as [dc|] eqn:Hc; [|done].
    assert (is_digit c) as Hdig by (apply is_digit_Some; by rewrite Hc).
    assert (∀ d', Decimal.revapp (dc d') A = Decimal.revapp d' (dc A)) as Hrev.
    { intros d'. unfold digit_of in Hc. destruct (N_of_ascii c) as [|p]; [done|].
      do 6 (destruct p as [p|p|]; try done); by injection Hc as <-. }
    simpl in Hlen. destruct (decide (c' = "_"%char)) as [->|Hne].
    + destruct (parse_digits s) as [d'|] eqn:Hs; [|done]. intros [= <-].
      rewrite Hrev. apply value_sep; [done|].
      rewrite <- (digit_of_value c dc A Hc). apply IH; [lia|done].
    + destruct (parse_digits (String c' s)) as [d'|] eqn:Hs; [|done].
      intros [= <-]. rewrite Hrev. apply value_more; [done|].
      rewrite <- (digit_of_value c dc A Hc). apply IH; [simpl; lia|done].
Qed.

Lemma digits_from_head acc c s n : digits_from acc (String c s) n → is_digit c.
Proof. by inversion 1. Qed.

Lemma digits_from_parse acc s n :
  digits_from acc s n →
  ∀ A, acc = Z.of_N (Unsigned.of_lu A) →
  ∃ d, parse_digits s = Some d ∧ n = Z.of_N (Unsigned.of_lu (Decimal.revapp d A)).
Proof.
  induction 1 as [acc c Hc|acc c s n Hc Hs IH|acc c s n Hc Hs IH];
    intros A ->; apply is_digit_Some in Hc as Hd; destruct Hd as [dc Hd].
  - exists (dc Nil). simpl. rewrite Hd. split; [done|].
    rewrite <- (digit_of_value c dc A Hd). f_equal. f_equal.
    unfold digit_of in Hd. destruct (N_of_ascii c) as [|p]; [done|].
    do 6 (destruct p as [p|p|]; try done); by injection Hd as <-.
  - destruct (IH (dc A)) as (d' & Hparse & ->);
      [by rewrite (digit_of_value c dc A Hd)|].
    exists (dc d').
    destruct s as [|c' s]; [by inversion Hs|].
    rewrite parse_digits_two, Hd.
    apply digits_from_head, is_digit_cases in Hs as (_ & _ & Hc' & _).
    rewrite decide_False, Hparse by done. split; [done|]. f_equal. f_equal.
    unfold digit_of in Hd. destruct (N_of_ascii c) as [|p]; [done|].
    do 6 (destruct p as [p|p|]; try done); by injection Hd as <-.
  - destruct (IH (dc A)) as (d' & Hparse & ->);
      [by rewrite (digit_of_value c dc A Hd)|].
    exists (dc d').
    rewrite parse_digits_two, Hd, decide_True, Hparse by done.
    split; [done|]. f_equal. f_equal.
    unfold digit_of in Hd. destruct (N_of_ascii c) as [|p]; [done|].
    do 6 (destruct p as [p|p|]; try done); by injection Hd as <-.
Qed.

Lemma parse_digits_denotes s d :
  parse_digits s = Some d → digits_from 0 s (Z.of_uint d).
Proof.
  intros Hs. rewrite Z_of_uint_of_lu.
  apply (parse_digits_value (String.length s) s (le_n _) Nil d Hs).
Qed.

Lemma digits_from_of_uint s n :
  digits_from 0 s n → ∃ d, parse_digits s = Some d ∧ n = Z.of_uint d.
Proof.
  intros Hs. destruct (digits_from_parse 0 s n Hs Nil eq_refl) as (d & Hd & ->).
  exists d. by rewrite Z_of_uint_of_lu.
Qed.

(** [int] returns the integer the literal denotes, and raises on
    anything that denotes none. *)
Lemma py_int_denotes s n : py_int s = Ok n ↔ denotes (strip s) n.
Proof.
  unfold py_int. destruct (strip s) as [|c r].
  { split; [done|]. inversion 1 as [? ? Hd| |]. inversion Hd. }
  split.
  - destruct (decide (c = "-"%char)) as [->|Hminus].
    { destruct (parse_digits r) as [d|] eqn:Hr; simpl; [|done].
      intros [= <-]. by apply denotes_minus, parse_digits_denotes. }
    destruct (decide (c = "+"%char)) as [->|Hplus].
    { destruct (parse_digits r) as [d|] eqn:Hr; simpl; [|done].
      intros [= <-]. by apply denotes_plus, parse_digits_denotes. }
    destruct (parse_digits (String c r)) as [d|] eqn:Hr; simpl; [|done].
    intros [= <-]. by apply denotes_plain, parse_digits_denotes.
  - inversion 1 as [? ? Hd|? ? Hd|? m Hd]; subst.
    + apply digits_from_head in Hd as Hc.
      apply is_digit_cases in Hc as (_ & _ & _ & Hminus & Hplus).
      rewrite !decide_False by done.
      apply digits_from_of_uint in Hd as (d & -> & ->). done.
    + rewrite decide_False, decide_True by done.
      apply digits_from_of_uint in Hd as (d & -> & ->). done.
    + rewrite decide_True by done.
      apply digits_from_of_uint in Hd as (d & -> & ->). done.
Qed.

(** Literals that [str] does not print: a sign, leading zeros,
    underscores between digits. *)
Lemma denotes_examples :
  denotes "+5" 5 ∧ denotes "007" 7 ∧ denotes "1_000" 1000 ∧ denotes "-0_12" (-12).
Proof.
  split_and!.
  - apply denotes_plus. by apply (value_one 0).
  - apply denotes_plain. apply value_more; [done|]. apply value_more; [done|].
    by apply (value_one 0).
  - apply denotes_plain. apply value_sep; [done|]. apply value_more; [done|].
    apply value_more; [done|]. by apply (value_one 100).
  - apply (denotes_minus _ 12). apply value_sep; [done|].
    apply value_more; [done|]. by apply (value_one 1).
Qed.

(** C8. Watermark load: [get_last_query_timestamp] returns [None] when
    the file is absent; it returns the stored integer when the file
    holds the decimal text of an integer, and more generally whenever
    the stripped content is an integer literal (a sign, leading zeros
    and single underscores between digits are allowed) it returns the
    one integer this literal denotes; and when the stripped content is
    not an integer literal it raises [ValueError], which is not caught.
    The working directory is left as it was. *)
Theorem get_last_query_timestamp_behaviour `{JsonText}
    (σ : fs) (filename : option string) :
  let path :=
    match filename with
    | Some name => if is_empty name then default_timestamp_file else name
    | None => default_timestamp_file
    end in
  (σ !! path = None → get_last_query_timestamp filename σ = (σ, Ok None)) ∧
  (∀ n, σ !! path = Some (Text (py_str n)) →
        get_last_query_timestamp filename σ = (σ, Ok (Some n))) ∧
  (∀ f, σ !! path = Some f →
        int_literal (strip (universal_newlines (file_text f))) →
        ∃ n, denotes (strip (universal_newlines (file_text f))) n ∧
             (∀ m, denotes (strip (universal_newlines (file_text f))) m → m = n) ∧
             get_last_query_timestamp filename σ = (σ, Ok (Some n))) ∧
  (∀ f, σ !! path = Some f →
        ¬ int_literal (strip (universal_newlines (file_text f))) →
        get_last_query_timestamp filename σ = (σ, Raise ValueError)).
Proof.
  intros path. rewrite get_last_query_timestamp_unfold. fold path.
  cbv zeta. split_and!.
  - by intros ->.
  - intros n ->. simpl. by rewrite read_py_str, py_int_py_str.
  - intros f -> Hlit.
    pose proof (py_int_literal (strip (universal_newlines (file_text f)))) as Hint.
    pose proof (py_int_denotes (strip (universal_newlines (file_text f)))) as Hden.
    rewrite strip_idemp in Hint, Hden.
    destruct (py_int _) as [n|e]; simpl; [|by destruct Hint].
    exists n. split_and!; [by apply Hden| |done].
    intros m Hm%Hden. by injection Hm.
  - intros f -> Hlit.
    pose proof (py_int_literal (strip (universal_newlines (file_text f)))) as Hint.
    rewrite strip_idemp in Hint.
    destruct (py_int _) as [n|e]; simpl; [done|]. by destruct Hint as [-> _].
Qed.

Lemma pagination_contract_witness :
  fetch_all_incidents_with_pagination
    (sample_world credentials two_pages) (VStr "1234") None 2 5 =
  ([page_request (sample_world credentials two_pages) (VStr "1234") None 2 1;
    page_request (sample_world credentials two_pages) (VStr "1234") None 2 2],
   Some (Ok [sample_incident "1.2.3.4" ["bot"] "evil.example.com";
             sample_incident "9.9.9.9" [] "a.example.com";
             sample_incident "1.2.3.4" ["tor"] "b.example.com"])).
Proof.
  apply (pagination_contract (sample_world credentials two_pages)
           (VStr "1234") None 2
           [[sample_incident "1.2.3.4" ["bot"] "evil.example.com";
             sample_incident "9.9.9.9" [] "a.example.com"]]
           (Some [sample_incident "1.2.3.4" ["tor"] "b.example.com"]) 5).
  - intros [|i] items Hi; simpl in Hi; [|by destruct i].
    injection Hi as <-. unfold full_page. simpl.
    split; [reflexivity|]. split; [|lia].
    eexists. split; reflexivity.
  - unfold last_page, short_page. simpl.
    split; [reflexivity|]. split; [|lia].
    eexists. split; reflexivity.
  - simpl. lia.
Defined.

(** *** The [from] parameter *)

Lemma page_request_from w caid t page_size page :
  t ≠ 0 →
  dict_get (params (page_request w caid (Some t) page_size page)) "from"
    = Some (VInt t).
Proof.
  intros Ht%Z.eqb_neq. unfold page_request, add_from. simpl.
  by rewrite Ht.
Qed.

Lemma page_request_no_from w caid since_timestamp page_size page :
  since_timestamp = None ∨ since_timestamp = Some 0 →
  dict_get (params (page_request w caid since_timestamp page_size page)) "from"
    = None.
Proof. by intros [-> | ->]. Qed.

Lemma fetch_loop_requests w caid since_timestamp page_size fuel page acc :
  Forall (λ req, ∃ p, req = page_request w caid since_timestamp page_size p)
         (fetch_loop w caid since_timestamp page_size fuel page acc).1.
Proof.
  revert page acc. induction fuel as [|fuel IH]; intros page acc; simpl;
    [constructor|].
  destruct (status_code _ =? 200); [|repeat constructor; eauto].
  destruct (response_json _ ≫= page_incidents) as [incidents|e];
    [|repeat constructor; eauto].
  destruct (Z.of_nat (length incidents) <? page_size);
    [repeat constructor; eauto|].
  specialize (IH (page + 1) (acc ++ incidents)).
  destruct (fetch_loop _ _ _ _ fuel _ _) as [reqs r]. simpl in *.
  constructor; eauto.
Qed.

Lemma fetch_loop_first w caid since_timestamp page_size fuel page acc :
  ∃ reqs,
    (fetch_loop w caid since_timestamp page_size (S fuel) page acc).1 =
    page_request w caid since_timestamp page_size page :: reqs.
Proof.
  simpl. destruct (status_code _ =? 200); [|by eauto].
  destruct (response_json _ ≫= page_incidents) as [incidents|e]; [|by eauto].
  destruct (Z.of_nat (length incidents) <? page_size); [by eauto|].
  destruct (fetch_loop _ _ _ _ fuel _ _) as [reqs r]. simpl. eauto.
Qed.

(** The requests of a run are those of its fetch, once the watermark is
    loaded and logged. *)
Lemma main_requests `{JsonText} w fuel σ last_timestamp :
  get_last_query_timestamp None σ = (σ, Ok last_timestamp) →
  log_delta w last_timestamp = Ok () →
  run_requests (main w fuel σ) =
  (fetch_all_incidents_with_pagination
     w (getenv w "CLID") last_timestamp 100 fuel).1.
Proof.
  intros Hget Hlog. unfold main. rewrite Hget, Hlog.
  by destruct (fetch_all_incidents_with_pagination _ _ _ _ _).
Qed.

(** A stored watermark of zero is loaded but not sent: the request
    carries no [from].  A stored watermark outside the range of
    [datetime] stops the run before any request is sent. *)
Lemma watermark_not_propagated :
  get_last_query_timestamp (H := plain_text) None
    {[default_timestamp_file := Text "0"]}
    = ({[default_timestamp_file := Text "0"]}, Ok (Some 0)) ∧
  (λ req, dict_get (params req) "from") <$>
    run_requests (main (H := plain_text) (sample_world credentials unauthorized) 3
                       {[default_timestamp_file := Text "0"]})
    = [None] ∧
  main (H := plain_text) (sample_world credentials unauthorized) 3
       {[default_timestamp_file := Text "1000000000000000000"]}
    = {| run_requests := [];
         run_end := Some ({[default_timestamp_file := Text "1000000000000000000"]},
                          Raise DateRangeError) |}.
Proof. split_and!; by vm_compute. Qed.

(** C5 (amended). Watermark propagation: when the watermark file holds
    the decimal text of an integer that is not zero and that
    [datetime.fromtimestamp] accepts, the load returns that integer and
    the run sends it unchanged as the [from] parameter of every page
    request, the first of which is always sent. *)
Theorem watermark_propagation `{JsonText} (w : world) (σ : fs) (t : Z)
    (fuel : nat) :
  σ !! default_timestamp_file = Some (Text (py_str t)) →
  t ≠ 0 →
  fromtimestamp_ok w t →
  get_last_query_timestamp None σ = (σ, Ok (Some t)) ∧
  (∃ reqs, run_requests (main w (S fuel) σ) =
           page_request w (getenv w "CLID") (Some t) 100 1 :: reqs) ∧
  Forall (λ req, dict_get (params req) "from" = Some (VInt t))
         (run_requests (main w (S fuel) σ)).
Proof.
  intros Hfile Ht Hok.
  pose proof (get_last_query_timestamp_stored σ t Hfile) as Hget.
  assert (log_delta w (Some t) = Ok ()) as Hlog.
  { unfold log_delta. apply Z.eqb_neq in Ht. rewrite Ht.
    apply Is_true_true in Hok. by rewrite Hok. }
  rewrite (main_requests w (S fuel) σ (Some t) Hget Hlog).
  split_and!; [done|apply fetch_loop_first|].
  unfold fetch_all_incidents_with_pagination.
  eapply Forall_impl; [apply fetch_loop_requests|].
  intros req [p ->]. by apply page_request_from.
Qed.

Lemma watermark_propagation_witness :
  Forall (λ req, dict_get (params req) "from" = Some (VInt 1700000000000))
    (run_requests
       (main (H := plain_text) (sample_world credentials two_pages) 3
             {[default_timestamp_file := Text "1700000000000"]})).
Proof.
  apply (watermark_propagation (H := plain_text)
           (sample_world credentials two_pages)
           {[default_timestamp_file := Text "1700000000000"]}
           1700000000000 2).
  - reflexivity.
  - lia.
  - exact I.
Defined.

(** *** Missing credentials *)

(** C7 (the code at the failing input). Without credentials
    [get_imperva_incidents] raises before sending anything, whereas the
    paginated fetch sends its request with empty credential headers and,
    refused by the server, returns the empty list without raising. *)
Lemma fetch_without_credentials :
  get_imperva_incidents (sample_world ∅ unauthorized) (VStr "1234") None
    = ([], Raise ValueError) ∧
  fetch_all_incidents_with_pagination
    (sample_world ∅ unauthorized) (VStr "1234") None 100 3
    = ([{| url := api_url;
           params := [("caid", VStr "1234"); ("page", VInt 1);
                      ("page_size", VInt 100)];
           headers := [("x-API-Id", VNone); ("x-API-Key", VNone);
                       ("Accept", VStr "application/json")] |}],
       Some (Ok [])).
Proof. split; by vm_compute. Qed.

(** ** The working directory *)

Lemma save_domains_to_file_unfold `{JsonText} domains filename now (σ : fs) :
  save_domains_to_file domains filename now σ =
  let path := resolve_filename filename (now +:+ "_domain_data.txt") in
  let existing_domains :=
    match σ !! path with
    | Some f => read_entries (file_text f)
    | None => ∅
    end in
  let all_domains := existing_domains ∪ filter (λ d, nonblank d) domains in
  (<[path := Text (write_entries all_domains)]> σ, Ok all_domains).
Proof.
  unfold save_domains_to_file, mbind, io_bind, isfile, read_file, write_file,
    mret, io_ret. simpl.
  set (path := resolve_filename _ _).
  destruct (σ !! path) as [f|] eqn:Hf; simpl; rewrite ?Hf; simpl; done.
Qed.

Lemma save_ip_data_to_file_unfold `{JsonText} ip_data filename detailed now
    (σ : fs) :
  save_ip_data_to_file ip_data filename detailed now σ =
  let path := resolve_filename filename (now +:+ "_ip_data.txt") in
  let detailed_path := resolve_filename detailed (now +:+ "_ip_detailed.json") in
  let existing_ips :=
    match σ !! path with
    | Some f => read_entries (file_text f)
    | None => ∅
    end in
  let all_ips :=
    existing_ips ∪ filter (λ ip, nonblank ip) (list_to_set (dict_keys ip_data)) in
  let σ1 := <[path := Text (write_entries all_ips)]> σ in
  let existing_detailed :=
    match σ1 !! detailed_path with
    | Some f => default (JObj []) (file_json f)
    | None => JObj []
    end in
  match merge_detailed ip_data existing_detailed with
  | Ok merged => (<[detailed_path := Doc merged]> σ1, Ok all_ips)
  | Raise e => (σ1, Raise e)
  end.
Proof.
  unfold save_ip_data_to_file, mbind, io_bind, isfile, read_file, write_file,
    lift, mret, io_ret. simpl.
  set (path := resolve_filename filename _).
  set (detailed_path := resolve_filename detailed _).
  destruct (σ !! path) as [f|] eqn:Hf; simpl; rewrite ?Hf; simpl.
  - set (σ1 := <[path := _]> σ).
    destruct (σ1 !! detailed_path) as [g|] eqn:Hg; simpl; rewrite ?Hg; simpl;
      by destruct (merge_detailed _ _).
  - set (σ1 := <[path := _]> σ).
    destruct (σ1 !! detailed_path) as [g|] eqn:Hg; simpl; rewrite ?Hg; simpl;
      by destruct (merge_detailed _ _).
Qed.

Lemma preserves_ret {A} path (a : A) : preserves path (mret a).
Proof. by intros σ. Qed.

Lemma preserves_lift {A} path (r : result A) : preserves path (lift r).
Proof. by intros σ. Qed.

Lemma preserves_bind {A B} path (m : io A) (f : A → io B) :
  preserves path m → (∀ a, preserves path (f a)) → preserves path (m ≫= f).
Proof.
  intros Hm Hf σ. unfold mbind, io_bind. specialize (Hm σ).
  destruct (m σ) as [σ1 [a|e]]; simpl in *; [|done].
  by rewrite Hf.
Qed.

Lemma preserves_write_file path target f :
  path ≠ target → preserves path (write_file target f).
Proof. intros Hne σ. unfold write_file. simpl. by rewrite lookup_insert_ne. Qed.

Lemma preserves_save_domains `{JsonText} path domains filename now :
  path ≠ resolve_filename filename (now +:+ "_domain_data.txt") →
  preserves path (save_domains_to_file domains filename now).
Proof.
  intros Hne σ. rewrite save_domains_to_file_unfold. simpl.
  by rewrite lookup_insert_ne.
Qed.

Lemma preserves_save_ip_data `{JsonText} path ip_data filename detailed now :
  path ≠ resolve_filename filename (now +:+ "_ip_data.txt") →
  path ≠ resolve_filename detailed (now +:+ "_ip_detailed.json") →
  preserves path (save_ip_data_to_file ip_data filename detailed now).
Proof.
  intros Hne1 Hne2 σ. rewrite save_ip_data_to_file_unfold. cbv zeta.
  destruct (merge_detailed _ _); simpl; by rewrite !lookup_insert_ne.
Qed.

Lemma preserves_save_last_query_timestamp path timestamp filename now :
  path ≠ resolve_filename filename (now +:+ "_last_query_timestamp.txt") →
  preserves path (save_last_query_timestamp timestamp filename now).
Proof. intros Hne. by apply preserves_write_file. Qed.

Lemma preserves_create_summary_report path w a b c timestamp :
  path ≠ "reports/" +:+ timestamp +:+ "_summary.txt" →
  preserves path (create_summary_report w a b c timestamp).
Proof. intros Hne. by apply preserves_write_file. Qed.

(** *** File names *)

Lemma list_ascii_of_string_append s t :
  list_ascii_of_string (s +:+ t) = list_ascii_of_string s ++ list_ascii_of_string t.
Proof.
  induction s as [|c s IH]; [done|]. rewrite append_cons. simpl. by rewrite IH.
Qed.

Lemma ends_with_append pre s sfx : ends_with s sfx → ends_with (pre +:+ s) sfx.
Proof.
  unfold ends_with. rewrite list_ascii_of_string_append. apply suffix_app_r.
Qed.

Lemma ends_with_refl s : ends_with s s.
Proof. unfold ends_with. done. Qed.

Lemma ends_with_nonempty s c sfx : ends_with s (String c sfx) → is_empty s = false.
Proof.
  unfold ends_with. destruct s; simpl; [|done].
  intros [k Hk]. by destruct k.
Qed.

(** A given file name that ends with [sfx] is resolved to a path that
    ends with [sfx]. *)
Lemma resolve_filename_ends_with name c sfx dflt :
  ends_with name (String c sfx) →
  ends_with (resolve_filename (Some name) dflt) (String c sfx).
Proof.
  intros Hend. unfold resolve_filename.
  rewrite (ends_with_nonempty _ _ _ Hend).
  destruct (startswith name data_dir); [done|].
  by do 2 apply ends_with_append.
Qed.

Lemma ends_with_ne s t sfx : ends_with s sfx → ¬ ends_with t sfx → s ≠ t.
Proof. by intros ?? ->. Qed.

Lemma default_timestamp_file_endings :
  ¬ ends_with default_timestamp_file "_ip_data.txt" ∧
  ¬ ends_with default_timestamp_file "_ip_detailed.json" ∧
  ¬ ends_with default_timestamp_file "_domain_data.txt" ∧
  ¬ ends_with default_timestamp_file "_last_query_timestamp.txt" ∧
  ¬ ends_with default_timestamp_file "_summary.txt".
Proof.
  unfold ends_with.
  split_and!; apply (bool_decide_unpack _); by vm_compute.
Qed.

(** *** The entry point never writes the default watermark file *)

Lemma timestamp_filename_resolved label dflt :
  resolve_filename (Some (label +:+ "_last_query_timestamp.txt")) dflt
    ≠ default_timestamp_file.
Proof.
  destruct default_timestamp_file_endings as (_ & _ & _ & Hend & _).
  eapply ends_with_ne; [|exact Hend].
  apply resolve_filename_ends_with, ends_with_append, ends_with_refl.
Qed.

Lemma preserves_process_incidents `{JsonText} w incidents :
  preserves default_timestamp_file (process_incidents w incidents).
Proof.
  destruct default_timestamp_file_endings as (Hip & Hdet & Hdom & Hts & Hrep).
  unfold process_incidents.
  apply preserves_bind; [apply preserves_lift|]. intros [ip_data domains].
  apply preserves_bind.
  { apply preserves_save_ip_data; apply not_eq_sym.
    - eapply ends_with_ne; [|exact Hip].
      apply resolve_filename_ends_with, ends_with_append, ends_with_refl.
    - eapply ends_with_ne; [|exact Hdet].
      apply resolve_filename_ends_with, ends_with_append, ends_with_refl. }
  intros all_ips. apply preserves_bind.
  { apply preserves_save_domains, not_eq_sym.
    eapply ends_with_ne; [|exact Hdom].
    apply resolve_filename_ends_with, ends_with_append, ends_with_refl. }
  intros all_domains. apply preserves_bind.
  { apply preserves_save_last_query_timestamp, not_eq_sym.
    apply timestamp_filename_resolved. }
  intros _. apply preserves_create_summary_report, not_eq_sym.
  eapply ends_with_ne; [|exact Hrep].
  do 2 apply ends_with_append. apply ends_with_refl.
Qed.

Lemma main_preserves_default `{JsonText} w fuel (σ σ' : fs) outcome :
  run_end (main w fuel σ) = Some (σ', outcome) →
  σ' !! default_timestamp_file = σ !! default_timestamp_file.
Proof.
  assert (∀ incidents,
    Some (process_incidents w incidents σ) = Some (σ', outcome) →
    σ' !! default_timestamp_file = σ !! default_timestamp_file) as Hproc.
  { intros incidents Hrun.
    rewrite <- (preserves_process_incidents w incidents σ).
    destruct (process_incidents _ _ _). by simplify_eq. }
  assert (∀ r : result unit,
    Some (σ, r) = Some (σ', outcome) →
    σ' !! default_timestamp_file = σ !! default_timestamp_file) as Hsame.
  { intros r Hrun. by simplify_eq. }
  unfold main. rewrite get_last_query_timestamp_unfold. cbv zeta.
  generalize (log_delta w).
  generalize (fetch_all_incidents_with_pagination w (getenv w "CLID")).
  intros fetch log.
  assert (∀ last_timestamp,
    run_end
      (let '(reqs, fetched) := fetch last_timestamp 100 fuel in
       {| run_requests := reqs;
          run_end :=
            match fetched with
            | None => None
            | Some (Raise e) => Some (σ, Raise e)
            | Some (Ok []) => Some (σ, Ok ())
            | Some (Ok incidents) => Some (process_incidents w incidents σ)
            end |}) = Some (σ', outcome) →
    σ' !! default_timestamp_file = σ !! default_timestamp_file) as Hfetch.
  { intros last_timestamp.
    destruct (fetch last_timestamp 100 fuel) as [reqs [[l|e]|]];
      simpl; [|apply Hsame|done].
    destruct l as [|i l]; [apply Hsame|apply Hproc]. }
  destruct (σ !! default_timestamp_file) as [f|].
  - destruct (py_int _) as [t|e]; simpl; [|apply Hsame].
    destruct (log (Some t)); [apply Hfetch|apply Hsame].
  - simpl. destruct (log None); [apply Hfetch|apply Hsame].
Qed.

(** C6. The watermark does not survive from one run of the entry point
    to the next.  The entry point saves the watermark under a name made
    from the current time, which never resolves to
    [data/last_query_timestamp.txt], the file the load reads when called
    without a name; no file the entry point writes is that file.  So
    when that file is absent before a run it is absent after it, the
    next load returns [None], and no request of the next run carries a
    [from] parameter. *)
Theorem watermark_not_reloaded `{JsonText} (w : world) (fuel : nat)
    (σ σ' : fs) (outcome : result unit) :
  σ !! default_timestamp_file = None →
  run_end (main w fuel σ) = Some (σ', outcome) →
  resolve_filename (Some (now_label w +:+ "_last_query_timestamp.txt"))
                   (now_stamp w +:+ "_last_query_timestamp.txt")
    ≠ default_timestamp_file ∧
  σ' !! default_timestamp_file = None ∧
  get_last_query_timestamp None σ' = (σ', Ok None) ∧
  ∀ (w' : world) (fuel' : nat),
    Forall (λ req, dict_get (params req) "from" = None)
           (run_requests (main w' fuel' σ')).
Proof.
  intros Hnone Hrun.
  assert (σ' !! default_timestamp_file = None) as Hnone'.
  { by rewrite (main_preserves_default w fuel σ σ' outcome Hrun). }
  assert (get_last_query_timestamp None σ' = (σ', Ok None)) as Hget.
  { by apply get_last_query_timestamp_absent. }
  split_and!; [apply timestamp_filename_resolved|done|done|].
  intros w' fuel'.
  rewrite (main_requests w' fuel' σ' None Hget eq_refl).
  unfold fetch_all_incidents_with_pagination.
  eapply Forall_impl; [apply fetch_loop_requests|].
  intros req [p ->]. apply page_request_no_from. by left.
Qed.

Lemma watermark_not_reloaded_witness :
  ∃ σ',
    run_end (main (H := plain_text) (sample_world credentials two_pages) 5 ∅)
      = Some (σ', Ok ()) ∧
    σ' !! "data/2023-11-14-221320_last_query_timestamp.txt"
      = Some (Text "1700000000000") ∧
    σ' !! default_timestamp_file = None ∧
    get_last_query_timestamp (H := plain_text) None σ' = (σ', Ok None).
Proof.
  assert (∃ σ',
    run_end (main (H := plain_text) (sample_world credentials two_pages) 5 ∅)
      = Some (σ', Ok ()) ∧
    σ' !! "data/2023-11-14-221320_last_query_timestamp.txt"
      = Some (Text "1700000000000")) as (σ' & Hrun & Hfile).
  { eexists. split; [vm_compute; reflexivity|]. vm_compute. reflexivity. }
  exists σ'.
  destruct (watermark_not_reloaded (H := plain_text)
              (sample_world credentials two_pages) 5 ∅ σ' (Ok ())
              (lookup_empty _) Hrun) as (_ & Hnone & Hget & _).
  done.
Defined.

(** ** Merge and persistence: the flat files *)

Lemma all_chars_universal_newlines s :
  all_chars (λ c, negb (bool_decide (c = CR))) (universal_newlines s).
Proof.
  assert (∀ n s, (String.length s ≤ n)%nat →
            all_chars (λ c, negb (bool_decide (c = CR))) (universal_newlines s))
    as Hn.
  { clear s. induction n as [|n IH]; intros [|c s] Hlen; simpl in Hlen;
      try done; try lia.
    cbn [universal_newlines]. destruct (decide (c = CR)) as [->|Hc].
    - destruct s as [|c' s]; [done|]. simpl in Hlen.
      destruct (decide (c' = LF)); cbn [all_chars];
        (rewrite bool_decide_false by done); cbn [negb andb].
      + apply IH. lia.
      + apply (IH (String c' s)). simpl. lia.
    - cbn [all_chars]. rewrite bool_decide_false by done. cbn [negb andb].
      apply IH. lia. }
  by apply (Hn (String.length s)).
Qed.

Lemma all_chars_split_lines P s :
  all_chars P s → Forall (λ line, all_chars P line) (split_lines s).
Proof.
  induction s as [|c s IH]; simpl; [constructor|].
  intros [Hc Hs]%andb_prop_elim. specialize (IH Hs).
  destruct (decide (c = LF)) as [->|Hne].
  - constructor; [|done]. simpl. by rewrite andb_true_r.
  - destruct (split_lines s) as [|l ls].
    + repeat constructor. simpl. by rewrite andb_true_r.
    + apply Forall_cons in IH as [Hl Hls]. constructor; [|done].
      simpl. apply andb_prop_intro. auto.
Qed.

(** A line is its body, followed or not by a line feed; the body has no
    line feed. *)
Lemma split_lines_body s :
  Forall (λ line, ∃ body,
            (line = body ∨ line = body +:+ newline) ∧
            all_chars (λ c, negb (bool_decide (c = LF))) body)
         (split_lines s).
Proof.
  induction s as [|c s IH]; simpl; [constructor|].
  destruct (decide (c = LF)) as [->|Hne].
  - constructor; [|done]. exists EmptyString. split; [by right|done].
  - destruct (split_lines s) as [|l ls].
    + repeat constructor. exists (String c EmptyString). split; [by left|].
      simpl. by rewrite bool_decide_false.
    + apply Forall_cons in IH as [(body & Hl & Hbody) Hls].
      constructor; [|done]. exists (String c body). split.
      * destruct Hl as [-> | ->]; [by left|right]. by rewrite append_cons.
      * simpl. by rewrite bool_decide_false.
Qed.

Lemma is_line_break_split c :
  negb (bool_decide (c = LF)) → negb (bool_decide (c = CR)) →
  negb (is_line_break c).
Proof. unfold is_line_break. by do 2 destruct (bool_decide _). Qed.

(** What [read_entries] reads is clean and not blank. *)
Lemma read_entries_clean content x :
  x ∈ read_entries content → clean_entry x ∧ nonblank x.
Proof.
  unfold read_entries, readlines. rewrite elem_of_list_to_set.
  intros (line & -> & [Hnb Hline]%list_elem_of_filter)%list_elem_of_fmap.
  pose proof (split_lines_body (universal_newlines content)) as Hbody.
  pose proof (all_chars_split_lines _ _ (all_chars_universal_newlines content))
    as Hcr.
  rewrite Forall_forall in Hbody, Hcr.
  destruct (Hbody line Hline) as (body & Hl & Hlf). specialize (Hcr line Hline).
  split; [|unfold nonblank; by rewrite strip_idemp].
  unfold clean_entry. apply andb_prop_intro. split.
  { apply bool_decide_pack, strip_idemp. }
  assert (strip line = strip body) as ->.
  { destruct Hl as [-> | ->]; [done|apply strip_app_newline]. }
  assert (all_chars (λ c, negb (bool_decide (c = CR))) body) as Hcr'.
  { destruct Hl as [-> | ->]; [done|].
    rewrite all_chars_app in Hcr. by apply andb_prop_elim in Hcr as [? _]. }
  apply all_chars_strip. clear -Hlf Hcr'.
  induction body as [|c body IH]; simpl in *; [done|].
  apply andb_prop_elim in Hlf as [Hc1 Hlf].
  apply andb_prop_elim in Hcr' as [Hc2 Hcr'].
  apply andb_prop_intro. split; [by apply is_line_break_split|by apply IH].
Qed.

Lemma clean_entry_strip x : clean_entry x → strip x = x.
Proof.
  unfold clean_entry. by intros [?%bool_decide_unpack _]%andb_prop_elim.
Qed.

Lemma clean_entry_no_break x :
  clean_entry x → all_chars (λ c, negb (is_line_break c)) x.
Proof. unfold clean_entry. by intros [_ ?]%andb_prop_elim. Qed.

Lemma no_break_no_cr s :
  all_chars (λ c, negb (is_line_break c)) s →
  all_chars (λ c, negb (bool_decide (c = CR))) s.
Proof.
  apply all_chars_impl. intros c. unfold is_line_break.
  by do 2 destruct (bool_decide _).
Qed.

Lemma no_break_no_lf s :
  all_chars (λ c, negb (is_line_break c)) s →
  all_chars (λ c, negb (bool_decide (c = LF))) s.
Proof.
  apply all_chars_impl. intros c. unfold is_line_break.
  by do 2 destruct (bool_decide _).
Qed.

Lemma write_lines_cons x l :
  write_lines (x :: l) = x +:+ newline +:+ write_lines l.
Proof. done. Qed.

Lemma all_chars_write_lines l :
  Forall (λ x, all_chars (λ c, negb (is_line_break c)) x) l →
  all_chars (λ c, negb (bool_decide (c = CR))) (write_lines l).
Proof.
  induction 1 as [|x l Hx Hl IH]; [done|].
  rewrite write_lines_cons, !all_chars_app.
  apply andb_prop_intro. split; [by apply no_break_no_cr|].
  apply andb_prop_intro. split; [done|apply IH].
Qed.

Lemma split_lines_line x rest :
  all_chars (λ c, negb (bool_decide (c = LF))) x →
  split_lines (x +:+ newline +:+ rest) = (x +:+ newline) :: split_lines rest.
Proof.
  induction x as [|c x IH]; intros Hx.
  - rewrite !append_nil_l. unfold newline. rewrite append_cons, append_nil_l.
    reflexivity.
  - simpl in Hx. apply andb_prop_elim in Hx as [Hc Hx].
    apply negb_prop_elim in Hc. rewrite bool_decide_spec in Hc.
    rewrite !append_cons. cbn [split_lines].
    rewrite decide_False by done. by rewrite IH.
Qed.

Lemma readlines_write_lines l :
  Forall (λ x, all_chars (λ c, negb (is_line_break c)) x) l →
  readlines (write_lines l) = (λ x, x +:+ newline) <$> l.
Proof.
  intros Hl. unfold readlines.
  rewrite universal_newlines_no_cr by by apply all_chars_write_lines.
  induction Hl as [|x l Hx Hl IH]; [done|].
  rewrite write_lines_cons, split_lines_line by by apply no_break_no_lf.
  by rewrite fmap_cons, IH.
Qed.

(** Reading back what was written gives the entries written, when they
    are clean and not blank. *)
Lemma read_entries_write_lines l :
  Forall (λ x, clean_entry x ∧ nonblank x) l →
  read_entries (write_lines l) = list_to_set l.
Proof.
  intros Hl. unfold read_entries.
  rewrite readlines_write_lines.
  2:{ eapply Forall_impl; [exact Hl|]. intros x [Hx _].
      by apply clean_entry_no_break. }
  f_equal. induction Hl as [|x l [Hx Hnb] Hl IH]; [done|].
  rewrite fmap_cons, filter_cons_True.
  2:{ unfold nonblank. by rewrite strip_app_newline. }
  rewrite fmap_cons, strip_app_newline, IH. f_equal.
  by apply clean_entry_strip.
Qed.

Lemma sorted_Permutation (xs : gset string) : sorted xs ≡ₚ elements xs.
Proof. apply merge_sort_Permutation. Qed.

Lemma elem_of_sorted (xs : gset string) x : x ∈ sorted xs ↔ x ∈ xs.
Proof. by rewrite sorted_Permutation, elem_of_elements. Qed.

Lemma read_entries_write_entries (xs : gset string) :
  set_Forall (λ x, clean_entry x ∧ nonblank x) xs →
  read_entries (write_entries xs) = xs.
Proof.
  intros Hxs. unfold write_entries.
  assert (Forall (λ x, clean_entry x ∧ nonblank x) (sorted xs)) as Hall.
  { apply Forall_forall. intros x Hx%elem_of_sorted. by apply Hxs. }
  assert (filter (λ x, nonblank x) (sorted xs) = sorted xs) as ->.
  { clear Hxs. induction Hall as [|x l [_ Hx] Hl IH]; [done|].
    by rewrite filter_cons_True, IH. }
  rewrite read_entries_write_lines by done.
  apply set_eq. intros x. by rewrite elem_of_list_to_set, elem_of_sorted.
Qed.

(** The set a flat file holds after a merge does not grow when the same
    new entries are merged again. *)
Lemma flat_merge_idempotent (existing : option string) (new : gset string) :
  clean_set new →
  let all :=
    from_option read_entries ∅ existing ∪ filter (λ x, nonblank x) new in
  read_entries (write_entries all) ∪ filter (λ x, nonblank x) new = all.
Proof.
  intros Hnew all. rewrite read_entries_write_entries; [set_solver|].
  intros x [Hx|[Hnb Hx]%elem_of_filter]%elem_of_union.
  - destruct existing as [content|]; simpl in Hx; [|set_solver].
    by apply read_entries_clean in Hx.
  - split; [by apply Hnew|done].
Qed.

(** ** Merge and persistence: the detailed file *)

Lemma atoms_of_atoms l : atoms_of (json_of_atom <$> l) = Ok l.
Proof.
  induction l as [|a l IH]; [done|].
  rewrite fmap_cons. cbn [atoms_of]. rewrite IH. by destruct a.
Qed.

(** *** Python sets *)

Lemma set_add_wf s a : set_wf s → set_wf (set_add s a).
Proof.
  intros Hs. unfold set_add. destruct (s !! py_key a) eqn:Hk; [done|].
  by apply map_Forall_insert_2.
Qed.

Lemma foldl_set_add_wf l s : set_wf s → set_wf (foldl set_add s l).
Proof.
  revert s. induction l as [|a l IH]; intros s Hs; simpl; [done|].
  by apply IH, set_add_wf.
Qed.

(** Adding the elements of a list one after the other keeps, for each
    class, the element of the set or else the first one of the list. *)
Lemma foldl_set_add l s :
  foldl set_add s l = s ∪ list_to_map ((λ a, (py_key a, a)) <$> l).
Proof.
  revert s. induction l as [|a l IH]; intros s; simpl.
  - by rewrite (right_id_L ∅ (∪)).
  - rewrite IH. unfold set_add.
    destruct (s !! py_key a) as [b|] eqn:Hk.
    + apply map_eq. intros k. rewrite !lookup_union.
      destruct (decide (k = py_key a)) as [->|Hne].
      * rewrite Hk, lookup_insert_eq. by destruct (list_to_map _ !! _).
      * by rewrite lookup_insert_ne.
    + by rewrite <- insert_union_l, insert_union_r.
Qed.

Lemma set_elements_keys s :
  set_wf s → (λ a, (py_key a, a)) <$> set_elements s = map_to_list s.
Proof.
  intros Hs. unfold set_elements. rewrite <- list_fmap_compose.
  rewrite <- (list_fmap_id (map_to_list s)) at 2.
  apply Forall_fmap_ext, Forall_forall. intros [k a] Hin%elem_of_map_to_list.
  simpl. by rewrite (Hs k a Hin).
Qed.

(** The union keeps the elements of the first set and adds those of the
    second that are equal to none of the first. *)
Lemma py_union_union s1 s2 : set_wf s2 → py_union s1 s2 = s1 ∪ s2.
Proof.
  intros Hs. unfold py_union.
  by rewrite foldl_set_add, set_elements_keys, list_to_map_to_list.
Qed.

Lemma py_union_wf s1 s2 : set_wf s1 → set_wf (py_union s1 s2).
Proof. apply foldl_set_add_wf. Qed.

Lemma py_union_absorbed s1 s2 :
  set_wf s2 → dom s2 ⊆ dom s1 → py_union s1 s2 = s1.
Proof.
  intros Hwf Hdom. rewrite py_union_union by done.
  apply map_eq. intros k. rewrite lookup_union.
  destruct (s1 !! k) as [a|] eqn:H1; [by destruct (s2 !! k)|].
  apply not_elem_of_dom in H1.
  assert (s2 !! k = None) as -> by (apply not_elem_of_dom; set_solver).
  done.
Qed.

Lemma elem_of_set_elements s a :
  set_wf s → a ∈ set_elements s ↔ s !! py_key a = Some a.
Proof.
  intros Hwf. unfold set_elements. rewrite list_elem_of_fmap. split.
  - intros ([k b] & -> & Hin%elem_of_map_to_list). simpl.
    by rewrite (Hwf k b Hin).
  - intros Hin. exists (py_key a, a). split; [done|].
    by apply elem_of_map_to_list.
Qed.

Lemma py_union_elements stored new a :
  set_wf stored → set_wf new →
  a ∈ set_elements (py_union stored new) ↔
  a ∈ set_elements stored ∨
  (a ∈ set_elements new ∧
   ∀ b, b ∈ set_elements stored → py_key b ≠ py_key a).
Proof.
  intros Hs Hn.
  rewrite !elem_of_set_elements by (done || by apply py_union_wf).
  rewrite py_union_union, lookup_union by done.
  destruct (stored !! py_key a) as [c|] eqn:Hc.
  - assert (Some c ∪ new !! py_key a = Some c) as ->
      by (by destruct (new !! py_key a)).
    split; [by left|]. intros [?|[_ Hnone]]; [done|].
    destruct (Hnone c); [|apply (Hs _ _ Hc)].
    apply elem_of_set_elements; [done|]. by rewrite (Hs _ _ Hc).
  - assert (None ∪ new !! py_key a = new !! py_key a) as ->
      by (by destruct (new !! py_key a)).
    split.
    + intros Ha. right. split; [done|].
      intros b Hb%elem_of_set_elements Heq; [|done].
      rewrite Heq in Hb. congruence.
    + by intros [?|[? _]].
Qed.

Lemma py_set_wf x s : py_set x = Ok s → set_wf s.
Proof.
  unfold py_set. destruct (py_iter x) as [l|]; simpl; [|done].
  destruct (atoms_of l) as [atoms|]; simpl; [|done].
  intros [= <-]. apply foldl_set_add_wf, map_Forall_empty.
Qed.

Lemma py_set_py_list tags : set_wf tags → py_set (py_list tags) = Ok tags.
Proof.
  intros Hwf. unfold py_set, py_list. simpl. rewrite atoms_of_atoms. simpl.
  f_equal.
  rewrite foldl_set_add, set_elements_keys, list_to_map_to_list by done.
  by rewrite (left_id_L ∅ (∪)).
Qed.

Lemma same_tags_refl v : same_tags v v.
Proof. by left. Qed.

Lemma same_tags_trans v1 v2 v3 :
  same_tags v1 v2 → same_tags v2 v3 → same_tags v1 v3.
Proof.
  intros [->|(t & L1 & L2 & H1 & H2)] [->|(t' & L2' & L3 & H2' & H3)].
  - by left.
  - right. eauto 10.
  - right. eauto 10.
  - right. exists t. rewrite H2 in H2'. injection H2' as ->. done.
Qed.

Lemma same_entries_refl kvs : same_entries kvs kvs.
Proof. apply Forall2_same_length_lookup. split; [done|].
  intros i a b Ha Hb. simplify_eq. split; [done|apply same_tags_refl].
Qed.

Lemma same_entries_trans kvs1 kvs2 kvs3 :
  same_entries kvs1 kvs2 → same_entries kvs2 kvs3 → same_entries kvs1 kvs3.
Proof.
  unfold same_entries. intros H12. revert kvs3.
  induction H12 as [|a b l1 l2 [Hk Ht] H12 IH]; intros kvs3 H23.
  - by inversion H23.
  - inversion H23 as [|b' c l2' l3 [Hk' Ht'] H23']; subst.
    constructor; [|by apply IH].
    split; [congruence|by eapply same_tags_trans].
Qed.

(** Replacing the value under a key by one with the same tags. *)
Lemma same_entries_set kvs k v v' :
  dict_get kvs k = Some v → same_tags v v' →
  same_entries kvs (dict_set kvs k v').
Proof.
  intros Hget Htags. induction kvs as [|[k0 v0] kvs IH]; [done|].
  simpl in *. case_decide; subst.
  - simplify_eq. constructor; [done|apply same_entries_refl].
  - constructor; [split; [done|apply same_tags_refl]|by apply IH].
Qed.

Lemma merge_reputation_obj kvs ip reputation :
  merge_reputation (JObj kvs) ip reputation =
  match dict_get kvs ip with
  | Some current =>
      existing_rep ← py_set current;
      new_rep ← py_set reputation;
      Ok (JObj (dict_set kvs ip (py_list (py_union existing_rep new_rep))))
  | None => Ok (JObj (dict_set kvs ip reputation))
  end.
Proof.
  unfold merge_reputation. simpl.
  destruct (dict_get kvs ip) as [v|] eqn:Hv; simpl; [|done].
  by rewrite ?bool_decide_true by eauto.
Qed.

Lemma merge_reputation_not_obj x ip reputation r :
  merge_reputation x ip reputation = Ok r → ∃ kvs, x = JObj kvs.
Proof.
  unfold merge_reputation.
  destruct x as [| | |s|l|kvs]; simpl; try done; [| |by eauto].
  - by destruct (substring_of ip s).
  - by destruct (existsb (is_str ip) l).
Qed.

(** One turn of the loop changes the value under its key only. *)
Lemma merge_reputation_shape x ip reputation r :
  merge_reputation x ip reputation = Ok r →
  ∃ kvs kvs', x = JObj kvs ∧ r = JObj kvs' ∧
    ∀ k, k ≠ ip → dict_get kvs' k = dict_get kvs k.
Proof.
  intros Hr. destruct (merge_reputation_not_obj _ _ _ _ Hr) as [kvs ->].
  rewrite merge_reputation_obj in Hr. exists kvs.
  destruct (dict_get kvs ip) as [v|] eqn:Hv.
  - destruct (py_set v) as [stored|] eqn:Hs; simpl in Hr; [|done].
    destruct (py_set reputation) as [new|] eqn:Hn; simpl in Hr; [|done].
    injection Hr as <-. eexists. split_and!; [done..|].
    intros k Hk. by apply dict_get_set_ne.
  - injection Hr as <-. eexists. split_and!; [done..|].
    intros k Hk. by apply dict_get_set_ne.
Qed.

(** After one turn of the loop on a list of tags, a list is stored
    under the key and holds a tag equal to each of them. *)
Lemma merge_reputation_first kvs ip reputation kvs' :
  is_list reputation →
  merge_reputation (JObj kvs) ip reputation = Ok (JObj kvs') →
  absorbed kvs' ip reputation.
Proof.
  intros Hlist. rewrite merge_reputation_obj.
  destruct (dict_get kvs ip) as [v|] eqn:Hv.
  - destruct (py_set v) as [stored|] eqn:Hs; simpl; [|done].
    destruct (py_set reputation) as [new|] eqn:Hn; simpl; [|done].
    intros [= <-]. eexists. split_and!; [apply dict_get_set_eq|done|].
    intros stored' new' Hs' Hn'.
    apply py_set_wf in Hs as Hwf. apply py_set_wf in Hn as Hwfn.
    rewrite py_set_py_list in Hs' by by apply py_union_wf.
    rewrite Hn in Hn'. injection Hs' as <-. injection Hn' as <-.
    rewrite py_union_union, dom_union by done. set_solver.
  - intros [= <-]. eexists. split_and!; [apply dict_get_set_eq|done|].
    intros stored' new' Hs' Hn'. rewrite Hs' in Hn'. by injection Hn' as ->.
Qed.

Lemma absorbed_same_lookup kvs kvs' ip reputation :
  dict_get kvs' ip = dict_get kvs ip →
  absorbed kvs ip reputation → absorbed kvs' ip reputation.
Proof. unfold absorbed. by intros ->. Qed.

Lemma merge_detailed_other_key items kvs kvs' k :
  k ∉ dict_keys items →
  merge_detailed items (JObj kvs) = Ok (JObj kvs') →
  dict_get kvs' k = dict_get kvs k.
Proof.
  revert kvs. induction items as [|[ip rep] items IH]; intros kvs Hk; simpl.
  - by intros [= ->].
  - apply not_elem_of_cons in Hk as [Hne Hk]. simpl in Hne.
    destruct (merge_reputation (JObj kvs) ip rep) as [x|] eqn:Hx; simpl; [|done].
    apply merge_reputation_shape in Hx as (kvs0 & kvs1 & [= <-] & -> & Hsame).
    intros Hrest. rewrite (IH kvs1 Hk Hrest). by apply Hsame.
Qed.

Lemma merge_detailed_obj items kvs r :
  merge_detailed items (JObj kvs) = Ok r → ∃ kvs', r = JObj kvs'.
Proof.
  revert kvs. induction items as [|[ip rep] items IH]; intros kvs; simpl.
  - intros [= <-]. eauto.
  - destruct (merge_reputation (JObj kvs) ip rep) as [x|] eqn:Hx; simpl; [|done].
    apply merge_reputation_shape in Hx as (kvs0 & kvs1 & _ & -> & _).
    apply IH.
Qed.

(** After a first merge of lists of tags, the tags of every new entry
    are stored. *)
Lemma merge_detailed_first items x r :
  NoDup (dict_keys items) →
  Forall (λ kv, is_list kv.2) items →
  merge_detailed items x = Ok r →
  (items = [] ∧ r = x) ∨
  ∃ kvs', r = JObj kvs' ∧
          ∀ ip rep, (ip, rep) ∈ items → absorbed kvs' ip rep.
Proof.
  revert x. induction items as [|[ip rep] items IH]; intros x Hnd Hlists; simpl.
  - intros [= <-]. by left.
  - apply NoDup_cons in Hnd as [Hout Hnd].
    apply Forall_cons in Hlists as [Hlist Hlists]. simpl in Hlist.
    intros Hrest. right.
    destruct (merge_reputation x ip rep) as [x1|] eqn:Hx; simpl in *; [|done].
    destruct (merge_reputation_shape _ _ _ _ Hx) as (kvs & kvs1 & -> & -> & _).
    apply (merge_reputation_first _ _ _ _ Hlist) in Hx as Habs.
    destruct (merge_detailed_obj _ _ _ Hrest) as [kvs' ->].
    exists kvs'. split; [done|].
    intros ip' rep' [[= -> ->]|Hin]%elem_of_cons.
    + eapply absorbed_same_lookup; [|exact Habs].
      by apply (merge_detailed_other_key items kvs1 kvs' ip).
    + destruct (IH (JObj kvs1) Hnd Hlists Hrest)
        as [[-> _]|(kvs2 & [= <-] & Hall)].
      * by apply elem_of_nil in Hin.
      * by apply Hall.
Qed.

(** Merging an entry whose tags are already stored changes no key and
    no set of tags. *)
Lemma merge_reputation_absorbed kvs ip reputation r :
  absorbed kvs ip reputation →
  merge_reputation (JObj kvs) ip reputation = Ok r →
  ∃ kvs', r = JObj kvs' ∧ same_entries kvs kvs' ∧
          ∀ ip' rep', absorbed kvs ip' rep' → absorbed kvs' ip' rep'.
Proof.
  intros (v & Hv & Hlist & Hsub). rewrite merge_reputation_obj, Hv.
  destruct (py_set v) as [stored|] eqn:Hs; simpl; [|done].
  destruct (py_set reputation) as [new|] eqn:Hn; simpl; [|done].
  intros [= <-]. eexists. split; [done|].
  apply py_set_wf in Hs as Hwf. apply py_set_wf in Hn as Hwfn.
  rewrite (py_union_absorbed stored new Hwfn (Hsub _ _ eq_refl eq_refl)).
  split.
  - apply (same_entries_set kvs ip v); [done|]. right. exists stored.
    by rewrite py_set_py_list.
  - intros ip' rep' (v' & Hv' & Hlist' & Hsub').
    destruct (decide (ip' = ip)) as [->|Hne].
    + exists (py_list stored). split_and!; [apply dict_get_set_eq|done|].
      intros stored' new'. rewrite py_set_py_list by done. intros [= <-] Hn'.
      simplify_eq. by apply Hsub'.
    + exists v'. split; [|done]. by rewrite dict_get_set_ne.
Qed.

Lemma merge_detailed_absorbed items kvs r :
  (∀ ip rep, (ip, rep) ∈ items → absorbed kvs ip rep) →
  merge_detailed items (JObj kvs) = Ok r →
  ∃ kvs', r = JObj kvs' ∧ same_entries kvs kvs'.
Proof.
  revert kvs. induction items as [|[ip rep] items IH]; intros kvs Habs; simpl.
  - intros [= <-]. eexists. split; [done|apply same_entries_refl].
  - destruct (merge_reputation (JObj kvs) ip rep) as [x|] eqn:Hx; simpl; [|done].
    apply merge_reputation_absorbed in Hx as (kvs1 & -> & Hsame & Hkeep);
      [|apply Habs; by left].
    intros Hrest. destruct (IH kvs1) as (kvs' & -> & Hsame'); [|done|].
    { intros ip' rep' Hin. apply Hkeep, Habs. by right. }
    eexists. split; [done|]. by eapply same_entries_trans.
Qed.

(** Merging the same new entries a second time keeps the keys, their
    order and the set of tags under each key. *)
Lemma merge_detailed_twice items x x1 x2 :
  NoDup (dict_keys items) →
  Forall (λ kv, is_list kv.2) items →
  merge_detailed items x = Ok x1 →
  merge_detailed items x1 = Ok x2 →
  x2 = x1 ∨
  ∃ kvs1 kvs2, x1 = JObj kvs1 ∧ x2 = JObj kvs2 ∧ same_entries kvs1 kvs2.
Proof.
  intros Hnd Hlists H1 H2.
  destruct (merge_detailed_first items x x1 Hnd Hlists H1)
    as [[-> ->]|(kvs1 & -> & Habs)].
  - left. simpl in H2. by injection H2.
  - right. destruct (merge_detailed_absorbed items kvs1 x2 Habs H2)
      as (kvs2 & -> & Hsame).
    eauto.
Qed.

(** ** Merge and persistence: merging twice *)

Lemma existing_entries `{JsonText} (σ : fs) path :
  match σ !! path with
  | Some f => read_entries (file_text f)
  | None => ∅
  end = from_option read_entries ∅ (file_text <$> σ !! path).
Proof. by destruct (σ !! path). Qed.

Lemma save_domains_twice `{JsonText} (σ : fs) domains filename now1 now2 :
  resolve_filename filename (now2 +:+ "_domain_data.txt")
    = resolve_filename filename (now1 +:+ "_domain_data.txt") →
  clean_set domains →
  save_domains_to_file domains filename now2
    (save_domains_to_file domains filename now1 σ).1
  = save_domains_to_file domains filename now1 σ.
Proof.
  intros Hname Hclean. rewrite !save_domains_to_file_unfold. cbv zeta.
  rewrite Hname. set (path := resolve_filename _ _). simpl.
  rewrite lookup_insert_eq. simpl.
  rewrite existing_entries.
  rewrite (flat_merge_idempotent (file_text <$> σ !! path) domains Hclean).
  by rewrite insert_insert_eq.
Qed.

Lemma same_detailed_refl f : same_detailed f f.
Proof. by left. Qed.

Lemma save_ip_data_twice `{JsonText} (σ : fs) ip_data filename detailed
    now1 now2 :
  let ip_path := resolve_filename filename (now1 +:+ "_ip_data.txt") in
  let detailed_path :=
    resolve_filename detailed (now1 +:+ "_ip_detailed.json") in
  resolve_filename filename (now2 +:+ "_ip_data.txt") = ip_path →
  resolve_filename detailed (now2 +:+ "_ip_detailed.json") = detailed_path →
  ip_path ≠ detailed_path →
  clean_set (list_to_set (dict_keys ip_data)) →
  NoDup (dict_keys ip_data) →
  Forall (λ kv, is_list kv.2) ip_data →
  let first := save_ip_data_to_file ip_data filename detailed now1 σ in
  let second := save_ip_data_to_file ip_data filename detailed now2 first.1 in
  (∀ path, path ≠ detailed_path → second.1 !! path = first.1 !! path) ∧
  same_detailed (first.1 !! detailed_path) (second.1 !! detailed_path).
Proof.
  intros p q Hname Hdet Hne Hclean Hnd Hlists. cbv zeta.
  rewrite !save_ip_data_to_file_unfold. cbv zeta.
  rewrite Hname, Hdet. fold p q.
  rewrite (existing_entries σ p).
  set (new := filter _ (list_to_set (dict_keys ip_data))).
  set (all := from_option read_entries ∅ (file_text <$> σ !! p) ∪ new).
  set (σa := <[p := Text (write_entries all)]> σ).
  set (x0 := match σa !! q with Some f => _ | None => _ end).
  assert (∀ τ : fs, τ !! p = Some (Text (write_entries all)) →
    match τ !! p with
    | Some f => read_entries (file_text f)
    | None => ∅
    end ∪ new = all) as Hflat.
  { intros τ ->. simpl.
    apply (flat_merge_idempotent (file_text <$> σ !! p) _ Hclean). }
  assert (σa !! p = Some (Text (write_entries all))) as Hp
    by (unfold σa; by rewrite lookup_insert_eq).
  destruct (merge_detailed ip_data x0) as [x1|e] eqn:Hfirst; simpl.
  - set (σ1 := <[q := Doc x1]> σa).
    assert (σ1 !! p = Some (Text (write_entries all))) as Hp1
      by (unfold σ1; by rewrite lookup_insert_ne).
    rewrite (Hflat σ1 Hp1), (insert_id σ1 p _ Hp1).
    assert (σ1 !! q = Some (Doc x1)) as Hq1
      by (unfold σ1; by rewrite lookup_insert_eq).
    rewrite Hq1. simpl.
    destruct (merge_detailed ip_data x1) as [x2|e] eqn:Hsecond; simpl.
    + split.
      * intros path Hpath. by rewrite lookup_insert_ne.
      * rewrite lookup_insert_eq, ?Hq1.
        destruct (merge_detailed_twice ip_data x0 x1 x2 Hnd Hlists Hfirst Hsecond)
          as [->|(kvs1 & kvs2 & -> & -> & Hsame)]; [by left|].
        right. eauto.
    + split; [done|]. rewrite ?Hq1. apply same_detailed_refl.
  - rewrite (Hflat σa Hp), (insert_id σa p _ Hp). fold x0. rewrite Hfirst.
    simpl. split; [done|apply same_detailed_refl].
Qed.

(** A domain with a leading space is written as it is and read back
    stripped, so the second merge adds a line; a reputation with a
    repeated tag is stored as it is by the first merge and without the
    repetition by the second. *)
Lemma merge_not_idempotent :
  (save_domains_to_file (H := plain_text) {[" a.example.com"]}
     (Some "domains.txt") "T" ∅).1 !! "data/domains.txt"
    = Some (Text (" a.example.com" +:+ newline)) ∧
  (save_domains_to_file (H := plain_text) {[" a.example.com"]}
     (Some "domains.txt") "T"
     (save_domains_to_file (H := plain_text) {[" a.example.com"]}
        (Some "domains.txt") "T" ∅).1).1 !! "data/domains.txt"
    = Some (Text (" a.example.com" +:+ newline +:+
                  "a.example.com" +:+ newline)) ∧
  (save_ip_data_to_file (H := plain_text)
     [("1.2.3.4", JArr [JStr "bot"; JStr "bot"])]
     (Some "ips.txt") (Some "ips.json") "T" ∅).1 !! "data/ips.json"
    = Some (Doc (JObj [("1.2.3.4", JArr [JStr "bot"; JStr "bot"])])) ∧
  (save_ip_data_to_file (H := plain_text)
     [("1.2.3.4", JArr [JStr "bot"; JStr "bot"])]
     (Some "ips.txt") (Some "ips.json") "T"
     (save_ip_data_to_file (H := plain_text)
        [("1.2.3.4", JArr [JStr "bot"; JStr "bot"])]
        (Some "ips.txt") (Some "ips.json") "T" ∅).1).1 !! "data/ips.json"
    = Some (Doc (JObj [("1.2.3.4", JArr [JStr "bot"])])).
Proof. split_and!; by vm_compute. Qed.

(** C1 (amended). Merging twice.  When the second merge addresses the
    files of the first, the flat IP file and the detailed file being
    different files, every new domain and every new IP key is blank or
    clean (stripping leaves it unchanged and it contains no line break)
    and every new reputation is a list: a second [save_domains_to_file]
    with the same domains leaves the working directory and the returned
    set exactly as the first left them; a second [save_ip_data_to_file]
    with the same dictionary leaves every file but the detailed one, the
    flat IP file included, exactly as the first left it, and leaves the
    detailed file either unchanged or with the same keys in the same
    order and, under each key, a list of the same tags: the two lists
    differ at most by the order of the tags and by tags that repeat an
    earlier one, where a tag repeats another when Python's [set] takes
    them for equal ([true] and [1], [false] and [0] included). *)
Theorem merge_idempotent `{JsonText} (σ : fs) (domains : gset string)
    (ip_data : pydict json) (domain_file ip_file detailed_file : option string)
    (now1 now2 : string) :
  let domain_path := resolve_filename domain_file (now1 +:+ "_domain_data.txt") in
  let ip_path := resolve_filename ip_file (now1 +:+ "_ip_data.txt") in
  let detailed_path :=
    resolve_filename detailed_file (now1 +:+ "_ip_detailed.json") in
  resolve_filename domain_file (now2 +:+ "_domain_data.txt") = domain_path →
  resolve_filename ip_file (now2 +:+ "_ip_data.txt") = ip_path →
  resolve_filename detailed_file (now2 +:+ "_ip_detailed.json") = detailed_path →
  ip_path ≠ detailed_path →
  clean_set domains →
  clean_set (list_to_set (dict_keys ip_data)) →
  NoDup (dict_keys ip_data) →
  Forall (λ kv, is_list kv.2) ip_data →
  (let first := save_domains_to_file domains domain_file now1 σ in
   save_domains_to_file domains domain_file now2 first.1 = first) ∧
  (let first := save_ip_data_to_file ip_data ip_file detailed_file now1 σ in
   let second :=
     save_ip_data_to_file ip_data ip_file detailed_file now2 first.1 in
   second.1 !! ip_path = first.1 !! ip_path ∧
   (∀ path, path ≠ detailed_path → second.1 !! path = first.1 !! path) ∧
   same_detailed (first.1 !! detailed_path) (second.1 !! detailed_path)).
Proof.
  intros domain_path ip_path detailed_path Hdom Hip Hdet Hne Hcd Hci Hnd Hlists.
  split.
  - by apply save_domains_twice.
  - cbv zeta.
    destruct (save_ip_data_twice σ ip_data ip_file detailed_file now1 now2
                Hip Hdet Hne Hci Hnd Hlists) as [Hframe Hsame].
    split_and!; [by apply Hframe|done|done].
Qed.

Lemma merge_idempotent_witness :
  save_domains_to_file (H := plain_text) {["evil.example.com"; "  "]}
    (Some "domains.txt") "T2"
    (save_domains_to_file (H := plain_text) {["evil.example.com"; "  "]}
       (Some "domains.txt") "T1"
       {["data/ips.txt" := Text ("9.9.9.9" +:+ newline);
         "data/ips.json" := Doc (JObj [("1.2.3.4", JArr [JStr "tor"])])]}).1
  = save_domains_to_file (H := plain_text) {["evil.example.com"; "  "]}
      (Some "domains.txt") "T1"
      {["data/ips.txt" := Text ("9.9.9.9" +:+ newline);
        "data/ips.json" := Doc (JObj [("1.2.3.4", JArr [JStr "tor"])])]} ∧
  same_detailed
    ((save_ip_data_to_file (H := plain_text)
        [("1.2.3.4", JArr [JStr "bot"; JStr "bot"]);
         ("5.6.7.8", JArr [JNum 1; JBool true; JStr "bot"])]
        (Some "ips.txt") (Some "ips.json") "T1"
        {["data/ips.txt" := Text ("9.9.9.9" +:+ newline);
          "data/ips.json" := Doc (JObj [("1.2.3.4", JArr [JStr "tor"])])]}).1
       !! "data/ips.json")
    ((save_ip_data_to_file (H := plain_text)
        [("1.2.3.4", JArr [JStr "bot"; JStr "bot"]);
         ("5.6.7.8", JArr [JNum 1; JBool true; JStr "bot"])]
        (Some "ips.txt") (Some "ips.json") "T2"
        (save_ip_data_to_file (H := plain_text)
           [("1.2.3.4", JArr [JStr "bot"; JStr "bot"]);
            ("5.6.7.8", JArr [JNum 1; JBool true; JStr "bot"])]
           (Some "ips.txt") (Some "ips.json") "T1"
           {["data/ips.txt" := Text ("9.9.9.9" +:+ newline);
             "data/ips.json" := Doc (JObj [("1.2.3.4", JArr [JStr "tor"])])]}).1).1
       !! "data/ips.json").
Proof.
  assert (clean_set {["evil.example.com"; "  "]}) as Hdomains.
  { unfold clean_set. apply (bool_decide_unpack _). vm_compute. exact I. }
  assert (clean_set (list_to_set (dict_keys
            [("1.2.3.4", JArr [JStr "bot"; JStr "bot"]);
             ("5.6.7.8", JArr [JNum 1; JBool true; JStr "bot"])]))) as Hkeys.
  { unfold clean_set. apply (bool_decide_unpack _). vm_compute. exact I. }
  assert (NoDup (dict_keys
            [("1.2.3.4", JArr [JStr "bot"; JStr "bot"]);
             ("5.6.7.8", JArr [JNum 1; JBool true; JStr "bot"])])) as Hnd.
  { apply (bool_decide_unpack _). vm_compute. exact I. }
  assert (Forall (λ kv : string * json, is_list kv.2)
            [("1.2.3.4", JArr [JStr "bot"; JStr "bot"]);
             ("5.6.7.8", JArr [JNum 1; JBool true; JStr "bot"])]) as Hlists.
  { repeat constructor. }
  assert (resolve_filename (Some "ips.txt") ("T1" +:+ "_ip_data.txt")
          ≠ resolve_filename (Some "ips.json") ("T1" +:+ "_ip_detailed.json"))
    as Hne.
  { vm_compute. discriminate. }
  destruct (merge_idempotent (H := plain_text)
              {["data/ips.txt" := Text ("9.9.9.9" +:+ newline);
                "data/ips.json" := Doc (JObj [("1.2.3.4", JArr [JStr "tor"])])]}
              {["evil.example.com"; "  "]}
              [("1.2.3.4", JArr [JStr "bot"; JStr "bot"]);
               ("5.6.7.8", JArr [JNum 1; JBool true; JStr "bot"])]
              (Some "domains.txt") (Some "ips.txt") (Some "ips.json") "T1" "T2"
              eq_refl eq_refl eq_refl Hne Hdomains Hkeys Hnd Hlists)
    as [Hdom (_ & _ & Hsame)].
  split; [exact Hdom|exact Hsame].
Defined.

(** The detailed file after each of the two merges of the entry
    [5.6.7.8: [1, true]]: the first stores the list as given, the second
    the list [set] makes of it, where [true] repeats [1].  Likewise
    merging [true] into a stored [1] keeps the [1], and merging [1] into
    a stored [true] keeps the [true]. *)
Lemma merge_twice_true_is_one :
  merge_detailed [("5.6.7.8", JArr [JBool true])]
                 (JObj [("5.6.7.8", JArr [JNum 1])])
    = Ok (JObj [("5.6.7.8", JArr [JNum 1])]) ∧
  merge_detailed [("5.6.7.8", JArr [JNum 1])]
                 (JObj [("5.6.7.8", JArr [JBool true])])
    = Ok (JObj [("5.6.7.8", JArr [JBool true])]) ∧
  (save_ip_data_to_file (H := plain_text)
     [("5.6.7.8", JArr [JNum 1; JBool true])]
     (Some "ips.txt") (Some "ips.json") "T" ∅).1 !! "data/ips.json"
    = Some (Doc (JObj [("5.6.7.8", JArr [JNum 1; JBool true])])) ∧
  (save_ip_data_to_file (H := plain_text)
     [("5.6.7.8", JArr [JNum 1; JBool true])]
     (Some "ips.txt") (Some "ips.json") "T"
     (save_ip_data_to_file (H := plain_text)
        [("5.6.7.8", JArr [JNum 1; JBool true])]
        (Some "ips.txt") (Some "ips.json") "T" ∅).1).1 !! "data/ips.json"
    = Some (Doc (JObj [("5.6.7.8", JArr [JNum 1])])).
Proof. split_and!; by vm_compute. Qed.

(** ** Blank entries *)

(** C2 (the code at the failing input). A blank key of [ip_data] is
    kept out of the flat IP file but goes into the detailed file. *)
Lemma blank_ip_persisted :
  (save_ip_data_to_file (H := plain_text)
     [("", JArr [JStr "bot"]); ("  ", JArr []); ("1.2.3.4", JArr [])]
     (Some "ips.txt") (Some "ips.json") "T" ∅).1
  = {["data/ips.txt" := Text ("1.2.3.4" +:+ newline);
      "data/ips.json" :=
        Doc (JObj [("", JArr [JStr "bot"]); ("  ", JArr []);
                   ("1.2.3.4", JArr [])])]}.
Proof. by vm_compute. Qed.

(** * Further properties *)

(** ** What the extractor returns *)

Lemma nonblank_str_Some x s : nonblank_str x = Ok (Some s) → x = JStr s ∧ nonblank s.
Proof.
  unfold nonblank_str. destruct (truthy x); [|done].
  destruct x as [| | |t| |]; try done.
  destruct (nonblank t) eqn:Ht; intros [= <-]. split; [done|]. by rewrite Ht.
Qed.

Lemma nonblank_str_None x :
  nonblank_str x = Ok None → ∀ s, x = JStr s → ¬ nonblank s.
Proof.
  unfold nonblank_str. intros Hx s ->. simpl in Hx.
  destruct (is_empty s) eqn:He; simpl in Hx.
  - apply is_empty_true in He as ->. by intros [].
  - destruct (nonblank s); [done|]. by intros [].
Qed.

(** The first half of the loop body assigns the nested [ip] when it is a
    str that is not blank, and nothing otherwise. *)
Lemma extract_ip_spec incident d d' :
  extract_ip incident d = Ok d' →
  (∃ ip reputation,
     attack_ip incident = Some ip ∧ nonblank ip ∧
     d' = dict_set d ip reputation) ∨
  (d' = d ∧ ∀ ip, attack_ip incident = Some ip → ¬ nonblank ip).
Proof.
  unfold extract_ip, has_nested.
  destruct incident as [| | |s|l|kvs]; simpl; try done.
  - destruct (substring_of _ s); simpl; [done|]. intros [= <-]. by right.
  - destruct (existsb _ l); simpl; [done|]. intros [= <-]. by right.
  - destruct (dict_get kvs "dominant_attack_ip") as [nested|] eqn:Hn; simpl;
      [|intros [= <-]; by right].
    rewrite ?bool_decide_true by eauto. simpl.
    destruct nested as [| | |s|l|n]; simpl; try done.
    + destruct (substring_of _ s); simpl; [done|]. intros [= <-]. by right.
    + destruct (existsb _ l); simpl; [done|]. intros [= <-]. by right.
    + destruct (dict_get n "ip") as [x|] eqn:Hx; simpl;
        [|intros [= <-]; by right].
      rewrite ?bool_decide_true by eauto. simpl.
      destruct (nonblank_str x) as [[ip|]|] eqn:Hnb; simpl; [| |done].
      * apply nonblank_str_Some in Hnb as [-> Hnb]. intros [= <-].
        left. eauto.
      * intros [= <-]. right. split; [done|].
        intros ip Hip. destruct x as [| | |t| |]; try done.
        injection Hip as <-. by apply (nonblank_str_None _ Hnb).
Qed.

Lemma extract_domain_spec incident s s' :
  extract_domain incident s = Ok s' →
  (∃ domain,
     attacked_host incident = Some domain ∧ nonblank domain ∧
     s' = s ∪ {[domain]}) ∨
  (s' = s ∧ ∀ domain, attacked_host incident = Some domain → ¬ nonblank domain).
Proof.
  unfold extract_domain, has_nested.
  destruct incident as [| | |t|l|kvs]; simpl; try done.
  - destruct (substring_of _ t); simpl; [done|]. intros [= <-]. by right.
  - destruct (existsb _ l); simpl; [done|]. intros [= <-]. by right.
  - destruct (dict_get kvs "dominant_attacked_host") as [nested|] eqn:Hn; simpl;
      [|intros [= <-]; by right].
    rewrite ?bool_decide_true by eauto. simpl.
    destruct nested as [| | |t|l|n]; simpl; try done.
    + destruct (substring_of _ t); simpl; [done|]. intros [= <-]. by right.
    + destruct (existsb _ l); simpl; [done|]. intros [= <-]. by right.
    + destruct (dict_get n "value") as [x|] eqn:Hx; simpl;
        [|intros [= <-]; by right].
      rewrite ?bool_decide_true by eauto. simpl.
      destruct (nonblank_str x) as [[domain|]|] eqn:Hnb; simpl; [| |done].
      * apply nonblank_str_Some in Hnb as [-> Hnb]. intros [= <-].
        left. eauto.
      * intros [= <-]. right. split; [done|].
        intros domain Hd. destruct x as [| | |t| |]; try done.
        injection Hd as <-. by apply (nonblank_str_None _ Hnb).
Qed.

Lemma dict_keys_set_iff {V} (d : pydict V) k v k' :
  k' ∈ dict_keys (dict_set d k v) ↔ k' ∈ dict_keys d ∨ k' = k.
Proof.
  destruct (decide (k ∈ dict_keys d)) as [Hin|Hout].
  - rewrite dict_keys_set_present by done. naive_solver.
  - rewrite dict_keys_set_absent by done. set_solver.
Qed.

Lemma extract_loop_spec incidents acc acc' :
  extract_loop incidents acc = Ok acc' →
  (∀ ip, ip ∈ dict_keys acc'.1 ↔
         ip ∈ dict_keys acc.1 ∨
         (nonblank ip ∧ ∃ i, i ∈ incidents ∧ attack_ip i = Some ip)) ∧
  (∀ domain, domain ∈ acc'.2 ↔
             domain ∈ acc.2 ∨
             (nonblank domain ∧ ∃ i, i ∈ incidents ∧ attacked_host i = Some domain)).
Proof.
  revert acc. induction incidents as [|i l IH]; intros acc; simpl.
  - intros [= <-]. split; intros x; split; [by left| |by left|];
      intros [?|(_ & j & []%elem_of_nil & _)]; done.
  - destruct (extract_step acc i) as [acc1|] eqn:Hstep; simpl; [|done].
    intros Hrest. destruct (IH _ Hrest) as [Hkeys Hdoms]. clear IH.
    unfold extract_step in Hstep.
    destruct (extract_ip i acc.1) as [d1|] eqn:Hip; simpl in Hstep; [|done].
    destruct (extract_domain i acc.2) as [s1|] eqn:Hdom; simpl in Hstep; [|done].
    injection Hstep as <-. simpl in *.
    apply extract_ip_spec in Hip. apply extract_domain_spec in Hdom. split.
    + intros ip. rewrite Hkeys. clear Hkeys Hdoms.
      destruct Hip as [(k & rep & Hk & Hnb & ->)|[-> Hblank]].
      * rewrite dict_keys_set_iff. split.
        -- intros [[?| ->]|(? & j & Hj & ?)]; [by left|right..].
           ++ split; [done|]. exists i. split; [by left|done].
           ++ split; [done|]. exists j. split; [by right|done].
        -- intros [?|(? & j & [->|Hj]%elem_of_cons & Hjk)].
           ++ by left; left.
           ++ left; right. congruence.
           ++ right. eauto.
      * split.
        -- intros [?|(? & j & Hj & ?)]; [by left|right].
           split; [done|]. exists j. split; [by right|done].
        -- intros [?|(Hnb & j & [->|Hj]%elem_of_cons & Hjk)]; [by left| |].
           ++ by destruct (Hblank ip Hjk).
           ++ right. eauto.
    + intros domain. rewrite Hdoms. clear Hkeys Hdoms.
      destruct Hdom as [(k & Hk & Hnb & ->)|[-> Hblank]].
      * rewrite elem_of_union, elem_of_singleton. split.
        -- intros [[?| ->]|(? & j & Hj & ?)]; [by left|right..].
           ++ split; [done|]. exists i. split; [by left|done].
           ++ split; [done|]. exists j. split; [by right|done].
        -- intros [?|(? & j & [->|Hj]%elem_of_cons & Hjk)].
           ++ by left; left.
           ++ left; right. congruence.
           ++ right. eauto.
      * split.
        -- intros [?|(? & j & Hj & ?)]; [by left|right].
           split; [done|]. exists j. split; [by right|done].
        -- intros [?|(Hnb & j & [->|Hj]%elem_of_cons & Hjk)]; [by left| |].
           ++ by destruct (Hblank domain Hjk).
           ++ right. eauto.
Qed.

(** X1. What a successful extraction returns: the keys of the IP
    dictionary are, without repetition, exactly the nested [ip] strings
    of the incidents that are not blank, and the domain set holds
    exactly the nested [value] strings that are not blank.  In
    particular no blank IP or domain leaves the extractor. *)
Theorem extract_characterised (incidents : list json)
    (ip_data : pydict json) (domains : gset string) :
  extract_data_from_incidents (JArr incidents) = Ok (ip_data, domains) →
  NoDup (dict_keys ip_data) ∧
  (∀ ip, ip ∈ dict_keys ip_data ↔
         nonblank ip ∧ ∃ i, i ∈ incidents ∧ attack_ip i = Some ip) ∧
  (∀ domain, domain ∈ domains ↔
             nonblank domain ∧
             ∃ i, i ∈ incidents ∧ attacked_host i = Some domain).
Proof.
  unfold extract_data_from_incidents. simpl. intros Hloop.
  split; [|split].
  - apply (extract_loop_NoDup incidents ([], ∅) (ip_data, domains));
      [constructor|done].
  - intros ip. destruct (extract_loop_spec _ _ _ Hloop) as [Hkeys _].
    rewrite (Hkeys ip). simpl. split; [|by right].
    by intros [?%elem_of_nil|?].
  - intros domain. destruct (extract_loop_spec _ _ _ Hloop) as [_ Hdoms].
    rewrite (Hdoms domain). simpl. split; [|by right].
    by intros [?%elem_of_empty|?].
Qed.

Lemma extract_characterised_witness :
  NoDup (dict_keys [("1.2.3.4", JArr [JStr "tor"]); ("9.9.9.9", JArr [])]) ∧
  ("9.9.9.9" ∈ dict_keys [("1.2.3.4", JArr [JStr "tor"]); ("9.9.9.9", JArr [])] ↔
   nonblank "9.9.9.9" ∧
   ∃ i, i ∈ [sample_incident "1.2.3.4" ["bot"] "evil.example.com";
             sample_incident "9.9.9.9" [] "a.example.com";
             sample_incident "1.2.3.4" ["tor"] "  "] ∧
        attack_ip i = Some "9.9.9.9").
Proof.
  destruct (extract_characterised
              [sample_incident "1.2.3.4" ["bot"] "evil.example.com";
               sample_incident "9.9.9.9" [] "a.example.com";
               sample_incident "1.2.3.4" ["tor"] "  "]
              [("1.2.3.4", JArr [JStr "tor"]); ("9.9.9.9", JArr [])]
              {["evil.example.com"; "a.example.com"]})
    as (Hnd & Hkeys & _).
  - vm_compute. reflexivity.
  - split; [exact Hnd|exact (Hkeys "9.9.9.9")].
Defined.

(** ** The pagination loop on any server *)

Section fetch_more.
Context (w : world) (caid : pyval) (since_timestamp : option Z) (page_size : Z).

Lemma fetch_loop_trace (fuel : nat) :
  ∀ (page : Z) (acc : list json),
    ∃ k : nat,
      (k ≤ fuel)%nat ∧
      (fetch_loop w caid since_timestamp page_size fuel page acc).1 =
        (λ i, page_request w caid since_timestamp page_size (page + Z.of_nat i))
          <$> seq 0 k ∧
      match (fetch_loop w caid since_timestamp page_size fuel page acc).2 with
      | None => k = fuel
      | Some _ => (0 < k)%nat
      end.
Proof.
  induction fuel as [|fuel IH]; intros page acc; simpl.
  { exists 0%nat. by split_and!. }
  assert (∃ k : nat, (k ≤ S fuel)%nat ∧
      [page_request w caid since_timestamp page_size page] =
        (λ i, page_request w caid since_timestamp page_size (page + Z.of_nat i))
          <$> seq 0 k ∧ (0 < k)%nat) as Hone.
  { exists 1%nat. split_and!; [lia| |lia].
    simpl. by rewrite Z.add_0_r. }
  destruct (status_code _ =? 200); [|simpl; by apply Hone].
  destruct (response_json _ ≫= page_incidents) as [incidents|e];
    [|simpl; by apply Hone].
  destruct (Z.of_nat (length incidents) <? page_size); [simpl; by apply Hone|].
  destruct (IH (page + 1) (acc ++ incidents)) as (k & Hk & Hreqs & Hend).
  destruct (fetch_loop _ _ _ _ fuel _ _) as [reqs r]. simpl in *.
  exists (S k). split_and!; [lia| |].
  - rewrite Hreqs. simpl. rewrite Z.add_0_r. f_equal.
    rewrite <- fmap_S_seq, <- list_fmap_compose.
    apply list_fmap_ext. intros _ i _. simpl. f_equal. lia.
  - destruct r; lia.
Qed.

(** X2. Whatever the server answers, the requests of a fetch are those
    for pages 1, 2, ..., k in this order, for some [k] that is at most
    the number of turns: no page is requested twice or skipped.  When
    the loop has ended at least one request was sent; when it has not,
    every turn sent one. *)
Theorem fetch_requests_consecutive (fuel : nat) :
  ∃ k : nat,
    (k ≤ fuel)%nat ∧
    (fetch_all_incidents_with_pagination w caid since_timestamp page_size
                                         fuel).1 =
      (λ i, page_request w caid since_timestamp page_size (1 + Z.of_nat i))
        <$> seq 0 k ∧
    match (fetch_all_incidents_with_pagination w caid since_timestamp
                                               page_size fuel).2 with
    | None => k = fuel
    | Some _ => (0 < k)%nat
    end.
Proof. apply fetch_loop_trace. Qed.

(** After the full pages the loop goes on from the next page with what
    it has accumulated. *)
Lemma fetch_loop_full_prefix (full : list (list json)) :
  ∀ (fuel : nat) (page : Z) (acc : list json),
    (∀ i items, full !! i = Some items →
       full_page w caid since_timestamp page_size (page + Z.of_nat i) items) →
    fetch_loop w caid since_timestamp page_size (length full + fuel) page acc =
    (((λ i, page_request w caid since_timestamp page_size (page + Z.of_nat i))
        <$> seq 0 (length full)) ++
     (fetch_loop w caid since_timestamp page_size fuel
                 (page + Z.of_nat (length full)) (acc ++ concat full)).1,
     (fetch_loop w caid since_timestamp page_size fuel
                 (page + Z.of_nat (length full)) (acc ++ concat full)).2).
Proof.
  induction full as [|items full IH]; intros fuel page acc Hfull.
  - simpl. rewrite Z.add_0_r, app_nil_r. by destruct (fetch_loop _ _ _ _ _ _ _).
  - destruct (Hfull 0%nat items eq_refl) as (Hst & (body & Hbody & Hitems) & Hlen).
    rewrite Z.add_0_r in *. cbn [length Nat.add fetch_loop].
    rewrite Hst. simpl. unfold response_json. rewrite Hbody. simpl.
    rewrite Hitems. apply Z.ltb_ge in Hlen. rewrite Hlen.
    rewrite (IH fuel (page + 1) (acc ++ items)).
    2:{ intros i items' Hi.
        replace (page + 1 + Z.of_nat i) with (page + Z.of_nat (S i)) by lia.
        by apply Hfull. }
    replace (page + 1 + Z.of_nat (length full))
      with (page + Z.of_nat (S (length full))) by lia.
    rewrite <- !app_assoc. f_equal. simpl. f_equal.
    + by rewrite Z.add_0_r.
    + f_equal. rewrite <- fmap_S_seq, <- list_fmap_compose.
      apply list_fmap_ext. intros _ i _. simpl. f_equal. lia.
Qed.

(** X3. The loop has no bound of its own: when every page is full (200
    with at least [page_size] incidents, which any 200 page is when
    [page_size] is zero or negative), no number of turns ends the fetch,
    and every turn sends a request. *)
Theorem fetch_never_ends (pages : nat → list json) (fuel : nat) :
  (∀ i, full_page w caid since_timestamp page_size (1 + Z.of_nat i) (pages i)) →
  fetch_all_incidents_with_pagination w caid since_timestamp page_size fuel =
  ((λ i, page_request w caid since_timestamp page_size (1 + Z.of_nat i))
     <$> seq 0 fuel,
   None).
Proof.
  intros Hfull. unfold fetch_all_incidents_with_pagination.
  pose proof (fetch_loop_full_prefix (pages <$> seq 0 fuel) 0 1 []) as Hloop.
  rewrite length_fmap, length_seq, Nat.add_0_r in Hloop.
  rewrite Hloop; [by rewrite app_nil_r|].
  intros i items Hi. apply list_lookup_fmap_Some in Hi as (j & -> & Hj).
  apply lookup_seq in Hj as [-> _]. apply Hfull.
Qed.

(** X4. A page that answers 200 with a body the loop cannot use (no
    JSON: [ValueError]; a true number or [true]: [TypeError]) makes the
    whole fetch raise: the incidents of the full pages before it are not
    returned, unlike after a page that answers with another status. *)
Theorem fetch_unusable_page_raises (full : list (list json)) (e : exn)
    (fuel : nat) :
  (∀ i items, full !! i = Some items →
     full_page w caid since_timestamp page_size (1 + Z.of_nat i) items) →
  status_code (http_get w (page_request w caid since_timestamp page_size
                                        (1 + Z.of_nat (length full)))) = 200 →
  response_json (http_get w (page_request w caid since_timestamp page_size
                                          (1 + Z.of_nat (length full))))
    ≫= page_incidents = Raise e →
  (length full < fuel)%nat →
  fetch_all_incidents_with_pagination w caid since_timestamp page_size fuel =
  ((λ i, page_request w caid since_timestamp page_size (1 + Z.of_nat i))
     <$> seq 0 (S (length full)),
   Some (Raise e)).
Proof.
  intros Hfull Hst Hbody Hfuel. unfold fetch_all_incidents_with_pagination.
  rewrite seq_S, fmap_app.
  replace fuel with (length full + S (fuel - S (length full)))%nat by lia.
  rewrite (fetch_loop_full_prefix full _ 1 [] Hfull).
  cbn [fetch_loop]. rewrite Hst. cbn [Z.eqb Pos.eqb]. rewrite Hbody. done.
Qed.

End fetch_more.

Lemma fetch_never_ends_witness :
  fetch_all_incidents_with_pagination
    (sample_world credentials always_empty) (VStr "1234") None 0 3 =
  ([page_request (sample_world credentials always_empty) (VStr "1234") None 0 1;
    page_request (sample_world credentials always_empty) (VStr "1234") None 0 2;
    page_request (sample_world credentials always_empty) (VStr "1234") None 0 3],
   None).
Proof.
  apply (fetch_never_ends (sample_world credentials always_empty)
           (VStr "1234") None 0 (λ _, []) 3).
  intros i. unfold full_page. simpl.
  split; [reflexivity|]. split; [|lia].
  eexists. split; reflexivity.
Defined.

Lemma fetch_unusable_page_raises_witness :
  fetch_all_incidents_with_pagination
    (sample_world credentials garbled_second) (VStr "1234") None 2 5 =
  ([page_request (sample_world credentials garbled_second) (VStr "1234") None 2 1;
    page_request (sample_world credentials garbled_second) (VStr "1234") None 2 2],
   Some (Raise ValueError)).
Proof.
  apply (fetch_unusable_page_raises (sample_world credentials garbled_second)
           (VStr "1234") None 2
           [[sample_incident "1.2.3.4" ["bot"] "evil.example.com";
             sample_incident "9.9.9.9" [] "a.example.com"]]
           ValueError 5).
  - intros [|i] items Hi; simpl in Hi; [|by destruct i].
    injection Hi as <-. unfold full_page. simpl.
    split; [reflexivity|]. split; [|lia].
    eexists. split; reflexivity.
  - reflexivity.
  - reflexivity.
  - simpl. lia.
Defined.

(** ** What the flat files hold *)

Lemma sorted_Sorted (xs : gset string) : Sorted String.le (sorted xs).
Proof. apply (Sorted_merge_sort _). Qed.

Lemma sorted_NoDup (xs : gset string) : NoDup (sorted xs).
Proof. rewrite sorted_Permutation. apply NoDup_elements. Qed.

(** The lines written for a set without blank entries are its entries,
    in increasing order and once each. *)
Lemma write_entries_lines (xs : gset string) :
  set_Forall (λ x, nonblank x) xs →
  write_entries xs = write_lines (sorted xs).
Proof.
  intros Hxs. unfold write_entries. f_equal.
  assert (Forall (λ x, nonblank x) (sorted xs)) as Hall.
  { apply Forall_forall. intros x Hx%elem_of_sorted. by apply Hxs. }
  induction Hall as [|x l Hx Hl IH]; [done|].
  by rewrite filter_cons_True, IH.
Qed.

Lemma merged_entries_clean (existing : option string) (new : gset string) :
  clean_set new →
  set_Forall (λ x, clean_entry x ∧ nonblank x)
    (from_option read_entries ∅ existing ∪ filter (λ x, nonblank x) new).
Proof.
  intros Hclean x [Hx|[Hnb Hx]%elem_of_filter]%elem_of_union.
  - destruct existing as [content|]; simpl in Hx; [|set_solver].
    by apply read_entries_clean in Hx.
  - split; [by apply Hclean|done].
Qed.

(** The lines of a flat file written for a set of clean entries. *)
Lemma flat_file_lines (all : gset string) :
  set_Forall (λ x, clean_entry x ∧ nonblank x) all →
  write_entries all = write_lines (sorted all) ∧
  readlines (write_lines (sorted all)) = (λ x, x +:+ newline) <$> sorted all ∧
  Sorted String.le (sorted all) ∧ NoDup (sorted all) ∧
  Forall (λ x, nonblank x ∧ clean_entry x) (sorted all).
Proof.
  intros Hall.
  assert (Forall (λ x, nonblank x ∧ clean_entry x) (sorted all)) as Hl.
  { apply Forall_forall. intros x Hx%elem_of_sorted.
    by destruct (Hall x Hx). }
  split_and!; [| |apply sorted_Sorted|apply sorted_NoDup|done].
  - apply write_entries_lines. intros x Hx. by destruct (Hall x Hx).
  - apply readlines_write_lines. eapply Forall_impl; [exact Hl|].
    intros x [_ Hx]. by apply clean_entry_no_break.
Qed.

(** X6. The lines of the domain file.  When the new domains are blank
    or clean (stripping leaves them unchanged and they contain no line
    break), the file after [save_domains_to_file], read line by line,
    is a list of entries each followed by a line feed; the entries are
    in increasing order, without repetition, none of them blank; they
    are exactly the entries read from the previous file together with
    the new domains that are not blank; and this is the set returned. *)
Theorem save_domains_file_content `{JsonText} (σ : fs) (domains : gset string)
    (filename : option string) (now : string) :
  clean_set domains →
  let path := resolve_filename filename (now +:+ "_domain_data.txt") in
  let existing := from_option read_entries ∅ (file_text <$> σ !! path) in
  let after := save_domains_to_file domains filename now σ in
  ∃ (content : string) (l : list string),
    after = (<[path := Text content]> σ, Ok (list_to_set l)) ∧
    readlines content = (λ x, x +:+ newline) <$> l ∧
    Sorted String.le l ∧ NoDup l ∧
    Forall (λ x, nonblank x ∧ clean_entry x) l ∧
    ∀ x, x ∈ l ↔ x ∈ existing ∨ (x ∈ domains ∧ nonblank x).
Proof.
  intros Hclean path existing after. unfold after.
  rewrite save_domains_to_file_unfold. cbv zeta.
  fold path. rewrite existing_entries. fold existing.
  set (all := existing ∪ filter (λ d, nonblank d) domains).
  pose proof (merged_entries_clean (file_text <$> σ !! path) domains Hclean)
    as Hall.
  fold existing all in Hall.
  destruct (flat_file_lines all Hall) as (Hw & Hlines & Hsorted & Hnd & Hl).
  exists (write_lines (sorted all)), (sorted all). split_and!; try done.
  - rewrite Hw. do 2 f_equal.
    apply set_eq. intros x. by rewrite elem_of_list_to_set, elem_of_sorted.
  - intros x. rewrite elem_of_sorted. unfold all.
    rewrite elem_of_union, elem_of_filter. naive_solver.
Qed.

Lemma save_domains_file_content_witness :
  ∃ (content : string) (l : list string),
    save_domains_to_file (H := plain_text) {["b.example.com"; "  "]}
      (Some "domains.txt") "T"
      {["data/domains.txt" :=
          Text ("z.example.com" +:+ newline +:+ newline +:+
                " a.example.com " +:+ newline)]}
    = (<["data/domains.txt" := Text content]>
         {["data/domains.txt" :=
             Text ("z.example.com" +:+ newline +:+ newline +:+
                   " a.example.com " +:+ newline)]},
       Ok (list_to_set l)) ∧
    readlines content = (λ x, x +:+ newline) <$> l ∧
    Sorted String.le l ∧ NoDup l.
Proof.
  destruct (save_domains_file_content (H := plain_text)
              {["data/domains.txt" :=
                  Text ("z.example.com" +:+ newline +:+ newline +:+
                        " a.example.com " +:+ newline)]}
              {["b.example.com"; "  "]} (Some "domains.txt") "T")
    as (content & l & Hsave & Hlines & Hsorted & Hnd & _).
  - unfold clean_set. apply (bool_decide_unpack _). vm_compute. exact I.
  - exists content, l. split_and!; [exact Hsave|exact Hlines|exact Hsorted|exact Hnd].
Defined.

(** X7. Reading the domain file back.  When the new domains are blank
    or clean, the entries of the file after [save_domains_to_file] are
    those of the file before together with the new domains that are not
    blank: nothing is lost, nothing else is added, and the set returned
    is the set the file holds. *)
Theorem save_domains_reads_back `{JsonText} (σ : fs) (domains : gset string)
    (filename : option string) (now : string) :
  clean_set domains →
  let path := resolve_filename filename (now +:+ "_domain_data.txt") in
  let existing := from_option read_entries ∅ (file_text <$> σ !! path) in
  let after := save_domains_to_file domains filename now σ in
  from_option read_entries ∅ (file_text <$> after.1 !! path) =
    existing ∪ filter (λ d, nonblank d) domains ∧
  after.2 = Ok (existing ∪ filter (λ d, nonblank d) domains).
Proof.
  intros Hclean path existing. cbv zeta.
  rewrite save_domains_to_file_unfold. cbv zeta. fold path.
  rewrite existing_entries. fold existing. simpl.
  rewrite lookup_insert_eq. simpl. split; [|done].
  apply read_entries_write_entries.
  intros x [Hx|[Hnb Hx]%elem_of_filter]%elem_of_union.
  - unfold existing in Hx. destruct (σ !! path) as [f|]; simpl in Hx;
      [|set_solver]. by apply read_entries_clean in Hx.
  - split; [by apply Hclean|done].
Qed.

Lemma save_domains_reads_back_witness :
  from_option read_entries ∅
    (file_text (H := plain_text) <$>
       (save_domains_to_file (H := plain_text) {["a.example.com"; "  "]}
          (Some "domains.txt") "T"
          {["data/domains.txt" := Text ("z.example.com" +:+ newline)]}).1
       !! "data/domains.txt")
  = from_option read_entries ∅
      (file_text (H := plain_text) <$>
         ({["data/domains.txt" := Text ("z.example.com" +:+ newline)]} : fs)
         !! "data/domains.txt")
    ∪ filter (λ d, nonblank d) ({["a.example.com"; "  "]} : gset string).
Proof.
  apply (save_domains_reads_back (H := plain_text)
           {["data/domains.txt" := Text ("z.example.com" +:+ newline)]}
           {["a.example.com"; "  "]} (Some "domains.txt") "T").
  unfold clean_set. apply (bool_decide_unpack _). vm_compute. exact I.
Defined.

(** X8. The lines of the flat IP file.  When the flat IP file and the
    detailed file are different files and the keys of [ip_data] are
    blank or clean, the flat file after [save_ip_data_to_file], whether
    the merge of the detailed file succeeds or raises (the flat file is
    written first), read line by line, is a list of entries each
    followed by a line feed; the entries are in increasing order,
    without repetition, none of them blank; they are exactly the entries
    read from the previous file together with the keys of [ip_data] that
    are not blank; when the function returns, it returns this set. *)
Theorem save_ip_data_flat_content `{JsonText} (σ : fs) (ip_data : pydict json)
    (filename detailed_filename : option string) (now : string) :
  let path := resolve_filename filename (now +:+ "_ip_data.txt") in
  let detailed_path :=
    resolve_filename detailed_filename (now +:+ "_ip_detailed.json") in
  let existing := from_option read_entries ∅ (file_text <$> σ !! path) in
  let after := save_ip_data_to_file ip_data filename detailed_filename now σ in
  path ≠ detailed_path →
  clean_set (list_to_set (dict_keys ip_data)) →
  ∃ (content : string) (l : list string),
    after.1 !! path = Some (Text content) ∧
    readlines content = (λ x, x +:+ newline) <$> l ∧
    (∀ all_ips, after.2 = Ok all_ips → all_ips = list_to_set l) ∧
    Sorted String.le l ∧ NoDup l ∧
    Forall (λ x, nonblank x ∧ clean_entry x) l ∧
    ∀ x, x ∈ l ↔ x ∈ existing ∨ (x ∈ dict_keys ip_data ∧ nonblank x).
Proof.
  intros path detailed_path existing after Hne Hclean. unfold after.
  rewrite save_ip_data_to_file_unfold. cbv zeta. fold path detailed_path.
  rewrite existing_entries. fold existing.
  set (new := list_to_set (dict_keys ip_data) : gset string).
  set (all := existing ∪ filter (λ ip, nonblank ip) new).
  pose proof (merged_entries_clean (file_text <$> σ !! path) new Hclean)
    as Hall.
  fold existing all in Hall.
  destruct (flat_file_lines all Hall) as (Hw & Hlines & Hsorted & Hnd & Hl).
  assert (list_to_set (sorted all) = all) as Hset.
  { apply set_eq. intros x. by rewrite elem_of_list_to_set, elem_of_sorted. }
  exists (write_lines (sorted all)), (sorted all). split_and!; try done.
  - rewrite Hw.
    destruct (merge_detailed _ _); simpl.
    + by rewrite lookup_insert_ne, lookup_insert_eq.
    + by rewrite lookup_insert_eq.
  - intros all_ips. destruct (merge_detailed _ _); simpl; [|done].
    intros [= <-]. by rewrite Hset.
  - intros x. rewrite elem_of_sorted. unfold all, new.
    rewrite elem_of_union, elem_of_filter, elem_of_list_to_set. naive_solver.
Qed.

Lemma save_ip_data_flat_content_witness :
  ∃ (content : string) (l : list string),
    (save_ip_data_to_file (H := plain_text)
       [("9.9.9.9", JArr []); ("", JArr []); ("1.2.3.4", JNum 5)]
       (Some "ips.txt") (Some "ips.json") "T"
       {["data/ips.json" := Doc (JArr [])]}).1 !! "data/ips.txt"
      = Some (Text content) ∧
    readlines content = (λ x, x +:+ newline) <$> l ∧
    Sorted String.le l ∧ NoDup l.
Proof.
  destruct (save_ip_data_flat_content (H := plain_text)
              {["data/ips.json" := Doc (JArr [])]}
              [("9.9.9.9", JArr []); ("", JArr []); ("1.2.3.4", JNum 5)]
              (Some "ips.txt") (Some "ips.json") "T")
    as (content & l & Hfile & Hlines & _ & Hsorted & Hnd & _).
  - vm_compute. discriminate.
  - unfold clean_set. apply (bool_decide_unpack _). vm_compute. exact I.
  - exists content, l.
    split_and!; [exact Hfile|exact Hlines|exact Hsorted|exact Hnd].
Defined.

(** ** What the detailed file holds *)

Lemma dict_set_absent {V} (d : pydict V) k v :
  k ∉ dict_keys d → dict_set d k v = d ++ [(k, v)].
Proof.
  induction d as [|[k' v'] d IH]; simpl; [done|].
  intros [Hne Hout]%not_elem_of_cons. rewrite decide_False by done.
  by rewrite IH.
Qed.

(** Entries under keys that are all new are appended as they are. *)
Lemma merge_detailed_new_keys items kvs :
  NoDup (dict_keys items) →
  (∀ k, k ∈ dict_keys items → k ∉ dict_keys kvs) →
  merge_detailed items (JObj kvs) = Ok (JObj (kvs ++ items)).
Proof.
  revert kvs. induction items as [|[ip rep] items IH]; intros kvs Hnd Hnew.
  - by rewrite app_nil_r.
  - apply NoDup_cons in Hnd as [Hout Hnd]. cbn [merge_detailed].
    rewrite merge_reputation_obj.
    assert (ip ∉ dict_keys kvs) as Hip by (apply Hnew; by left).
    apply dict_get_None_keys in Hip as Hget. rewrite Hget. simpl.
    rewrite dict_set_absent by done. rewrite IH; [by rewrite <- app_assoc|done|].
    intros k Hk. unfold dict_keys. rewrite fmap_app, elem_of_app.
    intros [Hin|Hin%list_elem_of_singleton].
    + apply (Hnew k); [by right|done].
    + simpl in Hin. subst. done.
Qed.



Lemma dict_keys_set_prefix {V} (d : pydict V) k v :
  dict_keys d `prefix_of` dict_keys (dict_set d k v).
Proof.
  destruct (decide (k ∈ dict_keys d)) as [Hin|Hout].
  - by rewrite dict_keys_set_present.
  - rewrite dict_keys_set_absent by done. by apply prefix_app_r.
Qed.

(** X10. What a successful merge leaves in the detailed dictionary.
    The old keys keep their positions and new keys follow them; entries
    under keys that [ip_data] does not mention are untouched; an IP
    that was not there is stored with its reputation as given; and for
    an IP that was there, a list is stored whose set is the union
    Python's [set] makes of the tags stored before and the new ones:
    every stored tag is kept, and a new tag is added unless it is equal
    to a stored one ([true] is equal to [1] and [false] to [0]). *)
Theorem merge_detailed_union (items kvs : pydict json) (r : json) :
  NoDup (dict_keys items) →
  merge_detailed items (JObj kvs) = Ok r →
  ∃ kvs',
    r = JObj kvs' ∧
    dict_keys kvs `prefix_of` dict_keys kvs' ∧
    (∀ k, k ∈ dict_keys kvs' ↔ k ∈ dict_keys kvs ∨ k ∈ dict_keys items) ∧
    (∀ k, k ∉ dict_keys items → dict_get kvs' k = dict_get kvs k) ∧
    (∀ k rep, (k, rep) ∈ items →
       match dict_get kvs k with
       | None => dict_get kvs' k = Some rep
       | Some v =>
           ∃ stored new v',
             py_set v = Ok stored ∧ py_set rep = Ok new ∧
             dict_get kvs' k = Some v' ∧ is_list v' ∧
             py_set v' = Ok (py_union stored new) ∧
             (∀ a, a ∈ set_elements (py_union stored new) ↔
                   a ∈ set_elements stored ∨
                   (a ∈ set_elements new ∧
                    ∀ b, b ∈ set_elements stored → py_key b ≠ py_key a))
       end).
Proof.
  revert kvs. induction items as [|[ip rep] items IH]; intros kvs Hnd; simpl.
  - intros [= <-]. exists kvs. split_and!; try done.
    + intros k. split; [by left|]. by intros [?|?%elem_of_nil].
    + intros k rep' ?%elem_of_nil. done.
  - apply NoDup_cons in Hnd as [Hout Hnd].
    destruct (merge_reputation (JObj kvs) ip rep) as [x|] eqn:Hx; simpl; [|done].
    intros Hrest. rewrite merge_reputation_obj in Hx.
    assert (∃ value, x = JObj (dict_set kvs ip value) ∧
              match dict_get kvs ip with
              | None => value = rep
              | Some v =>
                  ∃ stored new, py_set v = Ok stored ∧ py_set rep = Ok new ∧
                                is_list value ∧
                                py_set value = Ok (py_union stored new)
              end) as (value & -> & Hvalue).
    { destruct (dict_get kvs ip) as [v|].
      - destruct (py_set v) as [stored|] eqn:Hs; simpl in Hx; [|done].
        destruct (py_set rep) as [new|] eqn:Hn; simpl in Hx; [|done].
        injection Hx as <-. eexists. split; [done|].
        exists stored, new. split_and!; [done..|].
        apply py_set_py_list, py_union_wf. by eapply py_set_wf.
      - injection Hx as <-. eauto. }
    destruct (IH _ Hnd Hrest) as (kvs' & -> & Hpre & Hkeys & Hother & Hitems).
    exists kvs'. split_and!; [done| | | |].
    + etrans; [apply dict_keys_set_prefix|done].
    + intros k. rewrite Hkeys, dict_keys_set_iff, elem_of_cons. simpl.
      naive_solver.
    + intros k [Hne Hk]%not_elem_of_cons. simpl in Hne.
      rewrite Hother by done. by apply dict_get_set_ne.
    + intros k rep' [[= -> ->]|Hin]%elem_of_cons.
      * rewrite (Hother ip Hout), dict_get_set_eq.
        destruct (dict_get kvs ip) as [v|]; [|by subst].
        destruct Hvalue as (stored & new & Hs & Hn & ? & ?).
        exists stored, new, value. split_and!; [done..|].
        intros a. apply py_union_elements; by eapply py_set_wf.
      * assert (k ≠ ip) as Hne.
        { intros ->. apply Hout. apply list_elem_of_fmap. by exists (ip, rep'). }
        specialize (Hitems k rep' Hin).
        by rewrite dict_get_set_ne in Hitems.
Qed.

Lemma merge_detailed_union_witness :
  ∃ kvs',
    merge_detailed
      [("1.2.3.4", JArr [JStr "bot"; JStr "tor"]); ("9.9.9.9", JArr [])]
      (JObj [("8.8.8.8", JArr []); ("1.2.3.4", JArr [JStr "tor"; JStr "spam"])])
      = Ok (JObj kvs') ∧
    dict_keys kvs' = ["8.8.8.8"; "1.2.3.4"; "9.9.9.9"] ∧
    ∃ stored new v',
      py_set (JArr [JStr "tor"; JStr "spam"]) = Ok stored ∧
      py_set (JArr [JStr "bot"; JStr "tor"]) = Ok new ∧
      dict_get kvs' "1.2.3.4" = Some v' ∧ is_list v' ∧
      py_set v' = Ok (py_union stored new).
Proof.
  destruct (merge_detailed
              [("1.2.3.4", JArr [JStr "bot"; JStr "tor"]); ("9.9.9.9", JArr [])]
              (JObj [("8.8.8.8", JArr []);
                     ("1.2.3.4", JArr [JStr "tor"; JStr "spam"])]))
    as [r|] eqn:Hr; [|by vm_compute in Hr].
  assert (NoDup (dict_keys [("1.2.3.4", JArr [JStr "bot"; JStr "tor"]);
                            ("9.9.9.9", JArr [])])) as Hnd.
  { apply (bool_decide_unpack _). vm_compute. exact I. }
  destruct (merge_detailed_union _ _ r Hnd Hr)
    as (kvs' & -> & _ & _ & _ & Hitems).
  exists kvs'. split; [done|]. split.
  - vm_compute in Hr. by injection Hr as <-.
  - destruct (Hitems "1.2.3.4" (JArr [JStr "bot"; JStr "tor"]))
      as (stored & new & v' & ? & ? & ? & ? & ? & _); [by left|].
    eauto 10.
Defined.




(** ** Saving and loading the watermark *)





(** *** Whitespace around the stored number *)

Lemma universal_newlines_cons c s :
  c ≠ CR → universal_newlines (String c s) = String c (universal_newlines s).
Proof. intros Hc. cbn [universal_newlines]. by rewrite decide_False. Qed.

Lemma universal_newlines_app_no_cr s t :
  all_chars (λ c, negb (bool_decide (c = CR))) s →
  universal_newlines (s +:+ t) = s +:+ universal_newlines t.
Proof.
  induction s as [|c s IH]; [done|].
  intros [Hc Hs]%andb_prop_elim.
  apply negb_prop_elim in Hc. rewrite bool_decide_spec in Hc.
  rewrite !append_cons, universal_newlines_cons by done. by rewrite IH.
Qed.

Lemma isspace_LF : py_isspace LF = true.
Proof. reflexivity. Qed.

Lemma all_chars_space_universal_newlines s :
  all_chars py_isspace s → all_chars py_isspace (universal_newlines s).
Proof.
  assert (∀ n s, (String.length s ≤ n)%nat → all_chars py_isspace s →
            all_chars py_isspace (universal_newlines s)) as Hn.
  { clear s. induction n as [|n IH]; intros [|c s] Hlen; simpl in Hlen;
      try done; try lia.
    intros [Hc Hs]%andb_prop_elim. cbn [universal_newlines].
    destruct (decide (c = CR)) as [->|Hne].
    - destruct s as [|c' s]; [done|]. simpl in Hlen.
      destruct (decide (c' = LF)) as [->|Hlf]; cbn [all_chars];
        rewrite isspace_LF; cbn [andb].
      + simpl in Hs. apply IH; [lia|done].
      + apply (IH (String c' s)); [simpl; lia|done].
    - cbn [all_chars]. apply andb_prop_intro. split; [done|].
      apply IH; [lia|done]. }
  by apply (Hn (String.length s)).
Qed.

(** Whitespace in front of a text that does not start with a line feed
    is still whitespace in front of it after newline translation. *)
Lemma lstrip_universal_newlines_app pre c r :
  all_chars py_isspace pre → c ≠ LF →
  lstrip (universal_newlines (pre +:+ String c r)) =
  lstrip (universal_newlines (String c r)).
Proof.
  intros Hpre Hc.
  assert (∀ n pre, (String.length pre ≤ n)%nat → all_chars py_isspace pre →
            lstrip (universal_newlines (pre +:+ String c r)) =
            lstrip (universal_newlines (String c r))) as Hn.
  { clear pre Hpre. induction n as [|n IH]; intros [|a pre] Hlen; simpl in Hlen;
      try done; try lia.
    intros [Ha Hp]%andb_prop_elim. rewrite append_cons.
    cbn [universal_newlines]. destruct (decide (a = CR)) as [->|Hne].
    - destruct pre as [|a' pre].
      + rewrite append_nil_l. rewrite decide_False by done.
        cbn [lstrip]. by rewrite isspace_LF.
      + rewrite append_cons. simpl in Hlen.
        destruct (decide (a' = LF)) as [->|Hlf]; cbn [lstrip];
          rewrite isspace_LF.
        * simpl in Hp. apply IH; [lia|done].
        * rewrite <- append_cons. apply IH; [simpl; lia|done].
    - cbn [lstrip]. apply Is_true_true in Ha. rewrite Ha.
      apply IH; [lia|done]. }
  by apply (Hn (String.length pre)).
Qed.

Lemma rstrip_app_spaces s ws :
  all_chars py_isspace ws → rstrip (s +:+ ws) = rstrip s.
Proof.
  revert s. induction ws as [|c ws IH]; intros s; [by rewrite append_nil_r|].
  intros [Hc Hws]%andb_prop_elim.
  replace (s +:+ String c ws) with ((s +:+ String c EmptyString) +:+ ws)
    by (by rewrite append_assoc).
  rewrite IH by done. by apply rstrip_app_space.
Qed.

(** A text without whitespace keeps its value when whitespace is put
    around it in the file. *)
Lemma strip_read_padded pre c s post :
  all_chars py_isspace pre → all_chars py_isspace post →
  all_chars (λ a, negb (py_isspace a)) (String c s) →
  strip (universal_newlines (pre +:+ String c s +:+ post)) = String c s.
Proof.
  intros Hpre Hpost Hs. unfold strip.
  assert (c ≠ LF) as Hlf.
  { intros ->. by apply andb_prop_elim in Hs as [Hc _]. }
  assert (all_chars (λ a, negb (bool_decide (a = CR))) (String c s)) as Hcr.
  { eapply all_chars_impl; [|exact Hs]. intros a Ha.
    apply negb_prop_intro. intros ->%bool_decide_unpack. done. }
  rewrite append_cons, lstrip_universal_newlines_app by done.
  rewrite <- append_cons, universal_newlines_app_no_cr by done.
  rewrite append_cons. rewrite lstrip_nonspace.
  2:{ simpl in Hs. apply andb_prop_elim in Hs as [Hc _].
      by apply negb_prop_elim, Is_true_false_1 in Hc. }
  rewrite <- append_cons.
  rewrite rstrip_app_spaces by by apply all_chars_space_universal_newlines.
  by apply rstrip_no_space.
Qed.

Lemma py_str_no_space n :
  ∃ c s, py_str n = String c s ∧
         all_chars (λ a, negb (py_isspace a)) (String c s).
Proof.
  assert (all_chars (λ a, negb (py_isspace a)) (py_str n)) as Hall.
  { eapply all_chars_impl, all_chars_py_str.
    intros a [Ha| ->%bool_decide_unpack]%orb_prop_elim; [|done].
    by apply is_digit_cases in Ha as (? & _). }
  destruct (py_str n) as [|c s] eqn:Hn; [|by eauto].
  pose proof (py_int_py_str n) as Hint. rewrite Hn in Hint. done.
Qed.

(** X13. The load tolerates whitespace around the stored number: when
    the watermark file holds the decimal text of an integer with blanks,
    tabs or line ends (LF, CR or CR LF) before and after it, the load
    returns that integer. *)
Theorem get_last_query_timestamp_padded `{JsonText} (σ : fs)
    (filename : option string) (pre post : string) (n : Z) :
  let path :=
    match filename with
    | Some name => if is_empty name then default_timestamp_file else name
    | None => default_timestamp_file
    end in
  all_chars py_isspace pre →
  all_chars py_isspace post →
  σ !! path = Some (Text (pre +:+ py_str n +:+ post)) →
  get_last_query_timestamp filename σ = (σ, Ok (Some n)).
Proof.
  intros path Hpre Hpost Hfile.
  rewrite get_last_query_timestamp_unfold. cbv zeta. fold path.
  rewrite Hfile. simpl.
  destruct (py_str_no_space n) as (c & s & Hn & Hs).
  rewrite Hn, strip_read_padded by done. by rewrite <- Hn, py_int_py_str.
Qed.

Lemma get_last_query_timestamp_padded_witness :
  get_last_query_timestamp (H := plain_text) None
    {[default_timestamp_file :=
        Text ("  " +:+ py_str 1700000000000 +:+ String CR (String LF EmptyString))]}
  = ({[default_timestamp_file :=
         Text ("  " +:+ py_str 1700000000000 +:+ String CR (String LF EmptyString))]},
     Ok (Some 1700000000000)).
Proof.
  apply (get_last_query_timestamp_padded (H := plain_text)
           {[default_timestamp_file :=
               Text ("  " +:+ py_str 1700000000000
                     +:+ String CR (String LF EmptyString))]}
           None "  " (String CR (String LF EmptyString)) 1700000000000).
  - exact I.
  - exact I.
  - reflexivity.
Defined.

(** ** The entry point and the working directory *)

Lemma keeps_ret {A} (a : A) : keeps_files (mret a).
Proof. by intros σ path. Qed.

Lemma keeps_lift {A} (r : result A) : keeps_files (lift r).
Proof. by intros σ path. Qed.

Lemma keeps_bind {A B} (m : io A) (f : A → io B) :
  keeps_files m → (∀ a, keeps_files (f a)) → keeps_files (m ≫= f).
Proof.
  intros Hm Hf σ path Hsome. unfold mbind, io_bind.
  specialize (Hm σ path Hsome).
  destruct (m σ) as [σ1 [a|e]]; simpl in *; [|done].
  by apply Hf.
Qed.

Lemma keeps_write_file target f : keeps_files (write_file target f).
Proof.
  intros σ path Hsome. unfold write_file. simpl.
  destruct (decide (target = path)) as [->|Hne].
  - rewrite lookup_insert_eq. eauto.
  - by rewrite lookup_insert_ne.
Qed.

Lemma keeps_insert (σ : fs) target f path :
  is_Some (σ !! path) → is_Some (<[target := f]> σ !! path).
Proof. apply (keeps_write_file target f σ path). Qed.

Lemma keeps_save_domains `{JsonText} domains filename now :
  keeps_files (save_domains_to_file domains filename now).
Proof.
  intros σ path Hsome. rewrite save_domains_to_file_unfold. simpl.
  by apply keeps_insert.
Qed.

Lemma keeps_save_ip_data `{JsonText} ip_data filename detailed now :
  keeps_files (save_ip_data_to_file ip_data filename detailed now).
Proof.
  intros σ path Hsome. rewrite save_ip_data_to_file_unfold. cbv zeta.
  destruct (merge_detailed _ _); simpl; by repeat apply keeps_insert.
Qed.

Lemma keeps_process_incidents `{JsonText} w incidents :
  keeps_files (process_incidents w incidents).
Proof.
  unfold process_incidents.
  apply keeps_bind; [apply keeps_lift|]. intros [ip_data domains].
  apply keeps_bind; [apply keeps_save_ip_data|]. intros all_ips.
  apply keeps_bind; [apply keeps_save_domains|]. intros all_domains.
  apply keeps_bind; [apply keeps_write_file|]. intros _.
  apply keeps_write_file.
Qed.

Lemma preserves_process_incidents_others `{JsonText} w incidents path :
  path ∉ run_files w → preserves path (process_incidents w incidents).
Proof.
  unfold run_files. rewrite !not_elem_of_cons.
  intros (Hip & Hdet & Hdom & Hts & Hrep & _).
  unfold process_incidents.
  apply preserves_bind; [apply preserves_lift|]. intros [ip_data domains].
  apply preserves_bind; [by apply preserves_save_ip_data|]. intros all_ips.
  apply preserves_bind; [by apply preserves_save_domains|]. intros all_domains.
  apply preserves_bind; [by apply preserves_save_last_query_timestamp|].
  intros _. by apply preserves_create_summary_report.
Qed.

(** A run that ends either leaves the working directory as it found it,
    or is the processing of a list of incidents on it. *)
Lemma main_end_cases `{JsonText} w fuel (σ σ' : fs) outcome :
  run_end (main w fuel σ) = Some (σ', outcome) →
  σ' = σ ∨ ∃ incidents, process_incidents w incidents σ = (σ', outcome).
Proof.
  assert (∀ r : result unit,
    Some (σ, r) = Some (σ', outcome) →
    σ' = σ ∨ ∃ incidents, process_incidents w incidents σ = (σ', outcome))
    as Hsame.
  { intros r Hrun. left. by simplify_eq. }
  unfold main. rewrite get_last_query_timestamp_unfold. cbv zeta.
  generalize (log_delta w).
  generalize (fetch_all_incidents_with_pagination w (getenv w "CLID")).
  intros fetch log.
  assert (∀ last_timestamp,
    run_end
      (let '(reqs, fetched) := fetch last_timestamp 100 fuel in
       {| run_requests := reqs;
          run_end :=
            match fetched with
            | None => None
            | Some (Raise e) => Some (σ, Raise e)
            | Some (Ok []) => Some (σ, Ok ())
            | Some (Ok incidents) => Some (process_incidents w incidents σ)
            end |}) = Some (σ', outcome) →
    σ' = σ ∨ ∃ incidents, process_incidents w incidents σ = (σ', outcome))
    as Hfetch.
  { intros last_timestamp.
    destruct (fetch last_timestamp 100 fuel) as [reqs [[l|e]|]];
      simpl; [|apply Hsame|done].
    destruct l as [|i l]; [apply Hsame|].
    intros [= Hrun]. right. eauto. }
  destruct (σ !! default_timestamp_file) as [f|].
  - destruct (py_int _) as [t|e]; simpl; [|apply Hsame].
    destruct (log (Some t)); [apply Hfetch|apply Hsame].
  - simpl. destruct (log None); [apply Hfetch|apply Hsame].
Qed.

Lemma main_others_kept `{JsonText} (w : world) (fuel : nat) (σ σ' : fs)
    (outcome : result unit) :
  run_end (main w fuel σ) = Some (σ', outcome) →
  (∀ path, path ∉ run_files w → σ' !! path = σ !! path) ∧
  (∀ path, is_Some (σ !! path) → is_Some (σ' !! path)).
Proof.
  intros [->|[incidents Hrun]]%main_end_cases; [done|]. split.
  - intros path Hpath.
    rewrite <- (preserves_process_incidents_others w incidents path Hpath σ).
    by rewrite Hrun.
  - intros path Hsome.
    pose proof (keeps_process_incidents w incidents σ path Hsome) as Hkeep.
    by rewrite Hrun in Hkeep.
Qed.

(** *** A first run *)

Lemma ends_with_distinct s t a b :
  ends_with s a → ends_with t b →
  ¬ ends_with a b → ¬ ends_with b a → s ≠ t.
Proof.
  unfold ends_with. intros Hs Ht Hab Hba <-.
  destruct (suffix_weak_total _ _ _ Hs Ht); tauto.
Qed.

Lemma run_file_endings w :
  ends_with (ip_file w) "_ip_data.txt" ∧
  ends_with (detailed_file w) "_ip_detailed.json" ∧
  ends_with (domain_file w) "_domain_data.txt" ∧
  ends_with (timestamp_file w) "_last_query_timestamp.txt" ∧
  ends_with (report_file w) "_summary.txt".
Proof.
  split_and!;
    try (apply resolve_filename_ends_with, ends_with_append, ends_with_refl).
  unfold report_file. do 2 apply ends_with_append. apply ends_with_refl.
Qed.

(** The five files of a run are five different files. *)
Lemma run_files_NoDup w : NoDup (run_files w).
Proof.
  destruct (run_file_endings w) as (Hip & Hdet & Hdom & Hts & Hrep).
  unfold run_files. repeat apply NoDup_cons_2; rewrite ?not_elem_of_cons;
    try apply NoDup_nil_2; split_and?; try apply not_elem_of_nil;
    (eapply ends_with_distinct; [eassumption|eassumption|..];
     unfold ends_with; apply (bool_decide_unpack _); by vm_compute).
Qed.

Lemma process_incidents_unfold `{JsonText} w incidents ip_data domains (σ : fs) :
  extract_data_from_incidents (JArr incidents) = Ok (ip_data, domains) →
  process_incidents w incidents σ =
  match save_ip_data_to_file ip_data (Some (now_label w +:+ "_ip_data.txt"))
          (Some (now_label w +:+ "_ip_detailed.json")) (now_stamp w) σ with
  | (σ1, Raise e) => (σ1, Raise e)
  | (σ1, Ok all_ips) =>
      match save_domains_to_file domains
              (Some (now_label w +:+ "_domain_data.txt")) (now_stamp w) σ1 with
      | (σ2, Raise e) => (σ2, Raise e)
      | (σ2, Ok all_domains) =>
          (<[report_file w :=
               Text (report_content (Z.of_nat (size all_ips))
                       (Z.of_nat (size all_domains))
                       (Z.of_nat (length incidents)) (now_label w)
                       (now_text w))]>
             (<[timestamp_file w := Text (py_str (now_ms w))]> σ2), Ok ())
      end
  end.
Proof.
  intros Hextract. unfold process_incidents, mbind, io_bind at 1, lift.
  rewrite Hextract. unfold io_bind at 1.
  destruct (save_ip_data_to_file _ _ _ _ _) as [σ1 [all_ips|e]]; [|done].
  unfold io_bind at 1.
  destruct (save_domains_to_file _ _ _ _) as [σ2 [all_domains|e]]; [|done].
  reflexivity.
Qed.

Lemma extracted_nonblank incidents ip_data domains :
  extract_data_from_incidents (JArr incidents) = Ok (ip_data, domains) →
  NoDup (dict_keys ip_data) ∧
  Forall (λ ip, nonblank ip) (dict_keys ip_data) ∧
  set_Forall (λ d, nonblank d) domains.
Proof.
  unfold extract_data_from_incidents. simpl. intros Hloop.
  destruct (extract_loop_spec _ _ _ Hloop) as [Hkeys Hdoms]. simpl in *.
  split_and!.
  - apply (extract_loop_NoDup incidents ([], ∅) (ip_data, domains));
      [constructor|done].
  - apply Forall_forall. intros ip [[]%elem_of_nil|[? _]]%Hkeys. done.
  - intros d [[]%elem_of_empty|[? _]]%Hdoms. done.
Qed.

(** A first run, the log apart. *)
Lemma main_fresh_directory `{JsonText} (w : world) (fuel : nat) (σ : fs)
    (reqs : list request) (incidents : list json)
    (ip_data : pydict json) (domains : gset string) :
  σ !! default_timestamp_file = None →
  fetch_all_incidents_with_pagination w (getenv w "CLID") None 100 fuel
    = (reqs, Some (Ok incidents)) →
  incidents ≠ [] →
  extract_data_from_incidents (JArr incidents) = Ok (ip_data, domains) →
  σ !! ip_file w = None →
  σ !! detailed_file w = None →
  σ !! domain_file w = None →
  main w fuel σ =
  {| run_requests := reqs;
     run_end := Some
       (<[report_file w :=
            Text (report_content (Z.of_nat (length ip_data))
                    (Z.of_nat (size domains)) (Z.of_nat (length incidents))
                    (now_label w) (now_text w))]>
          (<[timestamp_file w := Text (py_str (now_ms w))]>
             (<[domain_file w := Text (write_lines (sorted domains))]>
                (<[detailed_file w := Doc (JObj ip_data)]>
                   (<[ip_file w :=
                        Text (write_lines
                                (sorted (list_to_set (dict_keys ip_data))))]>
                      σ)))),
        Ok ()) |}.
Proof.
  intros Hmark Hfetch Hsome Hextract Hip Hdet Hdom.
  destruct (extracted_nonblank _ _ _ Hextract) as (Hnd & Hips & Hdoms).
  pose proof (run_files_NoDup w) as Hfiles. unfold run_files in Hfiles.
  apply NoDup_cons in Hfiles as [Hne1 Hfiles].
  apply NoDup_cons in Hfiles as [Hne2 _].
  rewrite !not_elem_of_cons in Hne1, Hne2.
  destruct Hne1 as (Hne_ip_det & Hne_ip_dom & _).
  destruct Hne2 as (Hne_det_dom & _).
  unfold main. rewrite (get_last_query_timestamp_absent σ Hmark).
  cbn [log_delta]. rewrite Hfetch.
  destruct incidents as [|i l]; [done|].
  rewrite (process_incidents_unfold w (i :: l) ip_data domains σ Hextract).
  rewrite save_ip_data_to_file_unfold. cbv zeta.
  fold (ip_file w) (detailed_file w). rewrite Hip.
  rewrite lookup_insert_ne, Hdet by done.
  rewrite merge_detailed_new_keys by (done || (intros k _; apply not_elem_of_nil)).
  assert (∅ ∪ filter (λ ip, nonblank ip) (list_to_set (dict_keys ip_data))
          = (list_to_set (dict_keys ip_data) : gset string)) as ->.
  { apply set_eq. intros x.
    rewrite elem_of_union, elem_of_filter, elem_of_list_to_set.
    rewrite Forall_forall in Hips. split; [set_solver|]. intros Hx. right.
    split; [by apply Hips|done]. }
  rewrite save_domains_to_file_unfold. cbv zeta. fold (domain_file w).
  rewrite !lookup_insert_ne, Hdom by done.
  assert (∅ ∪ filter (λ d, nonblank d) domains = domains) as ->.
  { apply set_eq. intros x. rewrite elem_of_union, elem_of_filter.
    split; [set_solver|]. intros Hx. right. split; [by apply Hdoms|done]. }
  rewrite !write_entries_lines.
  - rewrite size_list_to_set by done. unfold dict_keys.
    by rewrite length_fmap.
  - intros x Hx%elem_of_list_to_set. rewrite Forall_forall in Hips.
    by apply Hips.
  - done.
Qed.

(** *** A run that fetches nothing *)

(** A run that fetches nothing, the log apart. *)
Lemma main_refused_or_empty `{JsonText} (w : world) (fuel : nat) (σ : fs)
    (last_timestamp : option Z) (last : option (list json)) :
  get_last_query_timestamp None σ = (σ, Ok last_timestamp) →
  log_delta w last_timestamp = Ok () →
  last_page w (getenv w "CLID") last_timestamp 100 1 last →
  default [] last = [] →
  main w (S fuel) σ =
  {| run_requests := [page_request w (getenv w "CLID") last_timestamp 100 1];
     run_end := Some (σ, Ok ()) |}.
Proof.
  intros Hget Hlog Hlast Hempty. unfold main. rewrite Hget, Hlog.
  unfold fetch_all_incidents_with_pagination.
  rewrite (fetch_loop_pages w (getenv w "CLID") last_timestamp 100 [] last
             (S fuel) 1 []); [|by intros i items [=]|done|simpl; lia].
  by rewrite Hempty.
Qed.


(** ** The entry point with its log *)

Lemma log_file_ends log_stamp : ends_with (log_file log_stamp) "_imperva_api.log".
Proof. unfold log_file. do 2 apply ends_with_append. apply ends_with_refl. Qed.

(** The log file is none of the files a run reads or writes otherwise. *)
Lemma log_file_apart w log_stamp :
  log_file log_stamp ∉ run_files w ∧
  log_file log_stamp ≠ default_timestamp_file.
Proof.
  destruct (run_file_endings w) as (Hip & Hdet & Hdom & Hts & Hrep).
  pose proof (log_file_ends log_stamp) as Hlog.
  split.
  - unfold run_files. rewrite !not_elem_of_cons.
    split_and!; try apply not_elem_of_nil;
      (eapply ends_with_distinct; [eassumption|eassumption|..];
       unfold ends_with; apply (bool_decide_unpack _); by vm_compute).
  - eapply ends_with_ne; [exact Hlog|].
    unfold ends_with. apply (bool_decide_unpack _). by vm_compute.
Qed.

Lemma get_last_query_timestamp_insert `{JsonText} (σ : fs) path f r :
  path ≠ default_timestamp_file →
  get_last_query_timestamp None σ = (σ, r) →
  get_last_query_timestamp None (<[path := f]> σ) = (<[path := f]> σ, r).
Proof.
  intros Hne. rewrite !get_last_query_timestamp_unfold. cbv zeta.
  rewrite lookup_insert_ne by done.
  destruct (σ !! default_timestamp_file); by intros [= <-].
Qed.

Lemma entry_point_unfold `{JsonText} w log_stamp records fuel (σ : fs) :
  entry_point w log_stamp records fuel σ =
  let old := from_option file_text EmptyString (σ !! log_file log_stamp) in
  let r := main w fuel (<[log_file log_stamp := Text old]> σ) in
  {| run_requests := run_requests r;
     run_end :=
       match run_end r with
       | Some (σ1, outcome) =>
           Some (<[log_file log_stamp :=
                     Text (from_option file_text EmptyString
                             (σ1 !! log_file log_stamp) +:+ records)]> σ1,
                 outcome)
       | None => None
       end |}.
Proof.
  unfold entry_point, setup_logging, append_file. cbn [fst].
  by rewrite append_nil_r.
Qed.

(** X14. What a run leaves alone.  Whatever the server answers and
    however the run ends (normally or in the exception handler), every
    file of the working directory other than the five files named after
    the label of the run and the log file is left exactly as it was; no
    file is removed; and the log file holds what it held before (nothing
    when it did not exist) followed by the records of the run. *)
Theorem main_frame `{JsonText} (w : world) (log_stamp records : string)
    (fuel : nat) (σ σ' : fs) (outcome : result unit) :
  run_end (entry_point w log_stamp records fuel σ) = Some (σ', outcome) →
  (∀ path, path ∉ run_files w → path ≠ log_file log_stamp →
           σ' !! path = σ !! path) ∧
  (∀ path, is_Some (σ !! path) → is_Some (σ' !! path)) ∧
  σ' !! log_file log_stamp =
    Some (Text (from_option file_text EmptyString (σ !! log_file log_stamp)
                +:+ records)).
Proof.
  rewrite entry_point_unfold. cbv zeta. simpl.
  set (old := from_option file_text EmptyString (σ !! log_file log_stamp)).
  set (σ0 := <[log_file log_stamp := Text old]> σ).
  destruct (run_end (main w fuel σ0)) as [[σ1 outcome1]|] eqn:Hrun; [|done].
  intros [= <- <-].
  destruct (main_others_kept w fuel σ0 σ1 outcome1 Hrun) as [Hothers Hkept].
  destruct (log_file_apart w log_stamp) as [Hlog _].
  split_and!.
  - intros path Hpath Hne.
    rewrite lookup_insert_ne, (Hothers path Hpath) by done.
    unfold σ0. by rewrite lookup_insert_ne.
  - intros path Hsome. apply keeps_insert, Hkept. unfold σ0.
    by apply keeps_insert.
  - rewrite lookup_insert_eq, (Hothers _ Hlog). unfold σ0.
    by rewrite lookup_insert_eq.
Qed.

Lemma main_frame_witness :
  ∃ σ',
    run_end (entry_point (H := plain_text)
               (sample_world credentials two_pages) "2023-11-14-22-13-18"
               "records" 5
               {["notes.txt" := Text "keep";
                 "logs/2023-11-14-22-13-18_imperva_api.log" := Text "old "]})
      = Some (σ', Ok ()) ∧
    σ' !! "notes.txt" = Some (Text "keep") ∧
    σ' !! "logs/2023-11-14-22-13-18_imperva_api.log"
      = Some (Text "old records").
Proof.
  assert (∃ σ',
    run_end (entry_point (H := plain_text)
               (sample_world credentials two_pages) "2023-11-14-22-13-18"
               "records" 5
               {["notes.txt" := Text "keep";
                 "logs/2023-11-14-22-13-18_imperva_api.log" := Text "old "]})
      = Some (σ', Ok ())) as (σ' & Hrun).
  { eexists. vm_compute. reflexivity. }
  exists σ'. split; [exact Hrun|].
  destruct (main_frame (H := plain_text)
              (sample_world credentials two_pages) "2023-11-14-22-13-18"
              "records" 5
              {["notes.txt" := Text "keep";
                "logs/2023-11-14-22-13-18_imperva_api.log" := Text "old "]}
              σ' (Ok ()) Hrun) as (Hothers & _ & Hlog).
  split.
  - rewrite (Hothers "notes.txt"); [reflexivity| |vm_compute; discriminate].
    apply (bool_decide_unpack _). vm_compute. exact I.
  - refine (eq_trans Hlog _). reflexivity.
Defined.

(** X15. A first run.  When there is no watermark file, the fetch
    returns at least one incident, the extraction does not raise, and
    the IP, detailed and domain files of the run's label do not exist
    yet, the run ends normally and leaves the working directory with
    exactly six files added or replaced: the IPs extracted, sorted, one
    per line; the IP dictionary as JSON; the domains extracted, sorted,
    one per line; the time of the run as the new watermark; a report
    whose three counts are the number of incidents fetched, of IPs
    written and of domains written; and the log file, extended by the
    records of the run. *)
Theorem first_run `{JsonText} (w : world) (log_stamp records : string)
    (fuel : nat) (σ : fs) (reqs : list request) (incidents : list json)
    (ip_data : pydict json) (domains : gset string) :
  σ !! default_timestamp_file = None →
  fetch_all_incidents_with_pagination w (getenv w "CLID") None 100 fuel
    = (reqs, Some (Ok incidents)) →
  incidents ≠ [] →
  extract_data_from_incidents (JArr incidents) = Ok (ip_data, domains) →
  σ !! ip_file w = None →
  σ !! detailed_file w = None →
  σ !! domain_file w = None →
  entry_point w log_stamp records fuel σ =
  {| run_requests := reqs;
     run_end := Some
       (<[log_file log_stamp :=
            Text (from_option file_text EmptyString (σ !! log_file log_stamp)
                  +:+ records)]>
       (<[report_file w :=
            Text (report_content (Z.of_nat (length ip_data))
                    (Z.of_nat (size domains)) (Z.of_nat (length incidents))
                    (now_label w) (now_text w))]>
          (<[timestamp_file w := Text (py_str (now_ms w))]>
             (<[domain_file w := Text (write_lines (sorted domains))]>
                (<[detailed_file w := Doc (JObj ip_data)]>
                   (<[ip_file w :=
                        Text (write_lines
                                (sorted (list_to_set (dict_keys ip_data))))]>
                      σ))))),
        Ok ()) |}.
Proof.
  intros Hmark Hfetch Hsome Hextract Hip Hdet Hdom.
  destruct (log_file_apart w log_stamp) as [Hlog Hlogts].
  unfold run_files in Hlog. rewrite !not_elem_of_cons in Hlog.
  destruct Hlog as (Hl1 & Hl2 & Hl3 & Hl4 & Hl5 & _).
  rewrite entry_point_unfold. cbv zeta.
  set (old := from_option file_text EmptyString (σ !! log_file log_stamp)).
  rewrite (main_fresh_directory w fuel (<[log_file log_stamp := Text old]> σ)
             reqs incidents ip_data domains);
    try done; try (by rewrite lookup_insert_ne).
  cbn [run_requests run_end]. do 3 f_equal.
  rewrite !lookup_insert_ne by done. rewrite lookup_insert_eq. cbn [from_option file_text].
  rewrite (insert_insert_ne _ (ip_file w) (log_file log_stamp)) by done.
  rewrite (insert_insert_ne _ (detailed_file w) (log_file log_stamp)) by done.
  rewrite (insert_insert_ne _ (domain_file w) (log_file log_stamp)) by done.
  rewrite (insert_insert_ne _ (timestamp_file w) (log_file log_stamp)) by done.
  rewrite (insert_insert_ne _ (report_file w) (log_file log_stamp)) by done.
  by rewrite insert_insert_eq.
Qed.

Lemma first_run_witness :
  entry_point (H := plain_text) (sample_world credentials two_pages)
    "2023-11-14-22-13-18" "records" 5 ∅ =
  {| run_requests :=
       [page_request (sample_world credentials two_pages) (VStr "1234") None 100 1];
     run_end := Some
       (<[log_file "2023-11-14-22-13-18" :=
            Text (from_option (file_text (H := plain_text)) EmptyString
                    ((∅ : fs) !! log_file "2023-11-14-22-13-18")
                  +:+ "records")]>
       (<[report_file (sample_world credentials two_pages) :=
            Text (report_content
                    (Z.of_nat (length [("1.2.3.4", JArr [JStr "bot"]);
                                       ("9.9.9.9", JArr [])]))
                    (Z.of_nat (size ({["evil.example.com"; "a.example.com"]}
                                       : gset string)))
                    (Z.of_nat (length
                       [sample_incident "1.2.3.4" ["bot"] "evil.example.com";
                        sample_incident "9.9.9.9" [] "a.example.com"]))
                    (now_label (sample_world credentials two_pages))
                    (now_text (sample_world credentials two_pages)))]>
          (<[timestamp_file (sample_world credentials two_pages) :=
               Text (py_str (now_ms (sample_world credentials two_pages)))]>
             (<[domain_file (sample_world credentials two_pages) :=
                  Text (write_lines
                          (sorted {["evil.example.com"; "a.example.com"]}))]>
                (<[detailed_file (sample_world credentials two_pages) :=
                     Doc (JObj [("1.2.3.4", JArr [JStr "bot"]);
                                ("9.9.9.9", JArr [])])]>
                   (<[ip_file (sample_world credentials two_pages) :=
                        Text (write_lines
                                (sorted (list_to_set
                                   (dict_keys [("1.2.3.4", JArr [JStr "bot"]);
                                               ("9.9.9.9", JArr [])]))))]>
                      ∅))))),
        Ok ()) |}.
Proof.
  refine (first_run (H := plain_text) (sample_world credentials two_pages)
           "2023-11-14-22-13-18" "records" 5 ∅
           [page_request (sample_world credentials two_pages) (VStr "1234")
                         None 100 1]
           [sample_incident "1.2.3.4" ["bot"] "evil.example.com";
            sample_incident "9.9.9.9" [] "a.example.com"]
           [("1.2.3.4", JArr [JStr "bot"]); ("9.9.9.9", JArr [])]
           {["evil.example.com"; "a.example.com"]} _ _ _ _ _ _ _).
  - apply lookup_empty.
  - vm_compute. reflexivity.
  - discriminate.
  - vm_compute. reflexivity.
  - apply lookup_empty.
  - apply lookup_empty.
  - apply lookup_empty.
Defined.

(** X16. A run that fetches nothing.  When the first page is refused
    (any status other than 200) or is empty, the run sends that one
    request and ends normally; the log file is extended by the records
    of the run and every other file of the working directory is exactly
    as it was: no data file, no report and no new watermark are
    written. *)
Theorem main_nothing_fetched `{JsonText} (w : world)
    (log_stamp records : string) (fuel : nat) (σ : fs)
    (last_timestamp : option Z) (last : option (list json)) :
  get_last_query_timestamp None σ = (σ, Ok last_timestamp) →
  log_delta w last_timestamp = Ok () →
  last_page w (getenv w "CLID") last_timestamp 100 1 last →
  default [] last = [] →
  entry_point w log_stamp records (S fuel) σ =
  {| run_requests := [page_request w (getenv w "CLID") last_timestamp 100 1];
     run_end := Some
       (<[log_file log_stamp :=
            Text (from_option file_text EmptyString (σ !! log_file log_stamp)
                  +:+ records)]> σ,
        Ok ()) |}.
Proof.
  intros Hget Hlog Hlast Hempty.
  destruct (log_file_apart w log_stamp) as [_ Hne].
  rewrite entry_point_unfold. cbv zeta.
  set (old := from_option file_text EmptyString (σ !! log_file log_stamp)).
  rewrite (main_refused_or_empty w fuel (<[log_file log_stamp := Text old]> σ)
             last_timestamp last); try done.
  - cbn [run_requests run_end]. rewrite lookup_insert_eq.
    cbn [from_option file_text]. by rewrite insert_insert_eq.
  - by apply get_last_query_timestamp_insert.
Qed.

Lemma main_nothing_fetched_witness :
  entry_point (H := plain_text) (sample_world credentials unauthorized)
    "2023-11-14-22-13-18" "records" 3
    {["notes.txt" := Text "keep"]} =
  {| run_requests :=
       [page_request (sample_world credentials unauthorized)
          (getenv (sample_world credentials unauthorized) "CLID") None 100 1];
     run_end := Some
       (<[log_file "2023-11-14-22-13-18" :=
            Text (from_option (file_text (H := plain_text)) EmptyString
                    (({["notes.txt" := Text "keep"]} : fs)
                       !! log_file "2023-11-14-22-13-18")
                  +:+ "records")]>
          {["notes.txt" := Text "keep"]},
        Ok ()) |}.
Proof.
  refine (main_nothing_fetched (H := plain_text)
            (sample_world credentials unauthorized)
            "2023-11-14-22-13-18" "records" 2
            {["notes.txt" := Text "keep"]} None None _ _ _ _).
  - reflexivity.
  - reflexivity.
  - simpl. unfold failed_page. vm_compute. discriminate.
  - reflexivity.
Defined.

(** ** Saving in batches *)

(** X17. Saving domains in two batches is saving them at once: when
    the first batch is clean and both saves resolve to the same file,
    the second save leaves the working directory, and returns the set,
    that a single save of the union of the two batches would have. *)
Theorem save_domains_batches `{JsonText} (σ : fs) (first second : gset string)
    (filename : option string) (now1 now2 : string) :
  resolve_filename filename (now2 +:+ "_domain_data.txt")
    = resolve_filename filename (now1 +:+ "_domain_data.txt") →
  clean_set first →
  save_domains_to_file second filename now2
    (save_domains_to_file first filename now1 σ).1
  = save_domains_to_file (first ∪ second) filename now1 σ.
Proof.
  intros Hname Hclean. rewrite !save_domains_to_file_unfold. cbv zeta.
  rewrite Hname. set (path := resolve_filename _ _). simpl.
  rewrite lookup_insert_eq. simpl. rewrite existing_entries.
  set (existing := from_option read_entries ∅ (file_text <$> σ !! path)).
  rewrite read_entries_write_entries.
  - rewrite insert_insert_eq.
    assert (existing ∪ filter (λ d, nonblank d) first
              ∪ filter (λ d, nonblank d) second
            = existing ∪ filter (λ d, nonblank d) (first ∪ second)) as ->; [|done].
    apply set_eq. intros x.
    rewrite !elem_of_union, !elem_of_filter, elem_of_union. tauto.
  - intros x [Hx|[Hnb Hx]%elem_of_filter]%elem_of_union.
    + unfold existing in Hx. destruct (σ !! path) as [f|]; simpl in Hx;
        [|set_solver]. by apply read_entries_clean in Hx.
    + split; [by apply Hclean|done].
Qed.

Lemma save_domains_batches_witness :
  save_domains_to_file (H := plain_text) {["b.example.com"]}
    (Some "domains.txt") "T2"
    (save_domains_to_file (H := plain_text) {["a.example.com"; "  "]}
       (Some "domains.txt") "T1" ∅).1
  = save_domains_to_file (H := plain_text)
      ({["a.example.com"; "  "]} ∪ {["b.example.com"]})
      (Some "domains.txt") "T1" ∅.
Proof.
  refine (save_domains_batches (H := plain_text) ∅
            {["a.example.com"; "  "]} {["b.example.com"]}
            (Some "domains.txt") "T1" "T2" _ _).
  - reflexivity.
  - unfold clean_set. apply (bool_decide_unpack _). vm_compute. exact I.
Defined.
